(** * RollOff roof driver for Raspberry Pi GPIO: model and verification

    Shallow embedding of [rolloffrpi.cpp] / [rolloffrpi.h].

    The driver is a single-threaded object whose methods mutate member
    variables and talk to two collaborators: the pigpiod daemon (GPIO pins)
    and the INDI Dome base class.  The embedding is a state monad over the
    record of member variables.  Every call that leaves the driver (a GPIO
    operation, a log line, a call into the base class, a sleep) is appended
    to a trace kept in the state, so that statements such as "no pin write
    happened" are statements about that trace.

    - The answers of the pigpiod daemon are given by an oracle that sees the
      whole trace so far; nothing is assumed about it.
    - The members of the base class that the driver only reads
      ([DomeMotionSP.s], [isConnected()], ...) are inputs of each entry
      point; calls that change the base class are recorded in the trace.
    - [double] members that hold whole numbers (pin numbers, the timeout
      in seconds) are integers; the time left of a motion is an exact
      rational, so rounding of [double] and [float] is not modelled. *)

From Stdlib Require Import ZArith List String Bool Lia QArith.
Import ListNotations.

Open Scope string_scope.
Open Scope Z_scope.

(** ** INDI and pigpio vocabulary *)

Inductive ISState : Type := ISS_OFF | ISS_ON.
Inductive IPState : Type := IPS_IDLE | IPS_OK | IPS_BUSY | IPS_ALERT.
Inductive DomeDirection : Type := DOME_CW | DOME_CCW.
Inductive DomeMotionCommand : Type := MOTION_START | MOTION_STOP.
Inductive DomeState : Type :=
  | DOME_UNKNOWN | DOME_ERROR | DOME_IDLE | DOME_MOVING | DOME_SYNCED
  | DOME_PARKING | DOME_UNPARKING | DOME_PARKED | DOME_UNPARKED.
Inductive LogLevel : Type := DBG_ERROR | DBG_WARNING | DBG_SESSION | DBG_DEBUG.
(** An argument of a log call: a string, a number, or a [bool] handed over
    as it is. *)
Inductive LogArg : Type := ArgS (a : string) | ArgN (a : Z) | ArgB (a : bool).
Inductive PiMode : Type := PI_INPUT | PI_OUTPUT.
Inductive PiPud : Type := PI_PUD_OFF | PI_PUD_DOWN | PI_PUD_UP.

Record timeval : Type := mkTimeval { tv_sec : Z; tv_usec : Z }.

Definition isOn (x : ISState) : bool :=
  match x with ISS_ON => true | ISS_OFF => false end.

Definition IPState_eqb (a b : IPState) : bool :=
  match a, b with
  | IPS_IDLE, IPS_IDLE | IPS_OK, IPS_OK | IPS_BUSY, IPS_BUSY
  | IPS_ALERT, IPS_ALERT => true
  | _, _ => false
  end.

Definition LogLevel_eqb (a b : LogLevel) : bool :=
  match a, b with
  | DBG_ERROR, DBG_ERROR | DBG_WARNING, DBG_WARNING
  | DBG_SESSION, DBG_SESSION | DBG_DEBUG, DBG_DEBUG => true
  | _, _ => false
  end.

(** [strcmp(a, b) == 0] *)
Definition strcmp0 (a b : string) : bool := String.eqb a b.

(** Calls into the INDI base class that change it or notify the client. *)
Inductive DomeCall : Type :=
  | Dome_initProperties
  | Dome_Disconnect
  | SetParkDataType_PARK_NONE
  | addAuxControls
  | IDSetLight_RoofStatusLP
  | SetTimer (ms : Z)
  | setDomeState (st : DomeState)
  | SetParked (parked : bool)
  | ParkSP_reset_idle.

(** One entry of the trace; the newest entry is the head of the list. *)
Inductive Event : Type :=
  | EvLog (lvl : LogLevel) (fmt : string) (args : list LogArg)
  | EvGpioRead (gpio ret : Z)
  | EvGpioWrite (gpio level ret : Z)
  | EvSetMode (gpio : Z) (mode : PiMode) (ret : Z)
  | EvSetPud (gpio : Z) (pud : PiPud) (ret : Z)
  | EvPigpioStart (ret : Z)
  | EvPigpioStop
  | EvGettimeofday (now : timeval)
  | EvSleep (mSec : Z)
  | EvDome (c : DomeCall).

(** The host outside the driver: what the system clock and each call of
    the pigpiod library return, given everything that happened before. *)
Record Pigpiod : Type := mkPigpiod {
  gettimeofday : list Event -> timeval;
  pigpio_start : list Event -> Z;
  set_mode : list Event -> Z -> PiMode -> Z;
  set_pull_up_down : list Event -> Z -> PiPud -> Z;
  gpio_read : list Event -> Z -> Z;
  gpio_write : list Event -> Z -> Z -> Z
}.

Definition PI_BAD_GPIO : Z := -3.

(** What the driver reads from [INDI::Dome] during one entry point. *)
Record DomeBase : Type := mkDomeBase {
  isConnected : bool;
  isSimulation : bool;
  DomeMotionSP_s : IPState;
  DomeMotionS_CW : ISState;
  DomeMotionS_CCW : ISState;
  isLocked : bool
}.

Definition DomeMotionS (fw : DomeBase) (dir : DomeDirection) : ISState :=
  match dir with
  | DOME_CW => DomeMotionS_CW fw
  | DOME_CCW => DomeMotionS_CCW fw
  end.

(** ** Constants of the driver *)

Definition INITIAL_TIMING : Z := 500.
Definition INACTIVE_TIMING : Z := 1000.
Definition ACTIVE_POLL_MS : Z := 500.
Definition MAX_CNTRL_COM_ERR : Z := 10.

Definition ROOF_OPENED_SWITCH : string := "OPENED".
Definition ROOF_CLOSED_SWITCH : string := "CLOSED".
Definition ROOF_LOCKED_SWITCH : string := "LOCKED".
Definition ROOF_AUX_SWITCH : string := "AUXSTATE".

Definition ROOF_OPEN_RELAY : string := "OPEN".
Definition ROOF_CLOSE_RELAY : string := "CLOSE".
Definition ROOF_ABORT_RELAY : string := "ABORT".
Definition ROOF_LOCK_RELAY : string := "LOCK".
Definition ROOF_AUX_RELAY : string := "AUXSET".

Definition MAX_OUT_DEFS : nat := 5.
Definition MAX_OUT_OPS : nat := 6.
Definition MAX_OUT_ACTIVE_LIMIT : nat := 5.
Definition MAX_INP_DEFS : nat := 4.
Definition MAX_INP_OPS : nat := 5.

Definition inpOps : list string :=
  [ROOF_OPENED_SWITCH; ROOF_CLOSED_SWITCH; ROOF_LOCKED_SWITCH; ROOF_AUX_SWITCH;
   "Unused"].
Definition outOps : list string :=
  [ROOF_OPEN_RELAY; ROOF_CLOSE_RELAY; ROOF_ABORT_RELAY; ROOF_LOCK_RELAY;
   ROOF_AUX_RELAY; "Unused"].
Definition outActiveLimit : list string :=
  ["0.1s"; "0.25s"; "0.5s"; "0.75s"; "No Limit"].
Definition activeLimitMilli : list Z := [100; 250; 500; 750; 0].

(** enum { ROOF_STATUS_OPENED, ... }, the index type of [RoofStatusL] *)
Inductive RoofStatusIndex : Type :=
  | ROOF_STATUS_OPENED | ROOF_STATUS_CLOSED | ROOF_STATUS_MOVING
  | ROOF_STATUS_LOCKED | ROOF_STATUS_AUXSTATE.

(** [ILight RoofStatusL[5]]: the field [.s] of each of the five lights. *)
Record RoofLights : Type := mkRoofLights {
  L_OPENED : IPState;
  L_CLOSED : IPState;
  L_MOVING : IPState;
  L_LOCKED : IPState;
  L_AUXSTATE : IPState
}.

Definition get_light (l : RoofLights) (i : RoofStatusIndex) : IPState :=
  match i with
  | ROOF_STATUS_OPENED => L_OPENED l
  | ROOF_STATUS_CLOSED => L_CLOSED l
  | ROOF_STATUS_MOVING => L_MOVING l
  | ROOF_STATUS_LOCKED => L_LOCKED l
  | ROOF_STATUS_AUXSTATE => L_AUXSTATE l
  end.

Definition put_light (i : RoofStatusIndex) (v : IPState) (l : RoofLights)
  : RoofLights :=
  match i with
  | ROOF_STATUS_OPENED => mkRoofLights v (L_CLOSED l) (L_MOVING l) (L_LOCKED l) (L_AUXSTATE l)
  | ROOF_STATUS_CLOSED => mkRoofLights (L_OPENED l) v (L_MOVING l) (L_LOCKED l) (L_AUXSTATE l)
  | ROOF_STATUS_MOVING => mkRoofLights (L_OPENED l) (L_CLOSED l) v (L_LOCKED l) (L_AUXSTATE l)
  | ROOF_STATUS_LOCKED => mkRoofLights (L_OPENED l) (L_CLOSED l) (L_MOVING l) v (L_AUXSTATE l)
  | ROOF_STATUS_AUXSTATE => mkRoofLights (L_OPENED l) (L_CLOSED l) (L_MOVING l) (L_LOCKED l) v
  end.

(** enum { LOCK_ENABLE, LOCK_DISABLE } and enum { AUX_ENABLE, AUX_DISABLE } *)
Definition LOCK_ENABLE : nat := 0.
Definition LOCK_DISABLE : nat := 1.
Definition AUX_ENABLE : nat := 0.
Definition AUX_DISABLE : nat := 1.

(** enum { EXPIRED_CLEAR, EXPIRED_OPEN, EXPIRED_CLOSE } *)
Definition EXPIRED_CLEAR : Z := 0.
Definition EXPIRED_OPEN : Z := 1.
Definition EXPIRED_CLOSE : Z := 2.

(** ** Member variables *)

(** The GPIO definition tables.  [outFunctionS[i][j].s] is
    [sw (outFunctionS d) i j]; the name of that switch never changes after
    [initProperties] and is [outOps[j]] (see [outFunctionS_name]). *)
Record GpioDefs : Type := mkGpioDefs {
  outFunctionS : list (list ISState);
  outPinNumberN : list Z;
  outActivateWhenS : list (list ISState);
  outActiveLimitS : list (list ISState);
  inpFunctionS : list (list ISState);
  inpPinNumberN : list Z;
  inpActivateWhenS : list (list ISState)
}.

Definition sw (a : list (list ISState)) (i j : nat) : ISState :=
  nth j (nth i a []) ISS_OFF.
Definition num (a : list Z) (i : nat) : Z := nth i a 0.

Definition outFunctionS_name (j : nat) : string := nth j outOps "".
Definition inpFunctionS_name (j : nat) : string := nth j inpOps "".
Definition outActiveLimitS_name (k : nat) : string := nth k outActiveLimit "".
Definition ActivateWhenS_name (k : nat) : string :=
  nth k ["High"; "Low"] "".

Record RollOffIno : Type := mkRollOffIno {
  MotionRequest : Z;
  MotionStart : timeval;
  contactEstablished : bool;
  roofOpening : bool;
  roofClosing : bool;
  RoofStatusL : RoofLights;
  RoofStatusLP_s : IPState;
  LockS : list ISState;
  AuxS : list ISState;
  fullyOpenedLimitSwitch : ISState;
  fullyClosedLimitSwitch : ISState;
  roofLockedSwitch : ISState;
  roofAuxiliarySwitch : ISState;
  RoofTimeoutN : Z;
  roofTimedOut : Z;
  simRoofOpen : bool;
  simRoofClosed : bool;
  communicationErrors : Z;
  limitMsg : Z;
  gpioDefs : GpioDefs;
  pi_id : Z;
  trace : list Event
}.

Definition set_MotionRequest (v : Z) (s : RollOffIno) : RollOffIno :=
  mkRollOffIno v (MotionStart s) (contactEstablished s) (roofOpening s) (roofClosing s)
    (RoofStatusL s) (RoofStatusLP_s s) (LockS s) (AuxS s) (fullyOpenedLimitSwitch s)
    (fullyClosedLimitSwitch s) (roofLockedSwitch s) (roofAuxiliarySwitch s)
    (RoofTimeoutN s) (roofTimedOut s) (simRoofOpen s) (simRoofClosed s)
    (communicationErrors s) (limitMsg s) (gpioDefs s) (pi_id s) (trace s).

Definition set_MotionStart (v : timeval) (s : RollOffIno) : RollOffIno :=
  mkRollOffIno (MotionRequest s) v (contactEstablished s) (roofOpening s)
    (roofClosing s) (RoofStatusL s) (RoofStatusLP_s s) (LockS s) (AuxS s)
    (fullyOpenedLimitSwitch s) (fullyClosedLimitSwitch s) (roofLockedSwitch s)
    (roofAuxiliarySwitch s) (RoofTimeoutN s) (roofTimedOut s) (simRoofOpen s)
    (simRoofClosed s) (communicationErrors s) (limitMsg s) (gpioDefs s) (pi_id s)
    (trace s).

Definition set_contactEstablished (v : bool) (s : RollOffIno) : RollOffIno :=
  mkRollOffIno (MotionRequest s) (MotionStart s) v (roofOpening s) (roofClosing s)
    (RoofStatusL s) (RoofStatusLP_s s) (LockS s) (AuxS s) (fullyOpenedLimitSwitch s)
    (fullyClosedLimitSwitch s) (roofLockedSwitch s) (roofAuxiliarySwitch s)
    (RoofTimeoutN s) (roofTimedOut s) (simRoofOpen s) (simRoofClosed s)
    (communicationErrors s) (limitMsg s) (gpioDefs s) (pi_id s) (trace s).

Definition set_roofOpening (v : bool) (s : RollOffIno) : RollOffIno :=
  mkRollOffIno (MotionRequest s) (MotionStart s) (contactEstablished s) v
    (roofClosing s) (RoofStatusL s) (RoofStatusLP_s s) (LockS s) (AuxS s)
    (fullyOpenedLimitSwitch s) (fullyClosedLimitSwitch s) (roofLockedSwitch s)
    (roofAuxiliarySwitch s) (RoofTimeoutN s) (roofTimedOut s) (simRoofOpen s)
    (simRoofClosed s) (communicationErrors s) (limitMsg s) (gpioDefs s) (pi_id s)
    (trace s).

Definition set_roofClosing (v : bool) (s : RollOffIno) : RollOffIno :=
  mkRollOffIno (MotionRequest s) (MotionStart s) (contactEstablished s) (roofOpening s)
    v (RoofStatusL s) (RoofStatusLP_s s) (LockS s) (AuxS s) (fullyOpenedLimitSwitch s)
    (fullyClosedLimitSwitch s) (roofLockedSwitch s) (roofAuxiliarySwitch s)
    (RoofTimeoutN s) (roofTimedOut s) (simRoofOpen s) (simRoofClosed s)
    (communicationErrors s) (limitMsg s) (gpioDefs s) (pi_id s) (trace s).

Definition set_RoofStatusL (v : RoofLights) (s : RollOffIno) : RollOffIno :=
  mkRollOffIno (MotionRequest s) (MotionStart s) (contactEstablished s) (roofOpening s)
    (roofClosing s) v (RoofStatusLP_s s) (LockS s) (AuxS s) (fullyOpenedLimitSwitch s)
    (fullyClosedLimitSwitch s) (roofLockedSwitch s) (roofAuxiliarySwitch s)
    (RoofTimeoutN s) (roofTimedOut s) (simRoofOpen s) (simRoofClosed s)
    (communicationErrors s) (limitMsg s) (gpioDefs s) (pi_id s) (trace s).

Definition set_RoofStatusLP_s (v : IPState) (s : RollOffIno) : RollOffIno :=
  mkRollOffIno (MotionRequest s) (MotionStart s) (contactEstablished s) (roofOpening s)
    (roofClosing s) (RoofStatusL s) v (LockS s) (AuxS s) (fullyOpenedLimitSwitch s)
    (fullyClosedLimitSwitch s) (roofLockedSwitch s) (roofAuxiliarySwitch s)
    (RoofTimeoutN s) (roofTimedOut s) (simRoofOpen s) (simRoofClosed s)
    (communicationErrors s) (limitMsg s) (gpioDefs s) (pi_id s) (trace s).

Definition set_LockS (v : list ISState) (s : RollOffIno) : RollOffIno :=
  mkRollOffIno (MotionRequest s) (MotionStart s) (contactEstablished s) (roofOpening s)
    (roofClosing s) (RoofStatusL s) (RoofStatusLP_s s) v (AuxS s)
    (fullyOpenedLimitSwitch s) (fullyClosedLimitSwitch s) (roofLockedSwitch s)
    (roofAuxiliarySwitch s) (RoofTimeoutN s) (roofTimedOut s) (simRoofOpen s)
    (simRoofClosed s) (communicationErrors s) (limitMsg s) (gpioDefs s) (pi_id s)
    (trace s).

Definition set_AuxS (v : list ISState) (s : RollOffIno) : RollOffIno :=
  mkRollOffIno (MotionRequest s) (MotionStart s) (contactEstablished s) (roofOpening s)
    (roofClosing s) (RoofStatusL s) (RoofStatusLP_s s) (LockS s) v
    (fullyOpenedLimitSwitch s) (fullyClosedLimitSwitch s) (roofLockedSwitch s)
    (roofAuxiliarySwitch s) (RoofTimeoutN s) (roofTimedOut s) (simRoofOpen s)
    (simRoofClosed s) (communicationErrors s) (limitMsg s) (gpioDefs s) (pi_id s)
    (trace s).

Definition set_fullyOpenedLimitSwitch (v : ISState) (s : RollOffIno) : RollOffIno :=
  mkRollOffIno (MotionRequest s) (MotionStart s) (contactEstablished s) (roofOpening s)
    (roofClosing s) (RoofStatusL s) (RoofStatusLP_s s) (LockS s) (AuxS s) v
    (fullyClosedLimitSwitch s) (roofLockedSwitch s) (roofAuxiliarySwitch s)
    (RoofTimeoutN s) (roofTimedOut s) (simRoofOpen s) (simRoofClosed s)
    (communicationErrors s) (limitMsg s) (gpioDefs s) (pi_id s) (trace s).

Definition set_fullyClosedLimitSwitch (v : ISState) (s : RollOffIno) : RollOffIno :=
  mkRollOffIno (MotionRequest s) (MotionStart s) (contactEstablished s) (roofOpening s)
    (roofClosing s) (RoofStatusL s) (RoofStatusLP_s s) (LockS s) (AuxS s)
    (fullyOpenedLimitSwitch s) v (roofLockedSwitch s) (roofAuxiliarySwitch s)
    (RoofTimeoutN s) (roofTimedOut s) (simRoofOpen s) (simRoofClosed s)
    (communicationErrors s) (limitMsg s) (gpioDefs s) (pi_id s) (trace s).

Definition set_roofLockedSwitch (v : ISState) (s : RollOffIno) : RollOffIno :=
  mkRollOffIno (MotionRequest s) (MotionStart s) (contactEstablished s) (roofOpening s)
    (roofClosing s) (RoofStatusL s) (RoofStatusLP_s s) (LockS s) (AuxS s)
    (fullyOpenedLimitSwitch s) (fullyClosedLimitSwitch s) v (roofAuxiliarySwitch s)
    (RoofTimeoutN s) (roofTimedOut s) (simRoofOpen s) (simRoofClosed s)
    (communicationErrors s) (limitMsg s) (gpioDefs s) (pi_id s) (trace s).

Definition set_roofAuxiliarySwitch (v : ISState) (s : RollOffIno) : RollOffIno :=
  mkRollOffIno (MotionRequest s) (MotionStart s) (contactEstablished s) (roofOpening s)
    (roofClosing s) (RoofStatusL s) (RoofStatusLP_s s) (LockS s) (AuxS s)
    (fullyOpenedLimitSwitch s) (fullyClosedLimitSwitch s) (roofLockedSwitch s) v
    (RoofTimeoutN s) (roofTimedOut s) (simRoofOpen s) (simRoofClosed s)
    (communicationErrors s) (limitMsg s) (gpioDefs s) (pi_id s) (trace s).

Definition set_RoofTimeoutN (v : Z) (s : RollOffIno) : RollOffIno :=
  mkRollOffIno (MotionRequest s) (MotionStart s) (contactEstablished s) (roofOpening s)
    (roofClosing s) (RoofStatusL s) (RoofStatusLP_s s) (LockS s) (AuxS s)
    (fullyOpenedLimitSwitch s) (fullyClosedLimitSwitch s) (roofLockedSwitch s)
    (roofAuxiliarySwitch s) v (roofTimedOut s) (simRoofOpen s) (simRoofClosed s)
    (communicationErrors s) (limitMsg s) (gpioDefs s) (pi_id s) (trace s).

Definition set_roofTimedOut (v : Z) (s : RollOffIno) : RollOffIno :=
  mkRollOffIno (MotionRequest s) (MotionStart s) (contactEstablished s) (roofOpening s)
    (roofClosing s) (RoofStatusL s) (RoofStatusLP_s s) (LockS s) (AuxS s)
    (fullyOpenedLimitSwitch s) (fullyClosedLimitSwitch s) (roofLockedSwitch s)
    (roofAuxiliarySwitch s) (RoofTimeoutN s) v (simRoofOpen s) (simRoofClosed s)
    (communicationErrors s) (limitMsg s) (gpioDefs s) (pi_id s) (trace s).

Definition set_simRoofOpen (v : bool) (s : RollOffIno) : RollOffIno :=
  mkRollOffIno (MotionRequest s) (MotionStart s) (contactEstablished s) (roofOpening s)
    (roofClosing s) (RoofStatusL s) (RoofStatusLP_s s) (LockS s) (AuxS s)
    (fullyOpenedLimitSwitch s) (fullyClosedLimitSwitch s) (roofLockedSwitch s)
    (roofAuxiliarySwitch s) (RoofTimeoutN s) (roofTimedOut s) v (simRoofClosed s)
    (communicationErrors s) (limitMsg s) (gpioDefs s) (pi_id s) (trace s).

Definition set_simRoofClosed (v : bool) (s : RollOffIno) : RollOffIno :=
  mkRollOffIno (MotionRequest s) (MotionStart s) (contactEstablished s) (roofOpening s)
    (roofClosing s) (RoofStatusL s) (RoofStatusLP_s s) (LockS s) (AuxS s)
    (fullyOpenedLimitSwitch s) (fullyClosedLimitSwitch s) (roofLockedSwitch s)
    (roofAuxiliarySwitch s) (RoofTimeoutN s) (roofTimedOut s) (simRoofOpen s) v
    (communicationErrors s) (limitMsg s) (gpioDefs s) (pi_id s) (trace s).

Definition set_communicationErrors (v : Z) (s : RollOffIno) : RollOffIno :=
  mkRollOffIno (MotionRequest s) (MotionStart s) (contactEstablished s) (roofOpening s)
    (roofClosing s) (RoofStatusL s) (RoofStatusLP_s s) (LockS s) (AuxS s)
    (fullyOpenedLimitSwitch s) (fullyClosedLimitSwitch s) (roofLockedSwitch s)
    (roofAuxiliarySwitch s) (RoofTimeoutN s) (roofTimedOut s) (simRoofOpen s)
    (simRoofClosed s) v (limitMsg s) (gpioDefs s) (pi_id s) (trace s).

Definition set_limitMsg (v : Z) (s : RollOffIno) : RollOffIno :=
  mkRollOffIno (MotionRequest s) (MotionStart s) (contactEstablished s) (roofOpening s)
    (roofClosing s) (RoofStatusL s) (RoofStatusLP_s s) (LockS s) (AuxS s)
    (fullyOpenedLimitSwitch s) (fullyClosedLimitSwitch s) (roofLockedSwitch s)
    (roofAuxiliarySwitch s) (RoofTimeoutN s) (roofTimedOut s) (simRoofOpen s)
    (simRoofClosed s) (communicationErrors s) v (gpioDefs s) (pi_id s) (trace s).

Definition set_gpioDefs (v : GpioDefs) (s : RollOffIno) : RollOffIno :=
  mkRollOffIno (MotionRequest s) (MotionStart s) (contactEstablished s) (roofOpening s)
    (roofClosing s) (RoofStatusL s) (RoofStatusLP_s s) (LockS s) (AuxS s)
    (fullyOpenedLimitSwitch s) (fullyClosedLimitSwitch s) (roofLockedSwitch s)
    (roofAuxiliarySwitch s) (RoofTimeoutN s) (roofTimedOut s) (simRoofOpen s)
    (simRoofClosed s) (communicationErrors s) (limitMsg s) v (pi_id s) (trace s).

Definition set_pi_id (v : Z) (s : RollOffIno) : RollOffIno :=
  mkRollOffIno (MotionRequest s) (MotionStart s) (contactEstablished s) (roofOpening s)
    (roofClosing s) (RoofStatusL s) (RoofStatusLP_s s) (LockS s) (AuxS s)
    (fullyOpenedLimitSwitch s) (fullyClosedLimitSwitch s) (roofLockedSwitch s)
    (roofAuxiliarySwitch s) (RoofTimeoutN s) (roofTimedOut s) (simRoofOpen s)
    (simRoofClosed s) (communicationErrors s) (limitMsg s) (gpioDefs s) v (trace s).

Definition set_trace (v : list Event) (s : RollOffIno) : RollOffIno :=
  mkRollOffIno (MotionRequest s) (MotionStart s) (contactEstablished s) (roofOpening s)
    (roofClosing s) (RoofStatusL s) (RoofStatusLP_s s) (LockS s) (AuxS s)
    (fullyOpenedLimitSwitch s) (fullyClosedLimitSwitch s) (roofLockedSwitch s)
    (roofAuxiliarySwitch s) (RoofTimeoutN s) (roofTimedOut s) (simRoofOpen s)
    (simRoofClosed s) (communicationErrors s) (limitMsg s) (gpioDefs s) (pi_id s) v.

(** [RoofStatusL[i].s] and the assignment to it. *)
Definition light (s : RollOffIno) (i : RoofStatusIndex) : IPState :=
  get_light (RoofStatusL s) i.
Definition set_light (i : RoofStatusIndex) (v : IPState) (s : RollOffIno)
  : RollOffIno :=
  set_RoofStatusL (put_light i v (RoofStatusL s)) s.

(** ** The state monad of the driver *)

Definition M (A : Type) : Type := RollOffIno -> A * RollOffIno.

Definition ret {A : Type} (a : A) : M A := fun s => (a, s).
Definition bind {A B : Type} (m : M A) (k : A -> M B) : M B :=
  fun s => let (a, s') := m s in k a s'.
Definition gets {A : Type} (f : RollOffIno -> A) : M A := fun s => (f s, s).
Definition modify (f : RollOffIno -> RollOffIno) : M unit := fun s => (tt, f s).
Definition when (b : bool) (m : M unit) : M unit := if b then m else ret tt.

Notation "x <- m ;; k" := (bind m (fun x => k))
  (at level 61, m at next level, right associativity).
Notation "' p <- m ;; k" := (bind m (fun x => let 'p := x in k))
  (at level 61, p pattern, m at next level, right associativity).
Notation "m ;; k" := (bind m (fun _ => k))
  (at level 61, right associativity).

Definition emit (e : Event) : M unit :=
  modify (fun s => set_trace (e :: trace s) s).

Definition LOGF (lvl : LogLevel) (fmt : string) (args : list LogArg) : M unit :=
  emit (EvLog lvl fmt args).
Definition LOG_ERROR (msg : string) : M unit := LOGF DBG_ERROR msg [].
Definition LOG_WARN (msg : string) : M unit := LOGF DBG_WARNING msg [].
Definition LOG_INFO (msg : string) : M unit := LOGF DBG_SESSION msg [].
Definition LOG_DEBUG (msg : string) : M unit := LOGF DBG_DEBUG msg [].
Definition dome (c : DomeCall) : M unit := emit (EvDome c).

(** [for (k = 0; k < n; k++) if (p k) { ...; break; }]: the index at which
    the loop is left, if any. *)
Definition first_index (n : nat) (p : nat -> bool) : option nat :=
  find p (seq 0 n).

(** A loop whose body may [break]; [r] is what the body keeps in local
    variables. *)
Fixpoint for_break {R : Type} (l : list nat) (body : nat -> R -> M (R * bool))
  (r : R) : M R :=
  match l with
  | [] => ret r
  | k :: l' =>
      '(r', brk) <- body k r ;;
      if brk then ret r' else for_break l' body r'
  end.

(** A loop that always runs to its end. *)
Fixpoint for_each {R : Type} (l : list nat) (body : nat -> R -> M R) (r : R)
  : M R :=
  match l with
  | [] => ret r
  | k :: l' => r' <- body k r ;; for_each l' body r'
  end.

(** ** The driver *)

Section Driver.

Variable pi : Pigpiod.
Variable fw : DomeBase.

(** *** Calls that leave the driver *)

Definition call_gettimeofday : M timeval := fun s =>
  let t := gettimeofday pi (trace s) in
  (t, set_trace (EvGettimeofday t :: trace s) s).

Definition call_pigpio_start : M Z := fun s =>
  let r := pigpio_start pi (trace s) in
  (r, set_trace (EvPigpioStart r :: trace s) s).

Definition call_set_mode (gpio : Z) (mode : PiMode) : M Z := fun s =>
  let r := set_mode pi (trace s) gpio mode in
  (r, set_trace (EvSetMode gpio mode r :: trace s) s).

Definition call_set_pull_up_down (gpio : Z) (pud : PiPud) : M Z := fun s =>
  let r := set_pull_up_down pi (trace s) gpio pud in
  (r, set_trace (EvSetPud gpio pud r :: trace s) s).

Definition call_gpio_read (gpio : Z) : M Z := fun s =>
  let r := gpio_read pi (trace s) gpio in
  (r, set_trace (EvGpioRead gpio r :: trace s) s).

Definition call_gpio_write (gpio level : Z) : M Z := fun s =>
  let r := gpio_write pi (trace s) gpio level in
  (r, set_trace (EvGpioWrite gpio level r :: trace s) s).

Definition msSleep (mSec : Z) : M unit := emit (EvSleep mSec).

(** *** readRoofSwitch

    Returns the pair (return value, [*result]).

    When the read fails, the source passes the [bool] member [roofClosing]
    for the first [%s] of its warning
    ([LOGF_WARN("GPIO read failed for %s, %d, returned: %s", roofClosing,
    gpio, pigpio_error(retValue))]).  That call has undefined behaviour;
    the log entry records the argument as it is passed ([ArgB]), and what
    the definition does after it is what the code does if the call
    returns. *)

Definition inpDefinitionFor (roofSwitchId : string) (d : GpioDefs) : option nat :=
  first_index MAX_INP_DEFS (fun i =>
    existsb (fun j =>
      strcmp0 roofSwitchId (inpFunctionS_name j) && isOn (sw (inpFunctionS d) i j))
      (seq 0 MAX_INP_OPS)).

Definition readRoofSwitch (roofSwitchId : string) : M (bool * bool) :=
  contact <- gets contactEstablished ;;
  if negb contact then
    LOG_WARN "No contact with the roof controller has been established" ;;
    ret (false, false)
  else
    d <- gets gpioDefs ;;
    match inpDefinitionFor roofSwitchId d with
    | None =>
        if strcmp0 roofSwitchId ROOF_OPENED_SWITCH
           || strcmp0 roofSwitchId ROOF_CLOSED_SWITCH
        then
          LOGF DBG_WARNING "A usable GPIO pin definition for %s was not found."
            [ArgS roofSwitchId] ;;
          ret (false, false)
        else ret (true, false)
    | Some i =>
        let gpio := num (inpPinNumberN d) i in
        let activeHigh :=
          strcmp0 (ActivateWhenS_name 0) "High" && isOn (sw (inpActivateWhenS d) i 0) in
        let activeLow :=
          negb activeHigh
          && (strcmp0 (ActivateWhenS_name 1) "Low" && isOn (sw (inpActivateWhenS d) i 1)) in
        retValue <- call_gpio_read gpio ;;
        if retValue =? PI_BAD_GPIO then
          closing <- gets roofClosing ;;
          LOGF DBG_WARNING "GPIO read failed for %s, %d, returned: %s"
            [ArgB closing; ArgN gpio; ArgN retValue] ;;
          ret (false, false)
        else if (activeHigh && (retValue =? 1)) || (activeLow && (retValue =? 0))
        then ret (true, true)
        else ret (true, false)
    end.

(** *** The four sensor getters: (return value, [*switchState]) *)

Definition getFullOpenedLimitSwitch : M (bool * bool) :=
  if isSimulation fw then
    sim <- gets simRoofOpen ;;
    if sim then modify (set_fullyOpenedLimitSwitch ISS_ON) ;; ret (true, true)
    else modify (set_fullyOpenedLimitSwitch ISS_OFF) ;; ret (true, false)
  else
    '(ok, switchState) <- readRoofSwitch ROOF_OPENED_SWITCH ;;
    if ok then
      (if switchState then modify (set_fullyOpenedLimitSwitch ISS_ON)
       else modify (set_fullyOpenedLimitSwitch ISS_OFF)) ;;
      ret (true, switchState)
    else
      LOG_WARN "Unable to obtain from the controller whether or not the roof is opened" ;;
      ret (false, switchState).

Definition getFullClosedLimitSwitch : M (bool * bool) :=
  if isSimulation fw then
    sim <- gets simRoofClosed ;;
    if sim then modify (set_fullyClosedLimitSwitch ISS_ON) ;; ret (true, true)
    else modify (set_fullyClosedLimitSwitch ISS_OFF) ;; ret (true, false)
  else
    '(ok, switchState) <- readRoofSwitch ROOF_CLOSED_SWITCH ;;
    if ok then
      (if switchState then modify (set_fullyClosedLimitSwitch ISS_ON)
       else modify (set_fullyClosedLimitSwitch ISS_OFF)) ;;
      ret (true, switchState)
    else
      LOG_WARN "Unable to obtain from the controller whether or not the roof is closed" ;;
      ret (false, switchState).

Definition getRoofLockedSwitch : M (bool * bool) :=
  if isSimulation fw then
    modify (set_roofLockedSwitch ISS_OFF) ;; ret (true, false)
  else
    '(ok, switchState) <- readRoofSwitch ROOF_LOCKED_SWITCH ;;
    if ok then
      (if switchState then modify (set_roofLockedSwitch ISS_ON)
       else modify (set_roofLockedSwitch ISS_OFF)) ;;
      ret (true, switchState)
    else
      LOG_WARN "Unable to obtain from the controller whether or not the roof is externally locked" ;;
      ret (false, switchState).

Definition getRoofAuxSwitch : M (bool * bool) :=
  if isSimulation fw then
    aux <- gets AuxS ;;
    if negb (isOn (nth AUX_ENABLE aux ISS_OFF)) then
      modify (set_roofAuxiliarySwitch ISS_OFF) ;; ret (true, false)
    else
      modify (set_roofAuxiliarySwitch ISS_ON) ;; ret (true, true)
  else
    '(ok, switchState) <- readRoofSwitch ROOF_AUX_SWITCH ;;
    if ok then
      (if switchState then modify (set_roofAuxiliarySwitch ISS_ON)
       else modify (set_roofAuxiliarySwitch ISS_OFF)) ;;
      ret (true, switchState)
    else
      LOG_WARN "Unable to obtain from the controller whether or not the obs Aux switch is being used" ;;
      ret (false, switchState).

(** *** pushRoofButton *)

Definition isMoveRelay (button : string) : bool :=
  strcmp0 button ROOF_OPEN_RELAY || strcmp0 button ROOF_CLOSE_RELAY
  || strcmp0 button ROOF_ABORT_RELAY.

(** The outer [for] over the definitions with the inner [for] over the
    functions: the first definition [i] in which the switch named [button]
    is on. *)
Definition outDefinitionFor (button : string) (d : GpioDefs) : option nat :=
  first_index MAX_OUT_DEFS (fun i =>
    existsb (fun j =>
      strcmp0 button (outFunctionS_name j) && isOn (sw (outFunctionS d) i j))
      (seq 0 MAX_OUT_OPS)).

(** [wantHigh] after the two tests on [outActivateWhenS[i]]; it keeps its
    initial value [false] when neither switch is on. *)
Definition wantHighFor (d : GpioDefs) (i : nat) (switchOn : bool) : bool :=
  if strcmp0 (ActivateWhenS_name 0) "High" && isOn (sw (outActivateWhenS d) i 0)
  then switchOn
  else if strcmp0 (ActivateWhenS_name 1) "Low" && isOn (sw (outActivateWhenS d) i 1)
  then negb switchOn
  else false.

Definition pushRoofButton (button : string) (switchOn ignoreLock : bool) : M bool :=
  contact <- gets contactEstablished ;;
  if negb contact then
    LOG_WARN "No contact with the roof controller has been established" ;;
    ret false
  else
    '(status, roofLocked) <- getRoofLockedSwitch ;;
    if (negb status || roofLocked) && negb ignoreLock then
      LOG_WARN "Roof external lock state prevents roof movement" ;;
      ret false
    else
      d <- gets gpioDefs ;;
      match outDefinitionFor button d with
      | None =>
          (* status is still true here *)
          if isMoveRelay button then
            LOGF DBG_WARNING "A GPIO pin definition for %s was not found." [ArgS button] ;;
            ret false
          else ret true
      | Some i =>
          let moveFunction := isMoveRelay button in
          let gpio := num (outPinNumberN d) i in
          let wantHigh := wantHighFor d i switchOn in
          '(intervalMilli, status) <-
            match first_index MAX_OUT_ACTIVE_LIMIT
                    (fun j => isOn (sw (outActiveLimitS d) i j)) with
            | Some j =>
                let intervalMilli := nth j activeLimitMilli 0 in
                if (intervalMilli =? 0) && moveFunction then
                  LOGF DBG_WARNING
                    "%s needs a Active Limit interval, No Limit only available for Lock and Aux."
                    [ArgS button] ;;
                  ret (intervalMilli, false)
                else ret (intervalMilli, true)
            | None => ret (0, true)
            end ;;
          if negb status then
            LOGF DBG_WARNING "A usable GPIO pin definition for %s was not found."
              [ArgS button] ;;
            ret status
          else
            r <- call_gpio_write gpio (if wantHigh then 1 else 0) ;;
            if negb (r =? 0) then
              LOGF DBG_WARNING "GPIO write failed for %s, %d, returned: %s"
                [ArgS button; ArgN gpio] ;;
              ret false
            else if intervalMilli >? 0 then
              msSleep intervalMilli ;;
              r' <- call_gpio_write gpio (if wantHigh then 0 else 1) ;;
              if negb (r' =? 0) then
                LOGF DBG_WARNING "GPIO write reset failed for %s, %d, returned: %s"
                  [ArgS button; ArgN gpio] ;;
                ret false
              else ret true
            else ret true
      end.

Definition roofOpen : M bool :=
  if isSimulation fw then ret true else pushRoofButton ROOF_OPEN_RELAY true false.
Definition roofClose : M bool :=
  if isSimulation fw then ret true else pushRoofButton ROOF_CLOSE_RELAY true false.
Definition roofAbort : M bool :=
  if isSimulation fw then ret true else pushRoofButton ROOF_ABORT_RELAY true false.
Definition setRoofLock (switchOn : bool) : M bool :=
  if isSimulation fw then ret false else pushRoofButton ROOF_LOCK_RELAY switchOn true.
Definition setRoofAux (switchOn : bool) : M bool :=
  if isSimulation fw then ret false else pushRoofButton ROOF_AUX_RELAY switchOn true.

(** *** initProperties, gpioPinSet, Connect, Disconnect *)

Definition initialGpioDefs : GpioDefs :=
  mkGpioDefs
    (repeat (repeat ISS_OFF MAX_OUT_OPS) MAX_OUT_DEFS)
    (repeat 0 MAX_OUT_DEFS)
    (repeat (repeat ISS_OFF 2) MAX_OUT_DEFS)
    (repeat (repeat ISS_OFF MAX_OUT_ACTIVE_LIMIT) MAX_OUT_DEFS)
    (repeat (repeat ISS_OFF MAX_INP_OPS) MAX_INP_DEFS)
    (repeat 0 MAX_INP_DEFS)
    (repeat (repeat ISS_OFF 2) MAX_INP_DEFS).

Definition initProperties : M bool :=
  dome Dome_initProperties ;;
  (* LockS[LOCK_DISABLE] on, LockS[LOCK_ENABLE] off; the same for AuxS *)
  modify (set_LockS [ISS_OFF; ISS_ON]) ;;
  modify (set_AuxS [ISS_OFF; ISS_ON]) ;;
  modify (set_RoofStatusL (mkRoofLights IPS_IDLE IPS_IDLE IPS_IDLE IPS_IDLE IPS_IDLE)) ;;
  modify (set_RoofStatusLP_s IPS_BUSY) ;;
  modify (set_RoofTimeoutN 15) ;;
  modify (set_gpioDefs initialGpioDefs) ;;
  dome SetParkDataType_PARK_NONE ;;
  dome addAuxControls ;;
  ret true.

(** One pass of the inner loop over the output functions of definition [i];
    the local variables kept across passes are [required] and [sTime]. *)
Definition gpioPinSet_output (i j : nat) (r : Z * string) : M ((Z * string) * bool) :=
  let '(required, sTime) := r in
  d <- gets gpioDefs ;;
  if negb (isOn (sw (outFunctionS d) i j)) || strcmp0 (outFunctionS_name j) "Unused"
  then ret (r, false)
  else
    let gpio := num (outPinNumberN d) i in
    let required :=
      if (strcmp0 (outFunctionS_name j) (nth 0 outOps "")
          || strcmp0 (outFunctionS_name j) (nth 1 outOps "")) && (gpio >? 2)
      then required + 1 else required in
    err <- call_set_mode gpio PI_OUTPUT ;;
    if negb (err =? 0) then
      LOGF DBG_ERROR "Failed to set %s GPIO pin %d to output mode %s"
        [ArgS (outFunctionS_name j); ArgN gpio; ArgN err] ;;
      ret ((required, sTime), true)
    else
      err <- call_set_pull_up_down gpio PI_PUD_OFF ;;
      if negb (err =? 0) then
        LOGF DBG_ERROR "Failed to set %s GPIO pin %d internal resistor"
          [ArgS (outFunctionS_name j); ArgN gpio; ArgN err] ;;
        ret ((required, sTime), true)
      else
        let sActivate :=
          if isOn (sw (outActivateWhenS d) i 0) then ActivateWhenS_name 0
          else ActivateWhenS_name 1 in
        let sTime :=
          match first_index MAX_OUT_ACTIVE_LIMIT
                  (fun k => isOn (sw (outActiveLimitS d) i k)) with
          | Some k => outActiveLimitS_name k
          | None => sTime
          end in
        (* Set relay off *)
        err <- call_gpio_write gpio (if strcmp0 sActivate "High" then 0 else 1) ;;
        when (negb (err =? 0))
          (LOGF DBG_WARNING "GPIO write failed for %s, %d, returned: %s"
             [ArgS (outFunctionS_name j); ArgN gpio; ArgN err]) ;;
        LOGF DBG_DEBUG
          "Position %s, Function %s, Pin %d, Mode Output, Activate %s, Resistor off, Timed %s"
          [ArgN (Z.of_nat i + 1); ArgS (outFunctionS_name j); ArgN gpio;
           ArgS sActivate; ArgS sTime] ;;
        ret ((required, sTime), false).

Definition gpioPinSet_input (i j : nat) (required : Z) : M (Z * bool) :=
  d <- gets gpioDefs ;;
  if negb (isOn (sw (inpFunctionS d) i j)) || strcmp0 (inpFunctionS_name j) "Unused"
  then ret (required, false)
  else
    let gpio := num (inpPinNumberN d) i in
    let required :=
      if (strcmp0 (inpFunctionS_name j) (nth 0 inpOps "")
          || strcmp0 (inpFunctionS_name j) (nth 1 inpOps "")) && (gpio >? 2)
      then required + 1 else required in
    err <- call_set_mode gpio PI_INPUT ;;
    if negb (err =? 0) then
      LOGF DBG_ERROR "Failed to set %s GPIO pin %d to input mode %s"
        [ArgS (inpFunctionS_name j); ArgN gpio; ArgN err] ;;
      ret (required, true)
    else
      let sActivate :=
        if isOn (sw (inpActivateWhenS d) i 0) then ActivateWhenS_name 0
        else ActivateWhenS_name 1 in
      let pud := if strcmp0 sActivate "High" then PI_PUD_DOWN else PI_PUD_UP in
      let sPud := if strcmp0 sActivate "High" then "down" else "up" in
      err <- call_set_pull_up_down gpio pud ;;
      if negb (err =? 0) then
        LOGF DBG_ERROR "Failed to set %s GPIO pin %d internal resistor"
          [ArgS (inpFunctionS_name j); ArgN gpio; ArgN err] ;;
        ret (required, true)
      else
        LOGF DBG_DEBUG
          "Position %s, Function %s, Pin %d, Mode Input, Activate %s, Resistor pull %s"
          [ArgN (Z.of_nat i + 1); ArgS (inpFunctionS_name j); ArgN gpio;
           ArgS sActivate; ArgS sPud] ;;
        ret (required, false).

(** The two nested loops; the result is the final value of [required]. *)
Definition gpioPinSet_required : M Z :=
  r <- for_each (seq 0 MAX_OUT_DEFS)
         (fun i => for_break (seq 0 MAX_OUT_OPS) (gpioPinSet_output i)) (0, "") ;;
  for_each (seq 0 MAX_INP_DEFS)
    (fun i => for_break (seq 0 MAX_INP_OPS) (gpioPinSet_input i)) (fst r).

Definition configurationError : string :=
  "The GPIO definitions must include relays OPEN, CLOSE, and switches OPENED, CLOSED".

Definition gpioPinSet : M unit :=
  LOG_DEBUG "Summary of GPIO pins defined: " ;;
  required <- gpioPinSet_required ;;
  (* Minimal is open, close, opened, closed *)
  when (required <? 4) (LOG_ERROR configurationError).

Definition Connect : M bool :=
  modify (set_limitMsg 0) ;;
  id <- call_pigpio_start ;;
  modify (set_pi_id id) ;;
  if id <? 0 then
    LOGF DBG_ERROR "Unable to contact the pigpiod system service, %s" [ArgN id] ;;
    LOGF DBG_DEBUG "pigpiod_if2 version %lu." [] ;;
    ret false
  else
    modify (set_contactEstablished true) ;;
    gpioPinSet ;;
    dome (SetTimer INITIAL_TIMING) ;;
    ret true.

Definition Disconnect : M bool := emit EvPigpioStop ;; ret true.

(** *** updateRoofStatus

    [roofStatusLights] is the body of [updateRoofStatus] after the four
    sensors have been read into the local variables. *)

Definition stationaryWarning : string :=
  "Roof stationary, neither opened or closed, adjust to match PARK button".
Definition stationaryError : string :=
  "Roof stationary, not opened or closed. Will stop reporting this error.".
Definition contradictionWarning : string :=
  "Roof showing it is both opened and closed according to the controller".

Definition roofStatusLights
  (openedState closedState lockedState auxiliaryState : bool) : M unit :=
  opening <- gets roofOpening ;;
  closing <- gets roofClosing ;;
  (if negb openedState && negb closedState && negb opening && negb closing then
     n <- gets limitMsg ;;
     if n <=? 10 then
       modify (set_limitMsg (n + 1)) ;;
       LOG_WARN stationaryWarning
     else if n =? 11 then
       modify (set_limitMsg (n + 1)) ;;
       LOG_ERROR stationaryError
     else ret tt
   else modify (set_limitMsg 0)) ;;
  when (openedState && closedState)
    (LOGF DBG_WARNING contradictionWarning []) ;;
  modify (set_light ROOF_STATUS_AUXSTATE IPS_IDLE) ;;
  modify (set_light ROOF_STATUS_LOCKED IPS_IDLE) ;;
  modify (set_light ROOF_STATUS_OPENED IPS_IDLE) ;;
  modify (set_light ROOF_STATUS_CLOSED IPS_IDLE) ;;
  modify (set_light ROOF_STATUS_MOVING IPS_IDLE) ;;
  modify (set_RoofStatusLP_s IPS_IDLE) ;;
  when auxiliaryState (modify (set_light ROOF_STATUS_AUXSTATE IPS_OK)) ;;
  (if lockedState then
     modify (set_light ROOF_STATUS_LOCKED IPS_ALERT) ;;
     if closedState then
       modify (set_light ROOF_STATUS_CLOSED IPS_OK) ;;
       modify (set_RoofStatusLP_s IPS_OK)
     else if openedState then
       modify (set_light ROOF_STATUS_OPENED IPS_OK) ;;
       modify (set_RoofStatusLP_s IPS_OK)
     else
       opening <- gets roofOpening ;;
       closing <- gets roofClosing ;;
       when (opening || closing)
         (modify (set_RoofStatusLP_s IPS_ALERT) ;;
          modify (set_light ROOF_STATUS_MOVING IPS_ALERT))
   else
     if openedState || closedState then
       when (openedState && negb closedState)
         (modify (set_roofOpening false) ;;
          modify (set_light ROOF_STATUS_OPENED IPS_OK) ;;
          modify (set_RoofStatusLP_s IPS_OK)) ;;
       when (closedState && negb openedState)
         (modify (set_roofClosing false) ;;
          modify (set_light ROOF_STATUS_CLOSED IPS_OK) ;;
          modify (set_RoofStatusLP_s IPS_OK))
     else
       opening <- gets roofOpening ;;
       closing <- gets roofClosing ;;
       if opening || closing then
         (if opening then
            modify (set_light ROOF_STATUS_OPENED IPS_BUSY) ;;
            modify (set_light ROOF_STATUS_MOVING IPS_BUSY)
          else
            when closing
              (modify (set_light ROOF_STATUS_CLOSED IPS_BUSY) ;;
               modify (set_light ROOF_STATUS_MOVING IPS_BUSY))) ;;
         modify (set_RoofStatusLP_s IPS_BUSY)
       else
         (* Roof is stationary, neither opened or closed *)
         timedOut <- gets roofTimedOut ;;
         (if timedOut =? EXPIRED_OPEN then
            modify (set_light ROOF_STATUS_OPENED IPS_ALERT)
          else
            when (timedOut =? EXPIRED_CLOSE)
              (modify (set_light ROOF_STATUS_CLOSED IPS_ALERT))) ;;
         modify (set_RoofStatusLP_s IPS_ALERT)) ;;
  dome IDSetLight_RoofStatusLP.

Definition updateRoofStatus : M unit :=
  '(_, openedState) <- getFullOpenedLimitSwitch ;;
  '(_, closedState) <- getFullClosedLimitSwitch ;;
  '(_, lockedState) <- getRoofLockedSwitch ;;
  '(_, auxiliaryState) <- getRoofAuxSwitch ;;
  roofStatusLights openedState closedState lockedState auxiliaryState.

(** *** CalcTimeLeft and TimerHit *)

Definition millis (t : timeval) : Z := tv_sec t * 1000 + Z.quot (tv_usec t) 1000.

Definition CalcTimeLeft (start : timeval) : M Q :=
  now <- call_gettimeofday ;;
  request <- gets MotionRequest ;;
  let timesince := (inject_Z (millis now - millis start) / inject_Z 1000)%Q in
  ret (inject_Z request - timesince)%Q.

(** The part of [TimerHit] that refreshes the status: the simulated limit
    switches, then [updateRoofStatus]. *)
Definition TimerHit_poll (timeleft : Q) : M unit :=
  when (isSimulation fw && Qle_bool (timeleft - inject_Z 5) 0)
    (if isOn (DomeMotionS fw DOME_CW) then
       modify (set_simRoofOpen true) ;; modify (set_simRoofClosed false)
     else
       when (isOn (DomeMotionS fw DOME_CCW))
         (modify (set_simRoofClosed true) ;; modify (set_simRoofOpen false))) ;;
  updateRoofStatus.

Definition TimerHit : M unit :=
  start <- gets MotionStart ;;
  timeleft <- CalcTimeLeft start ;;
  if negb (isConnected fw) then ret tt
  else
    TimerHit_poll timeleft ;;
    delay <-
      (if IPState_eqb (DomeMotionSP_s fw) IPS_BUSY then
         request <- gets MotionRequest ;;
         if request <? 0 then
           (* Abort called stop movement. *)
           LOGF DBG_WARNING "Roof motion is stopped" [] ;;
           dome (setDomeState DOME_IDLE) ;;
           ret INACTIVE_TIMING
         else if isOn (DomeMotionS fw DOME_CW) then
           (* Roll off is opening *)
           opened <- gets fullyOpenedLimitSwitch ;;
           if isOn opened then
             LOGF DBG_DEBUG "Roof is open" [] ;;
             dome (SetParked false) ;;
             ret INACTIVE_TIMING
           else if Qle_bool timeleft 0 then
             LOG_WARN "Time allowed for opening the roof has expired?" ;;
             dome (setDomeState DOME_IDLE) ;;
             modify (set_roofOpening false) ;;
             modify (set_roofTimedOut EXPIRED_OPEN) ;;
             ret INACTIVE_TIMING
           else ret ACTIVE_POLL_MS
         else if isOn (DomeMotionS fw DOME_CCW) then
           (* Roll Off is closing *)
           closed <- gets fullyClosedLimitSwitch ;;
           if isOn closed then
             LOGF DBG_DEBUG "Roof is closed" [] ;;
             dome (SetParked true) ;;
             ret INACTIVE_TIMING
           else if Qle_bool timeleft 0 then
             LOG_WARN "Time allowed for closing the roof has expired?" ;;
             dome (setDomeState DOME_IDLE) ;;
             modify (set_roofClosing false) ;;
             modify (set_roofTimedOut EXPIRED_CLOSE) ;;
             ret INACTIVE_TIMING
           else ret ACTIVE_POLL_MS
         else ret INACTIVE_TIMING
       else ret INACTIVE_TIMING) ;;
    errors <- gets communicationErrors ;;
    when (errors >? MAX_CNTRL_COM_ERR)
      (LOG_ERROR "Too many errors communicating with Arduino" ;;
       LOG_ERROR "Try a fresh connect. Check communication equipment and operation of Arduino controller." ;;
       dome Dome_Disconnect ;;
       initProperties ;;
       modify (set_communicationErrors 0)) ;;
    now <- call_gettimeofday ;;
    modify (set_MotionStart now) ;;
    dome (SetTimer delay).

(** *** Move and Abort *)

(** The first two statements of [Move]; the tests that follow look at the
    state they leave. *)
Definition Move_status : M unit :=
  LOG_DEBUG "Roof received dome motion directive." ;;
  updateRoofStatus.

Definition Move (dir : DomeDirection) (operation : DomeMotionCommand) : M IPState :=
  Move_status ;;
  match operation with
  | MOTION_START =>
      locked <- gets roofLockedSwitch ;;
      if isOn locked then
        LOG_WARN "Roof is externally locked, no movement possible" ;;
        ret IPS_ALERT
      else
        opening <- gets roofOpening ;;
        if opening then
          LOG_DEBUG "Roof is in process of opening, wait for completion." ;;
          ret IPS_OK
        else
          closing <- gets roofClosing ;;
          if closing then
            LOG_DEBUG "Roof is in process of closing, wait for completion." ;;
            ret IPS_OK
          else
            (* [Some r]: the function returns [r] here *)
            returned <-
              match dir with
              | DOME_CW =>
                  opened <- gets fullyOpenedLimitSwitch ;;
                  if isOn opened then
                    LOG_WARN "DOME_CW directive received but roof is already fully opened" ;;
                    dome (SetParked false) ;;
                    ret (Some IPS_ALERT)
                  else
                    ok <- roofOpen ;;
                    if ok then
                      modify (set_roofOpening true) ;;
                      modify (set_roofClosing false) ;;
                      LOG_INFO "Roof is opening..." ;;
                      ret None
                    else
                      LOG_WARN "Failed to operate controller to open roof" ;;
                      ret (Some IPS_ALERT)
              | DOME_CCW =>
                  closed <- gets fullyClosedLimitSwitch ;;
                  if isOn closed then
                    dome (SetParked true) ;;
                    LOG_WARN "DOME_CCW directive received but roof is already fully closed" ;;
                    ret (Some IPS_ALERT)
                  else if isLocked fw then
                    LOGF DBG_WARNING
                      "Cannot close dome when mount is locking. See: Telescope parkng policy, in options tab"
                      [] ;;
                    ret (Some IPS_ALERT)
                  else
                    ok <- roofClose ;;
                    if ok then
                      modify (set_roofClosing true) ;;
                      modify (set_roofOpening false) ;;
                      LOG_INFO "Roof is closing..." ;;
                      ret None
                    else
                      LOG_WARN "Failed to operate controller to close roof" ;;
                      ret (Some IPS_ALERT)
              end ;;
            match returned with
            | Some r => ret r
            | None =>
                modify (set_roofTimedOut EXPIRED_CLEAR) ;;
                timeout <- gets RoofTimeoutN ;;
                modify (set_MotionRequest timeout) ;;
                LOGF DBG_DEBUG "Roof motion timeout setting: %d" [ArgN timeout] ;;
                now <- call_gettimeofday ;;
                modify (set_MotionStart now) ;;
                dome (SetTimer INACTIVE_TIMING) ;;
                ret IPS_BUSY
            end
  | MOTION_STOP => ret IPS_ALERT
  end.

Definition Abort : M bool :=
  updateRoofStatus ;;
  lockState <- gets (fun s => isOn (roofLockedSwitch s)) ;;
  openState <- gets (fun s => isOn (fullyOpenedLimitSwitch s)) ;;
  closeState <- gets (fun s => isOn (fullyClosedLimitSwitch s)) ;;
  let busy := IPState_eqb (DomeMotionSP_s fw) IPS_BUSY in
  (* If both limit switches are off, then we're neither parked nor unparked. *)
  let finish : M bool :=
    opened <- gets fullyOpenedLimitSwitch ;;
    closed <- gets fullyClosedLimitSwitch ;;
    when (negb (isOn opened) && negb (isOn closed)) (dome ParkSP_reset_idle) ;;
    ret true in
  if lockState then
    LOG_WARN "Roof is externally locked, no action taken on abort request" ;;
    ret true
  else if closeState && negb busy then
    LOG_WARN "Roof appears to be closed and stationary, no action taken on abort request" ;;
    ret true
  else if openState && negb busy then
    LOG_WARN "Roof appears to be open and stationary, no action taken on abort request" ;;
    ret true
  else if negb busy then
    LOG_WARN "Roof appears to be partially open and stationary, no action taken on abort request" ;;
    finish
  else
    (if isOn (DomeMotionS fw DOME_CW) then
       LOG_WARN "Abort roof action requested while the roof was opening. Direction correction may be needed on the next move request."
     else
       when (isOn (DomeMotionS fw DOME_CCW))
         (LOG_WARN "Abort roof action requested while the roof was closing. Direction correction may be needed on the next move request.")) ;;
    modify (set_roofClosing false) ;;
    modify (set_roofOpening false) ;;
    modify (set_MotionRequest (-1)) ;;
    roofAbort ;;
    finish.

End Driver.

(** ** Vocabulary of the statements *)

(** The four sensor reads that open [updateRoofStatus], with the values
    they leave in [openedState], [closedState], [lockedState] and
    [auxiliaryState]. *)
Definition readSensors (pi : Pigpiod) (fw : DomeBase)
  : M (bool * bool * bool * bool) :=
  '(_, openedState) <- getFullOpenedLimitSwitch pi fw ;;
  '(_, closedState) <- getFullClosedLimitSwitch pi fw ;;
  '(_, lockedState) <- getRoofLockedSwitch pi fw ;;
  '(_, auxiliaryState) <- getRoofAuxSwitch pi fw ;;
  ret (openedState, closedState, lockedState, auxiliaryState).

Definition isGpioWrite (e : Event) : bool :=
  match e with EvGpioWrite _ _ _ => true | _ => false end.

(** The pin writes of a trace. *)
Definition writes (t : list Event) : list Event := filter isGpioWrite t.

Definition isSessionCall (e : Event) : bool :=
  match e with EvPigpioStart _ | EvPigpioStop => true | _ => false end.

Definition isLog (lvl : LogLevel) (msg : string) (e : Event) : bool :=
  match e with
  | EvLog l fmt _ => LogLevel_eqb l lvl && String.eqb fmt msg
  | _ => false
  end.

(** How many times a message was logged at a level. *)
Definition logged (lvl : LogLevel) (msg : string) (t : list Event) : nat :=
  List.length (filter (isLog lvl msg) t).

(** The level a pin was last driven to by a write that succeeded. *)
Fixpoint pin_level (t : list Event) (gpio : Z) : option Z :=
  match t with
  | [] => None
  | EvGpioWrite g level r :: t' =>
      if (g =? gpio) && (r =? 0) then Some level else pin_level t' gpio
  | _ :: t' => pin_level t' gpio
  end.

(** The level at which the relay of output definition [i] is off, as
    [gpioPinSet] writes it under "Set relay off". *)
Definition restLevel (d : GpioDefs) (i : nat) : Z :=
  if strcmp0 (if isOn (sw (outActivateWhenS d) i 0) then ActivateWhenS_name 0
              else ActivateWhenS_name 1) "High"
  then 0 else 1.
Definition activeLevel (d : GpioDefs) (i : nat) : Z := 1 - restLevel d i.

(** Events that the sensor getters can add to the trace. *)
Definition sensorWarnings : list string :=
  ["No contact with the roof controller has been established";
   "A usable GPIO pin definition for %s was not found.";
   "GPIO read failed for %s, %d, returned: %s";
   "Unable to obtain from the controller whether or not the roof is opened";
   "Unable to obtain from the controller whether or not the roof is closed";
   "Unable to obtain from the controller whether or not the roof is externally locked";
   "Unable to obtain from the controller whether or not the obs Aux switch is being used"].

Definition sensor_event (e : Event) : bool :=
  match e with
  | EvGpioRead _ _ => true
  | EvLog DBG_WARNING fmt _ => existsb (String.eqb fmt) sensorWarnings
  | _ => false
  end.

(** The state after the sensor getters: new switch states, more trace. *)
Definition sensed (evs : list Event) (o c l a : ISState) (s : RollOffIno)
  : RollOffIno :=
  set_roofAuxiliarySwitch a (set_roofLockedSwitch l
    (set_fullyClosedLimitSwitch c (set_fullyOpenedLimitSwitch o
      (set_trace (evs ++ trace s) s)))).

Definition sensor_step (s s' : RollOffIno) : Prop :=
  exists evs o c l a,
    s' = sensed evs o c l a s /\ forallb sensor_event evs = true.

(** Events that one status derivation can add to the trace. *)
Definition status_event (e : Event) : bool :=
  sensor_event e
  || isLog DBG_WARNING stationaryWarning e
  || isLog DBG_ERROR stationaryError e
  || isLog DBG_WARNING contradictionWarning e
  || match e with EvDome IDSetLight_RoofStatusLP => true | _ => false end.

(** The state after a status derivation: besides what the getters move,
    the message counter, the lights and the two motion flags. *)
Definition derived (evs : list Event) (n : Z) (lights : RoofLights)
  (summary : IPState) (opening closing : bool) (o c l a : ISState)
  (s : RollOffIno) : RollOffIno :=
  set_roofClosing closing (set_roofOpening opening
    (set_RoofStatusLP_s summary (set_RoofStatusL lights
      (set_limitMsg n (sensed evs o c l a s))))).

Definition status_step (s s' : RollOffIno) : Prop :=
  exists evs n lights summary opening closing o c l a,
    s' = derived evs n lights summary opening closing o c l a s
    /\ forallb status_event evs = true
    /\ (opening = true -> roofOpening s = true)
    /\ (closing = true -> roofClosing s = true).

(** [keeps R m]: running [m] from any state leads to a state related to it
    by [R]. *)
Definition keeps {A : Type} (R : RollOffIno -> RollOffIno -> Prop) (m : M A) : Prop :=
  forall s, R s (snd (m s)).

(** The state after a call that only talks to the outside and reads the
    sensors: some trace was added, the switch states may have moved. *)
Definition io_step (s s' : RollOffIno) : Prop :=
  exists evs o c l a, s' = sensed evs o c l a s.

(** The motion flags were at most cleared. *)
Definition cleared (s s' : RollOffIno) : Prop :=
  (roofOpening s' = true -> roofOpening s = true)
  /\ (roofClosing s' = true -> roofClosing s = true).

(** The error counter was left alone or set to zero. *)
Definition counter_kept (s s' : RollOffIno) : Prop :=
  communicationErrors s' = communicationErrors s \/ communicationErrors s' = 0.

(** The property state that [initProperties] fills was left alone. *)
Definition props_kept (s s' : RollOffIno) : Prop :=
  gpioDefs s' = gpioDefs s /\ RoofTimeoutN s' = RoofTimeoutN s
  /\ LockS s' = LockS s /\ AuxS s' = AuxS s.

(** The invariant of the motion flags. *)
Definition exclusive (s : RollOffIno) : Prop :=
  ~ (roofOpening s = true /\ roofClosing s = true).

Definition isSetIdle (e : Event) : bool :=
  match e with EvDome (setDomeState DOME_IDLE) => true | _ => false end.
Definition isDisconnect (e : Event) : bool :=
  match e with EvDome Dome_Disconnect => true | _ => false end.

(** The state in which [TimerHit] looks at the motion: after the clock was
    read and the status refreshed.  [timeleftAt] is the time left that the
    tick works with. *)
Definition timeleftAt (pi : Pigpiod) (s : RollOffIno) : Q :=
  fst (CalcTimeLeft pi (MotionStart s) s).
Definition polled (pi : Pigpiod) (fw : DomeBase) (s : RollOffIno) : RollOffIno :=
  snd (TimerHit_poll pi fw (timeleftAt pi s) (snd (CalcTimeLeft pi (MotionStart s) s))).

(** The limit switch that ends a motion in direction [dir], the flag of
    that motion, and the value recorded when it times out. *)
Definition limitSwitch (dir : DomeDirection) (s : RollOffIno) : ISState :=
  match dir with
  | DOME_CW => fullyOpenedLimitSwitch s
  | DOME_CCW => fullyClosedLimitSwitch s
  end.
Definition motionFlag (dir : DomeDirection) (s : RollOffIno) : bool :=
  match dir with DOME_CW => roofOpening s | DOME_CCW => roofClosing s end.
Definition expired (dir : DomeDirection) : Z :=
  match dir with DOME_CW => EXPIRED_OPEN | DOME_CCW => EXPIRED_CLOSE end.
Definition limitLight (dir : DomeDirection) : RoofStatusIndex :=
  match dir with
  | DOME_CW => ROOF_STATUS_OPENED
  | DOME_CCW => ROOF_STATUS_CLOSED
  end.
(** [TimerHit] takes the motion to be in direction [dir]: it tests
    [DomeMotionS[DOME_CW]] first. *)
Definition motionTowards (fw : DomeBase) (dir : DomeDirection) : Prop :=
  match dir with
  | DOME_CW => DomeMotionS fw DOME_CW = ISS_ON
  | DOME_CCW => DomeMotionS fw DOME_CW = ISS_OFF /\ DomeMotionS fw DOME_CCW = ISS_ON
  end.

(** The definitions whose switch [j] is on, among the first [n]. *)
Definition slotsOf (a : list (list ISState)) (n j : nat) : list nat :=
  filter (fun i => isOn (sw a i j)) (seq 0 n).

(** At most one output definition selects OPEN, at most one CLOSE, at most
    one input definition selects OPENED, at most one CLOSED. *)
Definition uniqueMandatory (d : GpioDefs) : Prop :=
  (List.length (slotsOf (outFunctionS d) MAX_OUT_DEFS 0) <= 1)%nat
  /\ (List.length (slotsOf (outFunctionS d) MAX_OUT_DEFS 1) <= 1)%nat
  /\ (List.length (slotsOf (inpFunctionS d) MAX_INP_DEFS 0) <= 1)%nat
  /\ (List.length (slotsOf (inpFunctionS d) MAX_INP_DEFS 1) <= 1)%nat.

(** One of OPEN, CLOSE, OPENED, CLOSED is selected by no definition. *)
Definition mandatoryMissing (d : GpioDefs) : Prop :=
  slotsOf (outFunctionS d) MAX_OUT_DEFS 0 = []
  \/ slotsOf (outFunctionS d) MAX_OUT_DEFS 1 = []
  \/ slotsOf (inpFunctionS d) MAX_INP_DEFS 0 = []
  \/ slotsOf (inpFunctionS d) MAX_INP_DEFS 1 = [].

(** The lock sensor cannot be read, or reads active, in state [s]. *)
Definition lockBlocks (pi : Pigpiod) (fw : DomeBase) (s : RollOffIno) : Prop :=
  fst (fst (getRoofLockedSwitch pi fw s)) = false
  \/ snd (fst (getRoofLockedSwitch pi fw s)) = true.

(** The value of [required] when the two loops of [gpioPinSet] end. *)
Definition requiredAfterLoops (pi : Pigpiod) (s : RollOffIno) : Z :=
  fst (gpioPinSet_required pi (snd (LOG_DEBUG "Summary of GPIO pins defined: " s))).

(** What one pass of a loop of [gpioPinSet] can add to [required]: one, when
    the switch is on and is the first or second function of its table. *)
Definition selects (names : list string) (a : list (list ISState)) (i j : nat) : Z :=
  if (strcmp0 (nth j names "") (nth 0 names "")
      || strcmp0 (nth j names "") (nth 1 names ""))
     && isOn (sw a i j)
  then 1 else 0.

Definition sumZ (f : nat -> Z) (l : list nat) : Z :=
  fold_right (fun k acc => f k + acc) 0 l.

(** Events other than the configuration error. *)
Definition setup_event (e : Event) : bool :=
  negb (isLog DBG_ERROR configurationError e).

(** The state after the loops of [gpioPinSet]: more trace, none of it the
    configuration error. *)
Definition setup_step (s s' : RollOffIno) : Prop :=
  exists evs, s' = set_trace (evs ++ trace s) s /\ forallb setup_event evs = true.

(** [n] status derivations in a row. *)
Fixpoint statusTicks (pi : Pigpiod) (fw : DomeBase) (n : nat) (s : RollOffIno)
  : RollOffIno :=
  match n with
  | O => s
  | S n' => snd (updateRoofStatus pi fw (statusTicks pi fw n' s))
  end.

(** The condition under which [updateRoofStatus] counts in [limitMsg]:
    neither limit switch reads set and no motion is in progress. *)
Definition stationaryNowhere (pi : Pigpiod) (fw : DomeBase) (s : RollOffIno) : bool :=
  let '(o, c, _, _) := fst (readSensors pi fw s) in
  negb o && negb c && negb (roofOpening s) && negb (roofClosing s).

(** A function is mapped when some definition has its switch on. *)
Definition inputMapped (d : GpioDefs) (roofSwitchId : string) : bool :=
  match inpDefinitionFor roofSwitchId d with Some _ => true | None => false end.
Definition outputMapped (d : GpioDefs) (button : string) : bool :=
  match outDefinitionFor button d with Some _ => true | None => false end.

(** What the in-class initialisers of [rolloffrpi.h] fix at construction;
    the other members start with indeterminate values. *)
Definition constructed (s : RollOffIno) : Prop :=
  MotionRequest s = 0 /\ MotionStart s = mkTimeval 0 0 /\
  contactEstablished s = false /\
  roofOpening s = false /\ roofClosing s = false /\
  fullyOpenedLimitSwitch s = ISS_OFF /\ fullyClosedLimitSwitch s = ISS_OFF /\
  roofLockedSwitch s = ISS_OFF /\ roofAuxiliarySwitch s = ISS_OFF /\
  simRoofOpen s = false /\ simRoofClosed s = true /\
  communicationErrors s = 0 /\ limitMsg s = 0 /\ trace s = [].

(** One call from outside: an entry point of the driver run to completion
    under some readings of the base class, or a client edit of a
    configuration property, which the base class stores in place. *)
Inductive step (pi : Pigpiod) : RollOffIno -> RollOffIno -> Prop :=
  | step_initProperties : forall s,
      step pi s (snd (initProperties s))
  | step_Connect : forall s,
      step pi s (snd (Connect pi s))
  | step_Disconnect : forall s,
      step pi s (snd (Disconnect s))
  | step_TimerHit : forall fw s,
      step pi s (snd (TimerHit pi fw s))
  | step_Move : forall fw dir operation s,
      step pi s (snd (Move pi fw dir operation s))
  | step_Abort : forall fw s,
      step pi s (snd (Abort pi fw s))
  | step_updateRoofStatus : forall fw s,
      step pi s (snd (updateRoofStatus pi fw s))
  | step_setRoofLock : forall fw switchOn s,
      step pi s (snd (updateRoofStatus pi fw (snd (setRoofLock pi fw switchOn s))))
  | step_setRoofAux : forall fw switchOn s,
      step pi s (snd (updateRoofStatus pi fw (snd (setRoofAux pi fw switchOn s))))
  | step_setupConditions : forall opened closed s,
      (* without contact, [setupConditions] takes the limit switch states
         from the park data of the base class *)
      step pi s (set_fullyClosedLimitSwitch closed
                  (set_fullyOpenedLimitSwitch opened s))
  | step_configure : forall d timeout lockS auxS s,
      step pi s (set_AuxS auxS (set_LockS lockS
                  (set_RoofTimeoutN timeout (set_gpioDefs d s)))).

Inductive reachable (pi : Pigpiod) : RollOffIno -> Prop :=
  | reachable_constructed : forall s, constructed s -> reachable pi s
  | reachable_step : forall s s',
      reachable pi s -> step pi s s' -> reachable pi s'.

(** ** Concrete hosts and configurations used in the examples *)

(** A daemon whose calls all succeed except that [gpio_write] returns
    [writeRet]; pin [g] reads [levels g]; the clock shows [now]. *)
Definition host (levels : Z -> Z) (writeRet : Z) (now : timeval) : Pigpiod :=
  mkPigpiod (fun _ => now) (fun _ => 0) (fun _ _ _ => 0) (fun _ _ _ => 0)
    (fun _ g => levels g) (fun _ _ _ => writeRet).

(** A row of [n] switches with only switch [k] on. *)
Definition only (n k : nat) : list ISState :=
  map (fun j => if Nat.eqb j k then ISS_ON else ISS_OFF) (seq 0 n).
Definition noneOf (n : nat) : list ISState := repeat ISS_OFF n.

(** OPEN on pin 17, CLOSE on pin 18, LOCK on pin 22, all active high and
    pulsed 0.5s, 0.5s and 0.1s; OPENED on pin 5, CLOSED on pin 6, LOCKED on
    pin 13, all active high.  ABORT, AUXSET and AUXSTATE are not mapped. *)
Definition exampleDefs : GpioDefs :=
  mkGpioDefs
    [only 6 0; only 6 1; only 6 3; only 6 5; only 6 5]
    [17; 18; 22; 0; 0]
    [only 2 0; only 2 0; only 2 0; noneOf 2; noneOf 2]
    [only 5 2; only 5 2; only 5 0; noneOf 5; noneOf 5]
    [only 5 0; only 5 1; only 5 2; only 5 4]
    [5; 6; 13; 0]
    [only 2 0; only 2 0; only 2 0; noneOf 2].

(** OPEN in two output definitions and OPENED in two input definitions;
    CLOSE and CLOSED are not mapped. *)
Definition duplicateDefs : GpioDefs :=
  mkGpioDefs
    [only 6 0; only 6 0; only 6 5; only 6 5; only 6 5]
    [17; 18; 0; 0; 0]
    [only 2 0; only 2 0; noneOf 2; noneOf 2; noneOf 2]
    [only 5 2; only 5 2; noneOf 5; noneOf 5; noneOf 5]
    [only 5 0; only 5 0; only 5 4; only 5 4]
    [5; 6; 0; 0]
    [only 2 0; only 2 0; noneOf 2; noneOf 2].

Definition idleLights : RoofLights :=
  mkRoofLights IPS_IDLE IPS_IDLE IPS_IDLE IPS_IDLE IPS_IDLE.

(** The driver as constructed, before [Connect]. *)
Definition newDriver : RollOffIno :=
  mkRollOffIno 0 (mkTimeval 0 0) false false false idleLights IPS_IDLE
    [ISS_OFF; ISS_ON] [ISS_OFF; ISS_ON] ISS_OFF ISS_OFF ISS_OFF ISS_OFF
    15 EXPIRED_CLEAR false true 0 0 initialGpioDefs 0 [].

(** A connected driver with the given definitions and motion flags. *)
Definition connectedDriver (d : GpioDefs) (opening closing : bool) : RollOffIno :=
  set_roofClosing closing (set_roofOpening opening
    (set_contactEstablished true (set_gpioDefs d newDriver))).

(** The base class: connected, not simulated, with the given motion
    property. *)
Definition baseClass (motion : IPState) (cw ccw : ISState) : DomeBase :=
  mkDomeBase true false motion cw ccw false.

(** Pin readings: the listed pins read 1, every other pin reads 0. *)
Definition high (pins : list Z) (g : Z) : Z :=
  if existsb (Z.eqb g) pins then 1 else 0.

(** ** Vocabulary of the further properties *)

(** Calls on the GPIO pins. *)
Definition isGpio (e : Event) : bool :=
  match e with
  | EvGpioRead _ _ | EvGpioWrite _ _ _ | EvSetMode _ _ _ | EvSetPud _ _ _ => true
  | _ => false
  end.

(** What a relay gets to see: the writes and the sleeps between them. *)
Definition isActuation (e : Event) : bool :=
  match e with EvGpioWrite _ _ _ | EvSleep _ => true | _ => false end.

Definition isSetTimer (e : Event) : bool :=
  match e with EvDome (SetTimer _) => true | _ => false end.
Definition isSetParked (e : Event) : bool :=
  match e with EvDome (SetParked _) => true | _ => false end.

(** Definition [i] selects the input function [roofSwitchId], or the output
    function [button]. *)
Definition inputSelected (d : GpioDefs) (roofSwitchId : string) (i : nat) : bool :=
  existsb (fun j =>
    strcmp0 roofSwitchId (inpFunctionS_name j) && isOn (sw (inpFunctionS d) i j))
    (seq 0 MAX_INP_OPS).
Definition outputSelected (d : GpioDefs) (button : string) (i : nat) : bool :=
  existsb (fun j =>
    strcmp0 button (outFunctionS_name j) && isOn (sw (outFunctionS d) i j))
    (seq 0 MAX_OUT_OPS).

(** A log call that is handed a [bool] as it is.  The only one in the driver
    is the read-failed warning of [readRoofSwitch], which hands [roofClosing]
    to a [%s]: what the program does from that call on is undefined. *)
Definition undefinedCall (e : Event) : bool :=
  match e with
  | EvLog _ _ args =>
      existsb (fun a => match a with ArgB _ => true | _ => false end) args
  | _ => false
  end.

(** No such call was made between [s] and [s']. *)
Definition noUndefinedCall (s s' : RollOffIno) : Prop :=
  filter undefinedCall (trace s') = filter undefinedCall (trace s).

(** The value a sensor with the polarity switches [high] and [low] shows
    when its pin reads [level]. *)
Definition sensorValue (high low : bool) (level : Z) : bool :=
  (high && (level =? 1)) || (negb high && low && (level =? 0)).

(** The lock does not stand in the way of an actuation from state [s]:
    the caller ignores it, or it was read and is off. *)
Definition lockPasses (pi : Pigpiod) (fw : DomeBase) (ignoreLock : bool)
  (s : RollOffIno) : Prop :=
  ignoreLock = true \/ fst (getRoofLockedSwitch pi fw s) = (true, false).

(** The state in which [pushRoofButton] starts to look for its definition. *)
Definition afterLock (pi : Pigpiod) (fw : DomeBase) (s : RollOffIno) : RollOffIno :=
  snd (getRoofLockedSwitch pi fw s).

(** The level of the first write for definition [i]. *)
Definition commanded (d : GpioDefs) (i : nat) (switchOn : bool) : Z :=
  if wantHighFor d i switchOn then 1 else 0.

(** The first Active Limit switch of definition [i] that is on. *)
Definition activeLimitOf (d : GpioDefs) (i : nat) : option nat :=
  first_index MAX_OUT_ACTIVE_LIMIT (fun j => isOn (sw (outActiveLimitS d) i j)).


(** [adds P s s']: the trace of [s'] is the trace of [s] with more events
    in front, all of which satisfy [P]. *)
Definition adds (P : Event -> bool) (s s' : RollOffIno) : Prop :=
  exists evs, trace s' = (evs ++ trace s)%list /\ forallb P evs = true.

(** Events that do not reach the hardware: no call on a pin, no sleep that
    holds a relay. *)
Definition offline (e : Event) : bool := negb (isGpio e) && negb (isActuation e).

(** What a call leaves of a driver that has no contact: it still has none,
    and nothing reached the hardware. *)
Definition untouched (s s' : RollOffIno) : Prop :=
  contactEstablished s' = false /\ adds offline s s'.
Definition withoutContact (s s' : RollOffIno) : Prop :=
  contactEstablished s = false -> untouched s s'.

(** [preserves I s s']: if [I] holds of [s], it holds of [s']. *)
Definition preserves (I : RollOffIno -> Prop) (s s' : RollOffIno) : Prop :=
  I s -> I s'.

Definition inContact (s : RollOffIno) : Prop := contactEstablished s = true.

(** The values that [updateRoofStatus] lets the message counter take. *)
Definition limitMsgInRange (s : RollOffIno) : Prop := 0 <= limitMsg s <= 12.

(** Definition [i] has a function other than "Unused" switched on. *)
Definition outputUsed (d : GpioDefs) (i : nat) : bool :=
  existsb (fun j =>
    isOn (sw (outFunctionS d) i j) && negb (strcmp0 (outFunctionS_name j) "Unused"))
    (seq 0 MAX_OUT_OPS).
Definition inputUsed (d : GpioDefs) (i : nat) : bool :=
  existsb (fun j =>
    isOn (sw (inpFunctionS d) i j) && negb (strcmp0 (inpFunctionS_name j) "Unused"))
    (seq 0 MAX_INP_OPS).

(** The pull resistor that [gpioPinSet] selects for input definition [i],
    and the level an open input is pulled to. *)
Definition pullFor (d : GpioDefs) (i : nat) : PiPud :=
  if strcmp0 (if isOn (sw (inpActivateWhenS d) i 0) then ActivateWhenS_name 0
              else ActivateWhenS_name 1) "High"
  then PI_PUD_DOWN else PI_PUD_UP.
Definition pulledLevel (pud : PiPud) : option Z :=
  match pud with
  | PI_PUD_OFF => None
  | PI_PUD_DOWN => Some 0
  | PI_PUD_UP => Some 1
  end.

(** Some used output definition has pin [g] (and [p] holds of it); the same
    for the input definitions. *)
Definition someOutput (d : GpioDefs) (g : Z) (p : nat -> bool) : bool :=
  existsb (fun i => outputUsed d i && (g =? num (outPinNumberN d) i) && p i)
    (seq 0 MAX_OUT_DEFS).
Definition someInput (d : GpioDefs) (g : Z) (p : nat -> bool) : bool :=
  existsb (fun i => inputUsed d i && (g =? num (inpPinNumberN d) i) && p i)
    (seq 0 MAX_INP_DEFS).

(** What [gpioPinSet] may do with definitions [d]: log, put the pin of a
    used output definition in output mode without pull resistor and write
    its rest level, put the pin of a used input definition in input mode
    with the pull resistor of its polarity. *)
Definition pinSetEvent (d : GpioDefs) (e : Event) : bool :=
  match e with
  | EvLog _ _ _ => true
  | EvSetMode g PI_OUTPUT _ => someOutput d g (fun _ => true)
  | EvSetMode g PI_INPUT _ => someInput d g (fun _ => true)
  | EvSetPud g PI_PUD_OFF _ => someOutput d g (fun _ => true)
  | EvSetPud g PI_PUD_DOWN _ =>
      someInput d g (fun i => match pullFor d i with PI_PUD_DOWN => true | _ => false end)
  | EvSetPud g PI_PUD_UP _ =>
      someInput d g (fun i => match pullFor d i with PI_PUD_UP => true | _ => false end)
  | EvGpioWrite g level _ => someOutput d g (fun i => level =? restLevel d i)
  | _ => false
  end.

(** The state after a call that only adds events of [gpioPinSet] to the
    trace of a driver with definitions [d]. *)
Definition pinSet_step (d : GpioDefs) (s s' : RollOffIno) : Prop :=
  gpioDefs s = d ->
  exists evs, s' = set_trace (evs ++ trace s) s
              /\ forallb (pinSetEvent d) evs = true.

Definition isClockRead (e : Event) : bool :=
  match e with EvGettimeofday _ => true | _ => false end.

(** What a tick adds to the trace before it reads the clock for
    [MotionStart]: anything but a request for the next tick. *)
Definition tickInner (e : Event) : bool := negb (isSetTimer e).

(** What the part of a tick up to the status refresh adds to the trace. *)
Definition pollEvent (e : Event) : bool := status_event e || isClockRead e.

(** A tick finds a motion under way that has not been aborted, has not
    reached the limit switch of its direction and has time left. *)
Definition motionContinues (pi : Pigpiod) (fw : DomeBase) (s : RollOffIno) : bool :=
  IPState_eqb (DomeMotionSP_s fw) IPS_BUSY
  && negb (MotionRequest s <? 0)
  && (if isOn (DomeMotionS fw DOME_CW)
      then negb (isOn (fullyOpenedLimitSwitch (polled pi fw s)))
      else isOn (DomeMotionS fw DOME_CCW)
           && negb (isOn (fullyClosedLimitSwitch (polled pi fw s))))
  && negb (Qle_bool (timeleftAt pi s) 0).

(** The state of a tick when it reads the clock for [MotionStart], for a
    connected base class. *)
Definition beforeRearm (pi : Pigpiod) (fw : DomeBase) (s s' : RollOffIno)
  (delay : Z) (mid : RollOffIno) : Prop :=
  let now := gettimeofday pi (trace mid) in
  s' = set_trace (EvDome (SetTimer delay) :: EvGettimeofday now :: trace mid)
         (set_MotionStart now mid).

Definition isParkReset (e : Event) : bool :=
  match e with EvDome ParkSP_reset_idle => true | _ => false end.

(** The state in which [Abort] decides what to do: after its status
    refresh. *)
Definition refreshed (pi : Pigpiod) (fw : DomeBase) (s : RollOffIno) : RollOffIno :=
  snd (updateRoofStatus pi fw s).

Definition isWarning (e : Event) : bool :=
  match e with EvLog DBG_WARNING _ _ => true | _ => false end.

(** The relay call that [Move] makes for a direction. *)
Definition actuate (pi : Pigpiod) (fw : DomeBase) (dir : DomeDirection) : M bool :=
  match dir with
  | DOME_CW => roofOpen pi fw
  | DOME_CCW => roofClose pi fw
  end.

(** The tests of [Move] that come before the relay, on the state [p] that
    its status refresh left. *)
Definition moveAllowed (fw : DomeBase) (dir : DomeDirection)
  (operation : DomeMotionCommand) (p : RollOffIno) : bool :=
  match operation with
  | MOTION_START =>
      negb (isOn (roofLockedSwitch p))
      && negb (roofOpening p) && negb (roofClosing p)
      && negb (isOn (limitSwitch dir p))
      && match dir with DOME_CW => true | DOME_CCW => negb (isLocked fw) end
  | MOTION_STOP => false
  end.

(** [Move] finds the roof at the end of the way it is asked to go. *)
Definition alreadyThere (dir : DomeDirection) (operation : DomeMotionCommand)
  (p : RollOffIno) : bool :=
  match operation with
  | MOTION_START =>
      negb (isOn (roofLockedSwitch p))
      && negb (roofOpening p) && negb (roofClosing p)
      && isOn (limitSwitch dir p)
  | MOTION_STOP => false
  end.

(** Events that tell the base class nothing about timer or parking. *)
Definition noReport (e : Event) : bool := negb (isSetTimer e) && negb (isSetParked e).
(** Events of a status refresh. *)
Definition refreshEvent (e : Event) : bool := noReport e && negb (isActuation e).

(** What a call that is not an accepted move leaves alone. *)
Definition notArmed (s s' : RollOffIno) : Prop :=
  MotionRequest s' = MotionRequest s /\ MotionStart s' = MotionStart s
  /\ roofTimedOut s' = roofTimedOut s
  /\ filter isSetTimer (trace s') = filter isSetTimer (trace s).

Definition isSetLight (e : Event) : bool :=
  match e with EvDome IDSetLight_RoofStatusLP => true | _ => false end.

(** The summary state of the status lights for sensor values [o] (opened),
    [c] (closed), [l] (locked) and the motion flags. *)
Definition summaryFor (o c l opening closing : bool) : IPState :=
  if l then
    if c || o then IPS_OK
    else if opening || closing then IPS_ALERT else IPS_IDLE
  else if o && c then IPS_IDLE
  else if o || c then IPS_OK
  else if opening || closing then IPS_BUSY else IPS_ALERT.

(** What a call leaves of a driver whose GPIO definitions are the initial
    ones: they still are, and nothing reached the hardware. *)
Definition inert (s s' : RollOffIno) : Prop :=
  gpioDefs s' = initialGpioDefs /\ adds offline s s'.
Definition unconfigured (s s' : RollOffIno) : Prop :=
  gpioDefs s = initialGpioDefs -> inert s s'.

(** Whole milliseconds between [MotionStart] and the clock a call of
    [CalcTimeLeft] in state [s] reads. *)
Definition elapsedMillis (pi : Pigpiod) (s : RollOffIno) : Z :=
  millis (gettimeofday pi (trace s)) - millis (MotionStart s).

(** Events of a call that looks but does not touch: no pin is written or
    configured, no relay held, no session opened or closed. *)
Definition readOnly (e : Event) : bool :=
  match e with
  | EvGpioWrite _ _ _ | EvSetMode _ _ _ | EvSetPud _ _ _ | EvSleep _
  | EvPigpioStart _ | EvPigpioStop => false
  | _ => true
  end.

Definition otherWay (dir : DomeDirection) : DomeDirection :=
  match dir with DOME_CW => DOME_CCW | DOME_CCW => DOME_CW end.

(** A call on a pin, without what the daemon answered. *)
Inductive PinCall : Type :=
  | CallSetMode (gpio : Z) (mode : PiMode)
  | CallSetPud (gpio : Z) (pud : PiPud)
  | CallWrite (gpio level : Z)
  | CallRead (gpio : Z).

Definition pinCallOf (e : Event) : list PinCall :=
  match e with
  | EvSetMode g m _ => [CallSetMode g m]
  | EvSetPud g p _ => [CallSetPud g p]
  | EvGpioWrite g level _ => [CallWrite g level]
  | EvGpioRead g _ => [CallRead g]
  | _ => []
  end.

(** The calls on the pins that a piece of trace holds, oldest first. *)
Definition pinCalls (evs : list Event) : list PinCall :=
  rev (flat_map pinCallOf evs).

(** The daemon accepts every request to set a pin's mode or pull resistor. *)
Definition daemonAccepts (pi : Pigpiod) : Prop :=
  (forall t g m, set_mode pi t g m = 0)
  /\ (forall t g p, set_pull_up_down pi t g p = 0).

(** What [gpioPinSet] does for function [j] of output definition [i] and of
    input definition [i] when the daemon accepts its requests, and what it
    adds to [required] there. *)
Definition outputSetup (d : GpioDefs) (i j : nat) : list PinCall :=
  if negb (isOn (sw (outFunctionS d) i j)) || strcmp0 (outFunctionS_name j) "Unused"
  then []
  else
    let gpio := num (outPinNumberN d) i in
    [CallSetMode gpio PI_OUTPUT; CallSetPud gpio PI_PUD_OFF;
     CallWrite gpio (restLevel d i)].
Definition inputSetup (d : GpioDefs) (i j : nat) : list PinCall :=
  if negb (isOn (sw (inpFunctionS d) i j)) || strcmp0 (inpFunctionS_name j) "Unused"
  then []
  else
    let gpio := num (inpPinNumberN d) i in
    [CallSetMode gpio PI_INPUT; CallSetPud gpio (pullFor d i)].
Definition outputCounted (d : GpioDefs) (i j : nat) : Z :=
  if negb (isOn (sw (outFunctionS d) i j)) || strcmp0 (outFunctionS_name j) "Unused"
  then 0
  else if (strcmp0 (outFunctionS_name j) (nth 0 outOps "")
           || strcmp0 (outFunctionS_name j) (nth 1 outOps ""))
          && (num (outPinNumberN d) i >? 2)
       then 1 else 0.
Definition inputCounted (d : GpioDefs) (i j : nat) : Z :=
  if negb (isOn (sw (inpFunctionS d) i j)) || strcmp0 (inpFunctionS_name j) "Unused"
  then 0
  else if (strcmp0 (inpFunctionS_name j) (nth 0 inpOps "")
           || strcmp0 (inpFunctionS_name j) (nth 1 inpOps ""))
          && (num (inpPinNumberN d) i >? 2)
       then 1 else 0.

(** All calls of [gpioPinSet] in the order of its loops, and the value its
    counter ends with, when the daemon accepts its requests. *)
Definition pinSetup (d : GpioDefs) : list PinCall :=
  (flat_map (fun i => flat_map (outputSetup d i) (seq 0 MAX_OUT_OPS))
     (seq 0 MAX_OUT_DEFS)
   ++ flat_map (fun i => flat_map (inputSetup d i) (seq 0 MAX_INP_OPS))
        (seq 0 MAX_INP_DEFS))%list.
Definition requiredCount (d : GpioDefs) : Z :=
  sumZ (fun i => sumZ (outputCounted d i) (seq 0 MAX_OUT_OPS)) (seq 0 MAX_OUT_DEFS)
  + sumZ (fun i => sumZ (inputCounted d i) (seq 0 MAX_INP_OPS)) (seq 0 MAX_INP_DEFS).

(** Each of OPEN, CLOSE, OPENED and CLOSED is selected by a definition
    whose pin number is above 2. *)
Definition mandatoryOnCountedPins (d : GpioDefs) : Prop :=
  (exists i, (i < MAX_OUT_DEFS)%nat /\ isOn (sw (outFunctionS d) i 0) = true
             /\ num (outPinNumberN d) i > 2)
  /\ (exists i, (i < MAX_OUT_DEFS)%nat /\ isOn (sw (outFunctionS d) i 1) = true
                /\ num (outPinNumberN d) i > 2)
  /\ (exists i, (i < MAX_INP_DEFS)%nat /\ isOn (sw (inpFunctionS d) i 0) = true
                /\ num (inpPinNumberN d) i > 2)
  /\ (exists i, (i < MAX_INP_DEFS)%nat /\ isOn (sw (inpFunctionS d) i 1) = true
                /\ num (inpPinNumberN d) i > 2).

(** [m] run from [s] adds events to the trace and changes nothing else; the
    calls on the pins among them are [c]. *)
Definition runs {A : Type} (m : M A) (s : RollOffIno) (c : list PinCall) : Prop :=
  exists evs, snd (m s) = set_trace (evs ++ trace s) s /\ pinCalls evs = c.

(** [n] timer ticks in a row. *)
Definition ticks (pi : Pigpiod) (fw : DomeBase) (n : nat) (s : RollOffIno)
  : RollOffIno :=
  Nat.iter n (fun x => snd (TimerHit pi fw x)) s.

(** A clock that stands at 100 s plus all the delays the driver has asked
    its timer for so far: every tick comes exactly when it was asked for. *)
Definition timerDelay (e : Event) : Z :=
  match e with EvDome (SetTimer ms) => ms | _ => 0 end.
Definition timerClock (t : list Event) : timeval :=
  let ms := fold_right (fun e acc => timerDelay e + acc) 0 t in
  mkTimeval (100 + ms / 1000) ((ms mod 1000) * 1000).

(** A daemon whose calls all succeed, with every pin reading 0, under that
    clock. *)
Definition punctualHost : Pigpiod :=
  mkPigpiod timerClock (fun _ => 0) (fun _ _ _ => 0) (fun _ _ _ => 0)
    (fun _ _ => 0) (fun _ _ _ => 0).

(** The example with definition 4 selecting OPEN a second time, on pin 23:
    every mandatory function is mapped, OPEN twice. *)
Definition doubleOpenDefs : GpioDefs :=
  mkGpioDefs
    [only 6 0; only 6 1; only 6 3; only 6 0; only 6 5]
    [17; 18; 22; 23; 0]
    [only 2 0; only 2 0; only 2 0; only 2 0; noneOf 2]
    [only 5 2; only 5 2; only 5 0; only 5 2; noneOf 5]
    [only 5 0; only 5 1; only 5 2; only 5 4]
    [5; 6; 13; 0]
    [only 2 0; only 2 0; only 2 0; noneOf 2].

(** The example without a definition for CLOSED. *)
Definition noClosedDefs : GpioDefs :=
  mkGpioDefs
    [only 6 0; only 6 1; only 6 3; only 6 5; only 6 5]
    [17; 18; 22; 0; 0]
    [only 2 0; only 2 0; only 2 0; noneOf 2; noneOf 2]
    [only 5 2; only 5 2; only 5 0; noneOf 5; noneOf 5]
    [only 5 0; only 5 4; only 5 2; only 5 4]
    [5; 0; 13; 0]
    [only 2 0; noneOf 2; only 2 0; noneOf 2].
(** ** Basic facts *)

Lemma filter_events_app (P Q : Event -> bool) (evs t : list Event) :
  forallb Q evs = true ->
  (forall e, Q e = true -> P e = false) ->
  filter P (evs ++ t) = filter P t.
Proof.
  intros Hall Hexcl. induction evs as [|e evs IH]; simpl in *.
  - reflexivity.
  - apply andb_prop in Hall. destruct Hall as [He Hevs].
    rewrite (Hexcl e He). apply IH. exact Hevs.
Qed.

Lemma sensor_event_not_write (e : Event) :
  sensor_event e = true -> isGpioWrite e = false.
Proof. destruct e; simpl; congruence. Qed.

(** A log line of the sensor getters is none of the three messages of the
    status derivation. *)
Lemma sensor_event_not_logged (lvl : LogLevel) (msg : string) (e : Event) :
  existsb (String.eqb msg) sensorWarnings = false ->
  sensor_event e = true -> isLog lvl msg e = false.
Proof.
  intros Hmsg He. destruct e as [l fmt args| | | | | | | | |]; simpl in *;
    try reflexivity.
  destruct l; try discriminate.
  destruct (String.eqb_spec fmt msg) as [->|_].
  - rewrite Hmsg in He. discriminate.
  - apply andb_false_r.
Qed.

(** *** The sensor getters only move the four switch members and the trace *)

Lemma sensor_step_refl (s : RollOffIno) : sensor_step s s.
Proof.
  exists [], (fullyOpenedLimitSwitch s), (fullyClosedLimitSwitch s),
    (roofLockedSwitch s), (roofAuxiliarySwitch s).
  destruct s; split; reflexivity.
Qed.

Lemma sensor_step_trans (s1 s2 s3 : RollOffIno) :
  sensor_step s1 s2 -> sensor_step s2 s3 -> sensor_step s1 s3.
Proof.
  intros (e1 & o1 & c1 & l1 & a1 & -> & H1) (e2 & o2 & c2 & l2 & a2 & -> & H2).
  exists (e2 ++ e1)%list, o2, c2, l2, a2. split.
  - destruct s1; unfold sensed; cbn. rewrite app_assoc. reflexivity.
  - rewrite forallb_app, H1, H2. reflexivity.
Qed.

Lemma sensor_step_emit (e : Event) (s : RollOffIno) :
  sensor_event e = true -> sensor_step s (set_trace (e :: trace s) s).
Proof.
  intros He.
  exists [e], (fullyOpenedLimitSwitch s), (fullyClosedLimitSwitch s),
    (roofLockedSwitch s), (roofAuxiliarySwitch s).
  split; [destruct s; reflexivity | simpl; rewrite He; reflexivity].
Qed.

Lemma sensor_step_opened (v : ISState) (s : RollOffIno) :
  sensor_step s (set_fullyOpenedLimitSwitch v s).
Proof.
  exists [], v, (fullyClosedLimitSwitch s), (roofLockedSwitch s),
    (roofAuxiliarySwitch s).
  destruct s; split; reflexivity.
Qed.

Lemma sensor_step_closed (v : ISState) (s : RollOffIno) :
  sensor_step s (set_fullyClosedLimitSwitch v s).
Proof.
  exists [], (fullyOpenedLimitSwitch s), v, (roofLockedSwitch s),
    (roofAuxiliarySwitch s).
  destruct s; split; reflexivity.
Qed.

Lemma sensor_step_locked (v : ISState) (s : RollOffIno) :
  sensor_step s (set_roofLockedSwitch v s).
Proof.
  exists [], (fullyOpenedLimitSwitch s), (fullyClosedLimitSwitch s), v,
    (roofAuxiliarySwitch s).
  destruct s; split; reflexivity.
Qed.

Lemma sensor_step_aux (v : ISState) (s : RollOffIno) :
  sensor_step s (set_roofAuxiliarySwitch v s).
Proof.
  exists [], (fullyOpenedLimitSwitch s), (fullyClosedLimitSwitch s),
    (roofLockedSwitch s), v.
  destruct s; split; reflexivity.
Qed.

Create HintDb sensor.

#[local] Hint Resolve sensor_step_refl sensor_step_emit sensor_step_opened
  sensor_step_closed sensor_step_locked sensor_step_aux : sensor.

(** Unfold the monad and split on every test of the code. *)
Ltac run :=
  unfold LOG_WARN, LOG_ERROR, LOG_INFO, LOG_DEBUG, LOGF, dome, msSleep, emit,
    when, modify, gets, ret, bind; cbn [fst snd].

Ltac split_tests :=
  repeat match goal with
    | |- context [if ?b then _ else _] => destruct b eqn:?
    | |- context [match ?x with Some _ => _ | None => _ end] => destruct x eqn:?
    end; cbn [fst snd].

Lemma readRoofSwitch_step (pi : Pigpiod) (id : string) (s : RollOffIno) :
  sensor_step s (snd (readRoofSwitch pi id s)).
Proof.
  unfold readRoofSwitch, call_gpio_read. run.
  split_tests; run;
    repeat first
      [ apply sensor_step_refl
      | apply sensor_step_emit; reflexivity
      | eapply sensor_step_trans; [| apply sensor_step_emit; reflexivity] ].
Qed.

Lemma getFullOpenedLimitSwitch_step pi fw s :
  sensor_step s (snd (getFullOpenedLimitSwitch pi fw s)).
Proof.
  unfold getFullOpenedLimitSwitch. destruct (isSimulation fw).
  - run. split_tests; run; auto with sensor.
  - run. pose proof (readRoofSwitch_step pi ROOF_OPENED_SWITCH s) as Hr.
    destruct (readRoofSwitch pi ROOF_OPENED_SWITCH s) as [[ok v] s1].
    cbn [snd] in Hr. destruct ok, v; run;
      (eapply sensor_step_trans; [exact Hr | auto with sensor]).
Qed.

Lemma getFullClosedLimitSwitch_step pi fw s :
  sensor_step s (snd (getFullClosedLimitSwitch pi fw s)).
Proof.
  unfold getFullClosedLimitSwitch. destruct (isSimulation fw).
  - run. split_tests; run; auto with sensor.
  - run. pose proof (readRoofSwitch_step pi ROOF_CLOSED_SWITCH s) as Hr.
    destruct (readRoofSwitch pi ROOF_CLOSED_SWITCH s) as [[ok v] s1].
    cbn [snd] in Hr. destruct ok, v; run;
      (eapply sensor_step_trans; [exact Hr | auto with sensor]).
Qed.

Lemma getRoofLockedSwitch_step pi fw s :
  sensor_step s (snd (getRoofLockedSwitch pi fw s)).
Proof.
  unfold getRoofLockedSwitch. destruct (isSimulation fw).
  - run. split_tests; run; auto with sensor.
  - run. pose proof (readRoofSwitch_step pi ROOF_LOCKED_SWITCH s) as Hr.
    destruct (readRoofSwitch pi ROOF_LOCKED_SWITCH s) as [[ok v] s1].
    cbn [snd] in Hr. destruct ok, v; run;
      (eapply sensor_step_trans; [exact Hr | auto with sensor]).
Qed.

Lemma getRoofAuxSwitch_step pi fw s :
  sensor_step s (snd (getRoofAuxSwitch pi fw s)).
Proof.
  unfold getRoofAuxSwitch. destruct (isSimulation fw).
  - run. split_tests; run; auto with sensor.
  - run. pose proof (readRoofSwitch_step pi ROOF_AUX_SWITCH s) as Hr.
    destruct (readRoofSwitch pi ROOF_AUX_SWITCH s) as [[ok v] s1].
    cbn [snd] in Hr. destruct ok, v; run;
      (eapply sensor_step_trans; [exact Hr | auto with sensor]).
Qed.

Lemma readSensors_step pi fw s : sensor_step s (snd (readSensors pi fw s)).
Proof.
  unfold readSensors. run.
  pose proof (getFullOpenedLimitSwitch_step pi fw s) as H1.
  destruct (getFullOpenedLimitSwitch pi fw s) as [[? o] s1]. cbn [snd] in H1.
  pose proof (getFullClosedLimitSwitch_step pi fw s1) as H2.
  destruct (getFullClosedLimitSwitch pi fw s1) as [[? c] s2]. cbn [snd] in H2.
  pose proof (getRoofLockedSwitch_step pi fw s2) as H3.
  destruct (getRoofLockedSwitch pi fw s2) as [[? l] s3]. cbn [snd] in H3.
  pose proof (getRoofAuxSwitch_step pi fw s3) as H4.
  destruct (getRoofAuxSwitch pi fw s3) as [[? a] s4]. cbn [snd] in H4.
  cbn [snd].
  eauto using sensor_step_trans.
Qed.

(** [updateRoofStatus] is the four reads followed by the derivation. *)
Lemma updateRoofStatus_eq pi fw s :
  updateRoofStatus pi fw s =
  (let '(o, c, l, a) := fst (readSensors pi fw s) in
   roofStatusLights o c l a (snd (readSensors pi fw s))).
Proof.
  unfold updateRoofStatus, readSensors, bind, ret.
  destruct (getFullOpenedLimitSwitch pi fw s) as [[? o] s1]. cbv beta iota.
  destruct (getFullClosedLimitSwitch pi fw s1) as [[? c] s2]. cbv beta iota.
  destruct (getRoofLockedSwitch pi fw s2) as [[? l] s3]. cbv beta iota.
  destruct (getRoofAuxSwitch pi fw s3) as [[? a] s4].
  reflexivity.
Qed.

(** *** Relations kept by every statement of a method

    For a reflexive and transitive [R], [keeps R] goes through the monad and
    the loops, so it is enough to look at the assignments and calls. *)

Section Keeps.

Variable R : RollOffIno -> RollOffIno -> Prop.
Hypothesis R_refl : forall s, R s s.
Hypothesis R_trans : forall s1 s2 s3, R s1 s2 -> R s2 s3 -> R s1 s3.

Lemma keeps_ret {A : Type} (a : A) : keeps R (ret a).
Proof. intros s. apply R_refl. Qed.

Lemma keeps_gets {A : Type} (f : RollOffIno -> A) : keeps R (gets f).
Proof. intros s. apply R_refl. Qed.

Lemma keeps_bind {A B : Type} (m : M A) (k : A -> M B) :
  keeps R m -> (forall a, keeps R (k a)) -> keeps R (bind m k).
Proof.
  intros Hm Hk s. unfold bind. specialize (Hm s).
  destruct (m s) as [a s1]. cbn [snd] in Hm.
  eapply R_trans; [exact Hm | apply Hk].
Qed.

Lemma keeps_modify (f : RollOffIno -> RollOffIno) :
  (forall s, R s (f s)) -> keeps R (modify f).
Proof. intros Hf s. apply Hf. Qed.

Lemma keeps_when (b : bool) (m : M unit) : keeps R m -> keeps R (when b m).
Proof. intros Hm. destruct b; [exact Hm | apply keeps_ret]. Qed.

Lemma keeps_for_break {A : Type} (l : list nat) (body : nat -> A -> M (A * bool)) :
  (forall k r, keeps R (body k r)) -> forall r, keeps R (for_break l body r).
Proof.
  intros Hbody. induction l as [|k l IH]; intros r; cbn [for_break].
  - apply keeps_ret.
  - apply keeps_bind; [apply Hbody |].
    intros [r' brk]. destruct brk; [apply keeps_ret | apply IH].
Qed.

Lemma keeps_for_each {A : Type} (l : list nat) (body : nat -> A -> M A) :
  (forall k r, keeps R (body k r)) -> forall r, keeps R (for_each l body r).
Proof.
  intros Hbody. induction l as [|k l IH]; intros r; cbn [for_each].
  - apply keeps_ret.
  - apply keeps_bind; [apply Hbody | intros r'; apply IH].
Qed.

End Keeps.

(** Take a method apart down to its assignments and calls. *)
Ltac keeps_step Hrefl Htrans :=
  first
    [ apply (keeps_ret _ Hrefl)
    | apply (keeps_gets _ Hrefl)
    | apply (keeps_when _ Hrefl)
    | apply (keeps_bind _ Htrans); [| intros ? ]
    | apply (keeps_for_break _ Hrefl Htrans); intros ? ?
    | apply (keeps_for_each _ Hrefl Htrans); intros ? ?
    | match goal with
      | |- keeps _ (if ?b then _ else _) => destruct b
      | |- keeps _ (match ?x with Some _ => _ | None => _ end) => destruct x
      | |- keeps _ (let '(_, _) := ?x in _) => destruct x
      | |- keeps _ (match ?x with DOME_CW => _ | DOME_CCW => _ end) => destruct x
      | |- keeps _ (match ?x with MOTION_START => _ | MOTION_STOP => _ end) =>
          destruct x
      end ].

(** *** One status derivation *)

Lemma status_step_refl (s : RollOffIno) : status_step s s.
Proof.
  exists [], (limitMsg s), (RoofStatusL s), (RoofStatusLP_s s), (roofOpening s),
    (roofClosing s), (fullyOpenedLimitSwitch s), (fullyClosedLimitSwitch s),
    (roofLockedSwitch s), (roofAuxiliarySwitch s).
  destruct s; repeat split; auto.
Qed.

Lemma status_step_trans (s1 s2 s3 : RollOffIno) :
  status_step s1 s2 -> status_step s2 s3 -> status_step s1 s3.
Proof.
  intros (e1 & n1 & L1 & P1 & ro1 & rc1 & o1 & c1 & l1 & a1 & -> & H1 & Ho1 & Hc1)
         (e2 & n2 & L2 & P2 & ro2 & rc2 & o2 & c2 & l2 & a2 & -> & H2 & Ho2 & Hc2).
  exists (e2 ++ e1)%list, n2, L2, P2, ro2, rc2, o2, c2, l2, a2.
  destruct s1; unfold derived, sensed in *; cbn in *.
  rewrite app_assoc, forallb_app, H1, H2. repeat split; auto.
Qed.

Lemma sensor_step_status (s s' : RollOffIno) : sensor_step s s' -> status_step s s'.
Proof.
  intros (evs & o & c & l & a & -> & H).
  exists evs, (limitMsg s), (RoofStatusL s), (RoofStatusLP_s s), (roofOpening s),
    (roofClosing s), o, c, l, a.
  destruct s; unfold derived, sensed; cbn. repeat split; auto.
  clear -H. induction evs as [|e evs IH]; cbn in *; [reflexivity |].
  apply andb_prop in H. destruct H as [He Hevs].
  unfold status_event at 1. rewrite He. cbn. auto.
Qed.

Lemma status_step_emit (e : Event) (s : RollOffIno) :
  status_event e = true -> status_step s (set_trace (e :: trace s) s).
Proof.
  intros He.
  exists [e], (limitMsg s), (RoofStatusL s), (RoofStatusLP_s s), (roofOpening s),
    (roofClosing s), (fullyOpenedLimitSwitch s), (fullyClosedLimitSwitch s),
    (roofLockedSwitch s), (roofAuxiliarySwitch s).
  destruct s; unfold derived, sensed; cbn. rewrite He. repeat split; auto.
Qed.

Lemma status_step_limitMsg (n : Z) (s : RollOffIno) :
  status_step s (set_limitMsg n s).
Proof.
  exists [], n, (RoofStatusL s), (RoofStatusLP_s s), (roofOpening s),
    (roofClosing s), (fullyOpenedLimitSwitch s), (fullyClosedLimitSwitch s),
    (roofLockedSwitch s), (roofAuxiliarySwitch s).
  destruct s; repeat split; auto.
Qed.

Lemma status_step_light (i : RoofStatusIndex) (v : IPState) (s : RollOffIno) :
  status_step s (set_light i v s).
Proof.
  exists [], (limitMsg s), (put_light i v (RoofStatusL s)), (RoofStatusLP_s s),
    (roofOpening s), (roofClosing s), (fullyOpenedLimitSwitch s),
    (fullyClosedLimitSwitch s), (roofLockedSwitch s), (roofAuxiliarySwitch s).
  destruct s; repeat split; auto.
Qed.

Lemma status_step_summary (v : IPState) (s : RollOffIno) :
  status_step s (set_RoofStatusLP_s v s).
Proof.
  exists [], (limitMsg s), (RoofStatusL s), v, (roofOpening s), (roofClosing s),
    (fullyOpenedLimitSwitch s), (fullyClosedLimitSwitch s), (roofLockedSwitch s),
    (roofAuxiliarySwitch s).
  destruct s; repeat split; auto.
Qed.

Lemma status_step_opening (s : RollOffIno) : status_step s (set_roofOpening false s).
Proof.
  exists [], (limitMsg s), (RoofStatusL s), (RoofStatusLP_s s), false,
    (roofClosing s), (fullyOpenedLimitSwitch s), (fullyClosedLimitSwitch s),
    (roofLockedSwitch s), (roofAuxiliarySwitch s).
  destruct s; repeat split; auto; discriminate.
Qed.

Lemma status_step_closing (s : RollOffIno) : status_step s (set_roofClosing false s).
Proof.
  exists [], (limitMsg s), (RoofStatusL s), (RoofStatusLP_s s), (roofOpening s),
    false, (fullyOpenedLimitSwitch s), (fullyClosedLimitSwitch s),
    (roofLockedSwitch s), (roofAuxiliarySwitch s).
  destruct s; repeat split; auto; discriminate.
Qed.

Ltac status_steps :=
  repeat first
    [ keeps_step status_step_refl status_step_trans
    | apply keeps_modify; intros ?;
      first [ apply status_step_limitMsg | apply status_step_light
            | apply status_step_summary | apply status_step_opening
            | apply status_step_closing
            | apply status_step_emit; reflexivity ] ].

Lemma roofStatusLights_step (o c l a : bool) :
  keeps status_step (roofStatusLights o c l a).
Proof.
  unfold roofStatusLights, LOG_WARN, LOG_ERROR, LOGF, dome, emit.
  status_steps.
Qed.

Lemma updateRoofStatus_step pi fw : keeps status_step (updateRoofStatus pi fw).
Proof.
  intros s. rewrite updateRoofStatus_eq.
  pose proof (readSensors_step pi fw s) as Hr.
  destruct (readSensors pi fw s) as [[[[o c] l] a] s1]. cbn [fst snd] in *.
  eapply status_step_trans; [apply sensor_step_status; exact Hr |].
  apply roofStatusLights_step.
Qed.

Lemma status_event_not_write (e : Event) :
  status_event e = true -> isGpioWrite e = false.
Proof. destruct e; intros H; try reflexivity; discriminate H. Qed.

Lemma status_event_not_session (e : Event) :
  status_event e = true -> isSessionCall e = false.
Proof. destruct e; intros H; try reflexivity; discriminate H. Qed.

Lemma status_event_not_setIdle (e : Event) :
  status_event e = true -> isSetIdle e = false.
Proof.
  destruct e as [| | | | | | | | |c]; intros H; try reflexivity.
  destruct c; try reflexivity; discriminate H.
Qed.

Lemma status_event_not_disconnect (e : Event) :
  status_event e = true -> isDisconnect e = false.
Proof.
  destruct e as [| | | | | | | | |c]; intros H; try reflexivity.
  destruct c; try reflexivity; discriminate H.
Qed.

(** What a status derivation leaves alone. *)
Lemma status_step_frame (s s' : RollOffIno) :
  status_step s s' ->
  gpioDefs s' = gpioDefs s /\ contactEstablished s' = contactEstablished s
  /\ communicationErrors s' = communicationErrors s
  /\ roofTimedOut s' = roofTimedOut s /\ MotionRequest s' = MotionRequest s
  /\ MotionStart s' = MotionStart s /\ RoofTimeoutN s' = RoofTimeoutN s
  /\ LockS s' = LockS s /\ AuxS s' = AuxS s
  /\ cleared s s'.
Proof.
  intros (evs & n & L & P & ro & rc & o & c & l & a & -> & _ & Ho & Hc).
  destruct s; cbn. repeat split; auto.
Qed.

Lemma status_step_filter (P : Event -> bool) (s s' : RollOffIno) :
  status_step s s' ->
  (forall e, status_event e = true -> P e = false) ->
  filter P (trace s') = filter P (trace s).
Proof.
  intros (evs & n & L & S & ro & rc & o & c & l & a & -> & Hevs & _) HP.
  destruct s; cbn. eapply filter_events_app; eauto.
Qed.

Lemma status_step_writes (s s' : RollOffIno) :
  status_step s s' -> writes (trace s') = writes (trace s).
Proof.
  intros H. apply (status_step_filter _ _ _ H), status_event_not_write.
Qed.

(** *** Calls that only talk to the outside *)

Lemma io_step_refl (s : RollOffIno) : io_step s s.
Proof.
  exists [], (fullyOpenedLimitSwitch s), (fullyClosedLimitSwitch s),
    (roofLockedSwitch s), (roofAuxiliarySwitch s).
  destruct s; reflexivity.
Qed.

Lemma io_step_trans (s1 s2 s3 : RollOffIno) :
  io_step s1 s2 -> io_step s2 s3 -> io_step s1 s3.
Proof.
  intros (e1 & o1 & c1 & l1 & a1 & ->) (e2 & o2 & c2 & l2 & a2 & ->).
  exists (e2 ++ e1)%list, o2, c2, l2, a2.
  destruct s1; unfold sensed; cbn. rewrite app_assoc. reflexivity.
Qed.

Lemma io_step_emit (e : Event) (s : RollOffIno) :
  io_step s (set_trace (e :: trace s) s).
Proof.
  exists [e], (fullyOpenedLimitSwitch s), (fullyClosedLimitSwitch s),
    (roofLockedSwitch s), (roofAuxiliarySwitch s).
  destruct s; reflexivity.
Qed.

Lemma sensor_step_io (s s' : RollOffIno) : sensor_step s s' -> io_step s s'.
Proof. intros (evs & o & c & l & a & -> & _). exists evs, o, c, l, a. reflexivity. Qed.

Lemma io_step_frame (s s' : RollOffIno) :
  io_step s s' ->
  gpioDefs s' = gpioDefs s /\ contactEstablished s' = contactEstablished s
  /\ communicationErrors s' = communicationErrors s
  /\ roofTimedOut s' = roofTimedOut s /\ MotionRequest s' = MotionRequest s
  /\ roofOpening s' = roofOpening s /\ roofClosing s' = roofClosing s
  /\ limitMsg s' = limitMsg s /\ RoofStatusL s' = RoofStatusL s
  /\ RoofStatusLP_s s' = RoofStatusLP_s s.
Proof. intros (evs & o & c & l & a & ->). destruct s; cbn. repeat split. Qed.

Lemma io_step_props (s s' : RollOffIno) : io_step s s' -> props_kept s s'.
Proof. intros (evs & o & c & l & a & ->). destruct s; cbn. repeat split. Qed.

Lemma status_step_props (s s' : RollOffIno) : status_step s s' -> props_kept s s'.
Proof.
  intros (evs & n & L & P & ro & rc & o & c & l & a & -> & _).
  destruct s; cbn. repeat split.
Qed.

Ltac io_steps :=
  repeat first
    [ keeps_step io_step_refl io_step_trans
    | apply keeps_modify; intros ?; apply io_step_emit
    | intros ?; apply io_step_emit ].

Lemma getRoofLockedSwitch_io pi fw : keeps io_step (getRoofLockedSwitch pi fw).
Proof. intros s. apply sensor_step_io, getRoofLockedSwitch_step. Qed.

Lemma pushRoofButton_io pi fw button switchOn ignoreLock :
  keeps io_step (pushRoofButton pi fw button switchOn ignoreLock).
Proof.
  unfold pushRoofButton, LOG_WARN, LOGF, msSleep, emit.
  repeat first
    [ apply getRoofLockedSwitch_io
    | keeps_step io_step_refl io_step_trans
    | apply keeps_modify; intros ?; apply io_step_emit
    | intros ?; apply io_step_emit ].
Qed.

Lemma gpioPinSet_io pi : keeps io_step (gpioPinSet pi).
Proof.
  unfold gpioPinSet, gpioPinSet_required, gpioPinSet_output, gpioPinSet_input,
    LOG_DEBUG, LOG_ERROR, LOGF, emit.
  io_steps.
Qed.

Lemma bind_eq {A B : Type} (m : M A) (k : A -> M B) (s : RollOffIno) :
  bind m k s = k (fst (m s)) (snd (m s)).
Proof. unfold bind. destruct (m s). reflexivity. Qed.

Lemma sensor_step_writes (s s' : RollOffIno) :
  sensor_step s s' -> writes (trace s') = writes (trace s).
Proof.
  intros (evs & o & c & l & a & -> & H). destruct s; cbn.
  eapply filter_events_app; eauto using sensor_event_not_write.
Qed.

Lemma Move_status_eq pi fw s :
  Move_status pi fw s =
  updateRoofStatus pi fw
    (set_trace (EvLog DBG_DEBUG "Roof received dome motion directive." [] :: trace s) s).
Proof. reflexivity. Qed.

Lemma Move_status_writes pi fw s :
  writes (trace (snd (Move_status pi fw s))) = writes (trace s).
Proof.
  rewrite Move_status_eq.
  rewrite (status_step_writes _ _ (updateRoofStatus_step pi fw _)).
  reflexivity.
Qed.

Lemma Move_status_frame pi fw s :
  gpioDefs (snd (Move_status pi fw s)) = gpioDefs s
  /\ contactEstablished (snd (Move_status pi fw s)) = contactEstablished s
  /\ communicationErrors (snd (Move_status pi fw s)) = communicationErrors s
  /\ cleared s (snd (Move_status pi fw s)).
Proof.
  rewrite Move_status_eq.
  destruct (status_step_frame _ _ (updateRoofStatus_step pi fw
    (set_trace (EvLog DBG_DEBUG "Roof received dome motion directive." [] :: trace s) s)))
    as (H1 & H2 & H3 & _ & _ & _ & _ & _ & _ & H4).
  repeat split; try assumption; apply H4.
Qed.

(** ** C1: the lock interlock *)

Lemma pushRoofButton_locked pi fw button switchOn s :
  lockBlocks pi fw s ->
  fst (pushRoofButton pi fw button switchOn false s) = false
  /\ writes (trace (snd (pushRoofButton pi fw button switchOn false s)))
     = writes (trace s).
Proof.
  unfold lockBlocks, pushRoofButton. intros Hlock. run.
  destruct (contactEstablished s); cbn [negb].
  - pose proof (getRoofLockedSwitch_step pi fw s) as Hstep.
    destruct (getRoofLockedSwitch pi fw s) as [[status roofLocked] s1].
    cbn [fst snd] in *.
    assert ((negb status || roofLocked) && true = true) as ->
      by (destruct Hlock as [-> | ->]; [| destruct status]; reflexivity).
    cbn. split; [reflexivity | apply sensor_step_writes, Hstep].
  - cbn. split; reflexivity.
Qed.

Lemma Move_locked pi fw dir operation s :
  roofLockedSwitch (snd (Move_status pi fw s)) = ISS_ON ->
  fst (Move pi fw dir operation s) = IPS_ALERT
  /\ writes (trace (snd (Move pi fw dir operation s))) = writes (trace s).
Proof.
  intros Hlock. unfold Move. rewrite bind_eq.
  pose proof (Move_status_writes pi fw s) as Hw.
  set (s1 := snd (Move_status pi fw s)) in *. clearbody s1.
  destruct operation; run.
  - rewrite Hlock. cbn. split; [reflexivity | exact Hw].
  - split; [reflexivity | exact Hw].
Qed.

(** C1.  An actuation with [ignoreLock] false (this is how [roofOpen],
    [roofClose] and [roofAbort] call [pushRoofButton]) fails without writing
    to any pin when the lock sensor reads active or cannot be read; and a
    move request that finds the lock switch state on after its status
    refresh is answered [IPS_ALERT], again without any pin write. *)
Theorem lock_interlock pi fw button switchOn dir operation s :
  (lockBlocks pi fw s ->
   fst (pushRoofButton pi fw button switchOn false s) = false
   /\ writes (trace (snd (pushRoofButton pi fw button switchOn false s)))
      = writes (trace s))
  /\ (roofLockedSwitch (snd (Move_status pi fw s)) = ISS_ON ->
      fst (Move pi fw dir operation s) = IPS_ALERT
      /\ writes (trace (snd (Move pi fw dir operation s))) = writes (trace s)).
Proof.
  split; [apply pushRoofButton_locked | apply Move_locked].
Qed.

(** The lock switch on pin 13 reads active: opening is refused both by the
    actuator and by [Move]. *)
Lemma lock_interlock_witness :
  let pi := host (high [13]) 0 (mkTimeval 100 0) in
  let fw := baseClass IPS_IDLE ISS_OFF ISS_OFF in
  let s := connectedDriver exampleDefs false false in
  (lockBlocks pi fw s /\ roofLockedSwitch (snd (Move_status pi fw s)) = ISS_ON)
  /\ (fst (pushRoofButton pi fw ROOF_OPEN_RELAY true false s) = false
      /\ writes (trace (snd (pushRoofButton pi fw ROOF_OPEN_RELAY true false s)))
         = writes (trace s))
  /\ (fst (Move pi fw DOME_CW MOTION_START s) = IPS_ALERT
      /\ writes (trace (snd (Move pi fw DOME_CW MOTION_START s))) = writes (trace s)).
Proof.
  intros pi fw s.
  assert (Hlock : lockBlocks pi fw s) by (right; reflexivity).
  assert (Hsw : roofLockedSwitch (snd (Move_status pi fw s)) = ISS_ON)
    by reflexivity.
  split; [split; assumption |].
  split.
  - exact (proj1 (lock_interlock pi fw ROOF_OPEN_RELAY true DOME_CW MOTION_START s) Hlock).
  - exact (proj2 (lock_interlock pi fw ROOF_OPEN_RELAY true DOME_CW MOTION_START s) Hsw).
Defined.

(** ** C6: a move request during a motion *)

(** C6, as the code has it.  When the status refresh at the start of [Move]
    leaves a motion flag set, a start request writes to no pin and leaves
    both flags as they are; it is answered [IPS_OK] when the lock switch
    state is off, and [IPS_ALERT] when it is on. *)
Theorem move_in_progress pi fw dir s :
  roofOpening (snd (Move_status pi fw s)) = true
  \/ roofClosing (snd (Move_status pi fw s)) = true ->
  writes (trace (snd (Move pi fw dir MOTION_START s))) = writes (trace s)
  /\ roofOpening (snd (Move pi fw dir MOTION_START s))
     = roofOpening (snd (Move_status pi fw s))
  /\ roofClosing (snd (Move pi fw dir MOTION_START s))
     = roofClosing (snd (Move_status pi fw s))
  /\ (roofLockedSwitch (snd (Move_status pi fw s)) = ISS_OFF ->
      fst (Move pi fw dir MOTION_START s) = IPS_OK)
  /\ (roofLockedSwitch (snd (Move_status pi fw s)) = ISS_ON ->
      fst (Move pi fw dir MOTION_START s) = IPS_ALERT).
Proof.
  intros Hmotion. unfold Move. rewrite bind_eq.
  pose proof (Move_status_writes pi fw s) as Hw.
  set (s1 := snd (Move_status pi fw s)) in *. clearbody s1. run.
  destruct (roofLockedSwitch s1); cbn [isOn].
  - destruct (roofOpening s1) eqn:Ho; cbn.
    + rewrite Ho. repeat split; try assumption; try reflexivity; discriminate.
    + destruct Hmotion as [Hc | Hc]; [discriminate |]. rewrite Hc. cbn.
      rewrite Ho, Hc. repeat split; try assumption; try reflexivity; discriminate.
  - cbn. repeat split; try assumption; try reflexivity; discriminate.
Qed.

(** The roof is opening and unlocked: asking again to open is answered
    [IPS_OK] and no relay is pulsed. *)
Lemma move_in_progress_witness :
  let pi := host (high []) 0 (mkTimeval 100 0) in
  let fw := baseClass IPS_BUSY ISS_ON ISS_OFF in
  let s := connectedDriver exampleDefs true false in
  roofOpening (snd (Move_status pi fw s)) = true
  /\ roofLockedSwitch (snd (Move_status pi fw s)) = ISS_OFF
  /\ fst (Move pi fw DOME_CW MOTION_START s) = IPS_OK
  /\ writes (trace (snd (Move pi fw DOME_CW MOTION_START s))) = writes (trace s).
Proof.
  intros pi fw s.
  assert (Ho : roofOpening (snd (Move_status pi fw s)) = true) by reflexivity.
  assert (Hl : roofLockedSwitch (snd (Move_status pi fw s)) = ISS_OFF) by reflexivity.
  destruct (move_in_progress pi fw DOME_CW s (or_introl Ho))
    as (Hw & _ & _ & Hok & _).
  repeat split; auto.
Defined.

(** The roof is opening and the lock switch on pin 13 reads active: the
    request is not accepted as already in progress but refused. *)
Lemma move_in_progress_locked :
  let pi := host (high [13]) 0 (mkTimeval 100 0) in
  let fw := baseClass IPS_BUSY ISS_ON ISS_OFF in
  let s := connectedDriver exampleDefs true false in
  roofOpening s = true
  /\ roofOpening (snd (Move_status pi fw s)) = true
  /\ fst (Move pi fw DOME_CW MOTION_START s) = IPS_ALERT
  /\ fst (Move pi fw DOME_CW MOTION_START s) <> IPS_OK.
Proof.
  cbv zeta. repeat split; try reflexivity. vm_compute. discriminate.
Qed.

(** ** C3: the level a pulse leaves on the pin *)

Lemma sensor_step_gpioDefs (s s' : RollOffIno) :
  sensor_step s s' -> gpioDefs s' = gpioDefs s.
Proof. intros H. apply sensor_step_io, io_step_frame in H. apply H. Qed.

(** After a successful pulsed actuation the pin is at the rest level when
    the relay was switched on, and at the active level when it was switched
    off: the second write is always the opposite of the first. *)
Lemma pulse_final_level pi fw button switchOn ignoreLock s i j :
  outDefinitionFor button (gpioDefs s) = Some i ->
  isOn (sw (outActivateWhenS (gpioDefs s)) i 0) = true
  \/ (isOn (sw (outActivateWhenS (gpioDefs s)) i 0) = false
      /\ isOn (sw (outActivateWhenS (gpioDefs s)) i 1) = true) ->
  first_index MAX_OUT_ACTIVE_LIMIT
    (fun k => isOn (sw (outActiveLimitS (gpioDefs s)) i k)) = Some j ->
  nth j activeLimitMilli 0 > 0 ->
  fst (pushRoofButton pi fw button switchOn ignoreLock s) = true ->
  pin_level (trace (snd (pushRoofButton pi fw button switchOn ignoreLock s)))
    (num (outPinNumberN (gpioDefs s)) i)
  = Some (if switchOn then restLevel (gpioDefs s) i else activeLevel (gpioDefs s) i).
Proof.
  intros Hdef Hpol Hlimit Hpulse. unfold pushRoofButton. run.
  destruct (contactEstablished s); cbn [negb]; [| discriminate].
  pose proof (getRoofLockedSwitch_step pi fw s) as Hstep.
  destruct (getRoofLockedSwitch pi fw s) as [[status roofLocked] s1].
  cbn [snd] in Hstep. apply sensor_step_gpioDefs in Hstep.
  destruct ((negb status || roofLocked) && negb ignoreLock); [discriminate |].
  rewrite Hstep, Hdef, Hlimit.
  assert ((nth j activeLimitMilli 0 =? 0) = false) as -> by lia.
  assert (Hgt : (nth j activeLimitMilli 0 >? 0) = true) by lia.
  cbn [andb negb fst snd]. rewrite Hgt.
  unfold call_gpio_write. cbn [fst snd trace].
  match goal with |- context [negb (?r =? 0)] => destruct (r =? 0) end;
    cbn [negb fst snd]; [| discriminate].
  match goal with |- context [negb (?r =? 0)] => destruct (r =? 0) eqn:Hr end;
    cbn [negb fst snd]; [| discriminate].
  intros _. destruct s1; cbn. rewrite Z.eqb_refl. cbn in Hr. rewrite Hr. cbn.
  unfold wantHighFor, activeLevel, restLevel.
  destruct Hpol as [-> | [-> ->]]; destruct switchOn; reflexivity.
Qed.

(** C3 at the failing input.  LOCK is mapped to pin 22, active high, with a
    pulse of 0.1s; every GPIO call succeeds.  Switching the lock off
    ([setRoofLock(false)]) succeeds, writes 0, sleeps 100ms and then writes
    1: the pin is left at its active level, not at the rest level 0 that
    [gpioPinSet] writes to set this relay off. *)
Theorem pulsed_release_left_active :
  let pi := host (high []) 0 (mkTimeval 100 0) in
  let fw := baseClass IPS_IDLE ISS_OFF ISS_OFF in
  let s := connectedDriver exampleDefs false false in
  let r := setRoofLock pi fw false s in
  fst r = true
  /\ filter (fun e => isGpioWrite e || match e with EvSleep _ => true | _ => false end)
       (trace (snd r))
     = [EvGpioWrite 22 1 0; EvSleep 100; EvGpioWrite 22 0 0]
  /\ restLevel exampleDefs 2 = 0
  /\ pin_level (trace (snd r)) 22 = Some 1
  /\ pin_level (trace (snd r)) 22 <> Some (restLevel exampleDefs 2).
Proof.
  cbv zeta. repeat split; try reflexivity. vm_compute. discriminate.
Qed.

(** ** C4: functions that no definition selects *)

Lemma readRoofSwitch_unmapped_mandatory pi id s :
  id = ROOF_OPENED_SWITCH \/ id = ROOF_CLOSED_SWITCH ->
  inputMapped (gpioDefs s) id = false ->
  fst (readRoofSwitch pi id s) = (false, false).
Proof.
  unfold inputMapped, readRoofSwitch. intros Hid Hmap. run.
  destruct (contactEstablished s); cbn [negb]; [| reflexivity].
  destruct (inpDefinitionFor id (gpioDefs s)); [discriminate |].
  destruct Hid as [-> | ->]; reflexivity.
Qed.

Lemma readRoofSwitch_unmapped_optional pi id s :
  contactEstablished s = true ->
  id = ROOF_LOCKED_SWITCH \/ id = ROOF_AUX_SWITCH ->
  inputMapped (gpioDefs s) id = false ->
  fst (readRoofSwitch pi id s) = (true, false).
Proof.
  unfold inputMapped, readRoofSwitch. intros Hcontact Hid Hmap. run.
  rewrite Hcontact. cbn [negb].
  destruct (inpDefinitionFor id (gpioDefs s)); [discriminate |].
  destruct Hid as [-> | ->]; reflexivity.
Qed.

(** Without a definition for [button], [pushRoofButton] writes nothing,
    whatever the button and the state of the lock. *)
Lemma pushRoofButton_unmapped_writes pi fw button switchOn ignoreLock s :
  outputMapped (gpioDefs s) button = false ->
  writes (trace (snd (pushRoofButton pi fw button switchOn ignoreLock s)))
  = writes (trace s).
Proof.
  unfold outputMapped, pushRoofButton. intros Hmap. run.
  destruct (contactEstablished s); cbn [negb]; [| reflexivity].
  pose proof (getRoofLockedSwitch_step pi fw s) as Hstep.
  destruct (getRoofLockedSwitch pi fw s) as [[status roofLocked] s1].
  cbn [snd] in Hstep.
  pose proof (sensor_step_writes _ _ Hstep) as Hw.
  apply sensor_step_gpioDefs in Hstep.
  destruct ((negb status || roofLocked) && negb ignoreLock); [exact Hw |].
  rewrite Hstep.
  destruct (outDefinitionFor button (gpioDefs s)); [discriminate |].
  destruct (isMoveRelay button); exact Hw.
Qed.

Lemma pushRoofButton_unmapped_optional pi fw button switchOn s :
  contactEstablished s = true ->
  button = ROOF_LOCK_RELAY \/ button = ROOF_AUX_RELAY ->
  outputMapped (gpioDefs s) button = false ->
  fst (pushRoofButton pi fw button switchOn true s) = true.
Proof.
  unfold outputMapped, pushRoofButton. intros Hcontact Hbutton Hmap. run.
  rewrite Hcontact. cbn [negb].
  pose proof (getRoofLockedSwitch_step pi fw s) as Hstep.
  destruct (getRoofLockedSwitch pi fw s) as [[status roofLocked] s1].
  cbn [snd] in Hstep. apply sensor_step_gpioDefs in Hstep.
  cbn [negb]. rewrite andb_false_r, Hstep.
  destruct (outDefinitionFor button (gpioDefs s)); [discriminate |].
  destruct Hbutton as [-> | ->]; reflexivity.
Qed.

Lemma roofAbort_unmapped_writes pi fw s :
  outputMapped (gpioDefs s) ROOF_ABORT_RELAY = false ->
  writes (trace (snd (roofAbort pi fw s))) = writes (trace s).
Proof.
  intros Hmap. unfold roofAbort. destruct (isSimulation fw); [reflexivity |].
  apply pushRoofButton_unmapped_writes, Hmap.
Qed.

Lemma Abort_true pi fw s : fst (Abort pi fw s) = true.
Proof.
  unfold Abort. rewrite bind_eq.
  set (s1 := snd (updateRoofStatus pi fw s)). clearbody s1. run.
  split_tests; try reflexivity;
    match goal with
    | |- context [roofAbort ?p ?f ?x] => destruct (roofAbort p f x)
    end; cbn; split_tests; reflexivity.
Qed.

Lemma Abort_unmapped_writes pi fw s :
  outputMapped (gpioDefs s) ROOF_ABORT_RELAY = false ->
  writes (trace (snd (Abort pi fw s))) = writes (trace s).
Proof.
  intros Hmap. unfold Abort. rewrite bind_eq.
  pose proof (updateRoofStatus_step pi fw s) as Hstep.
  pose proof (status_step_writes _ _ Hstep) as Hw.
  apply status_step_frame in Hstep. destruct Hstep as (Hd & _).
  set (s1 := snd (updateRoofStatus pi fw s)) in *. clearbody s1.
  rewrite <- Hd in Hmap. rewrite <- Hw. clear Hw Hd. run.
  split_tests; try reflexivity;
    match goal with
    | |- context [roofAbort ?p ?f ?x] =>
        pose proof (roofAbort_unmapped_writes p f x Hmap) as Hr;
        destruct (roofAbort p f x) as [r s2]
    end; cbn [fst snd] in *; split_tests; cbn; exact Hr.
Qed.

(** Before contact is established nothing is read and nothing is written. *)
Lemma without_contact pi fw s :
  contactEstablished s = false ->
  (forall id, fst (readRoofSwitch pi id s) = (false, false))
  /\ (forall button switchOn ignoreLock,
        fst (pushRoofButton pi fw button switchOn ignoreLock s) = false
        /\ writes (trace (snd (pushRoofButton pi fw button switchOn ignoreLock s)))
           = writes (trace s)).
Proof.
  intros Hcontact. split.
  - intros id. unfold readRoofSwitch. run. rewrite Hcontact. reflexivity.
  - intros button switchOn ignoreLock. unfold pushRoofButton. run.
    rewrite Hcontact. split; reflexivity.
Qed.

(** C4, as the code has it.  Reading OPENED or CLOSED when no definition
    selects it fails.  Once contact with the controller is established,
    reading LOCKED or AUXSTATE when no definition selects it succeeds with
    the value false, and actuating LOCK or AUXSET (with [ignoreLock], as
    [setRoofLock] and [setRoofAux] do) when no definition selects it
    succeeds without a pin write; before contact is established every
    read and every actuation fails.  [Abort] with no ABORT relay defined
    returns true and writes to no pin. *)
Theorem unmapped_functions pi fw s :
  (forall id, id = ROOF_OPENED_SWITCH \/ id = ROOF_CLOSED_SWITCH ->
     inputMapped (gpioDefs s) id = false ->
     fst (readRoofSwitch pi id s) = (false, false))
  /\ (contactEstablished s = true ->
      forall id, id = ROOF_LOCKED_SWITCH \/ id = ROOF_AUX_SWITCH ->
        inputMapped (gpioDefs s) id = false ->
        fst (readRoofSwitch pi id s) = (true, false))
  /\ (contactEstablished s = true ->
      forall button switchOn,
        button = ROOF_LOCK_RELAY \/ button = ROOF_AUX_RELAY ->
        outputMapped (gpioDefs s) button = false ->
        fst (pushRoofButton pi fw button switchOn true s) = true
        /\ writes (trace (snd (pushRoofButton pi fw button switchOn true s)))
           = writes (trace s))
  /\ (outputMapped (gpioDefs s) ROOF_ABORT_RELAY = false ->
      fst (Abort pi fw s) = true
      /\ writes (trace (snd (Abort pi fw s))) = writes (trace s))
  /\ (contactEstablished s = false ->
      (forall id, fst (readRoofSwitch pi id s) = (false, false))
      /\ (forall button switchOn ignoreLock,
            fst (pushRoofButton pi fw button switchOn ignoreLock s) = false
            /\ writes (trace (snd (pushRoofButton pi fw button switchOn ignoreLock s)))
               = writes (trace s))).
Proof.
  split; [| split; [| split; [| split; [| apply without_contact] ] ] ].
  - intros; apply readRoofSwitch_unmapped_mandatory; assumption.
  - intros; apply readRoofSwitch_unmapped_optional; assumption.
  - intros; split.
    + apply pushRoofButton_unmapped_optional; assumption.
    + apply pushRoofButton_unmapped_writes; assumption.
  - intros; split.
    + apply Abort_true.
    + apply Abort_unmapped_writes; assumption.
Qed.

(** A connected driver in which no function is defined at all, asked to
    abort while the base class shows an opening in progress. *)
Lemma unmapped_functions_witness :
  let pi := host (high []) 0 (mkTimeval 100 0) in
  let fw := baseClass IPS_BUSY ISS_ON ISS_OFF in
  let s := connectedDriver initialGpioDefs true false in
  fst (readRoofSwitch pi ROOF_OPENED_SWITCH s) = (false, false)
  /\ fst (readRoofSwitch pi ROOF_LOCKED_SWITCH s) = (true, false)
  /\ (fst (pushRoofButton pi fw ROOF_LOCK_RELAY true true s) = true
      /\ writes (trace (snd (pushRoofButton pi fw ROOF_LOCK_RELAY true true s)))
         = writes (trace s))
  /\ (fst (Abort pi fw s) = true
      /\ writes (trace (snd (Abort pi fw s))) = writes (trace s)).
Proof.
  intros pi fw s.
  destruct (unmapped_functions pi fw s) as (H1 & H2 & H3 & H4 & _).
  split; [apply H1; [left|]; reflexivity |].
  split; [apply H2; [|left|]; reflexivity |].
  split; [apply H3; [|left|]; reflexivity |].
  apply H4; reflexivity.
Defined.

(** Before [Connect] the lock sensor is not defined either, and yet
    reading it fails. *)
Lemma optional_sensor_without_contact :
  let pi := host (high []) 0 (mkTimeval 100 0) in
  inputMapped (gpioDefs newDriver) ROOF_LOCKED_SWITCH = false
  /\ fst (readRoofSwitch pi ROOF_LOCKED_SWITCH newDriver) = (false, false)
  /\ fst (readRoofSwitch pi ROOF_LOCKED_SWITCH newDriver) <> (true, false).
Proof.
  cbv zeta. repeat split; try reflexivity. vm_compute. discriminate.
Qed.

(** ** C9: contradicting limit switches, and the opened roof *)

Lemma sensor_step_logged (lvl : LogLevel) (msg : string) (s s' : RollOffIno) :
  existsb (String.eqb msg) sensorWarnings = false ->
  sensor_step s s' -> logged lvl msg (trace s') = logged lvl msg (trace s).
Proof.
  intros Hmsg (evs & o & c & l & a & -> & H). destruct s; cbn. unfold logged.
  f_equal. eapply filter_events_app; eauto using sensor_event_not_logged.
Qed.

Lemma roofStatusLights_both (l a : bool) (s : RollOffIno) :
  let s' := snd (roofStatusLights true true l a s) in
  logged DBG_WARNING contradictionWarning (trace s')
  = S (logged DBG_WARNING contradictionWarning (trace s))
  /\ RoofStatusL s'
     = mkRoofLights IPS_IDLE (if l then IPS_OK else IPS_IDLE) IPS_IDLE
         (if l then IPS_ALERT else IPS_IDLE) (if a then IPS_OK else IPS_IDLE)
  /\ RoofStatusLP_s s' = (if l then IPS_OK else IPS_IDLE)
  /\ roofOpening s' = roofOpening s /\ roofClosing s' = roofClosing s.
Proof.
  destruct s. destruct l, a; cbn; repeat split.
Qed.

Lemma roofStatusLights_opened (a : bool) (s : RollOffIno) :
  let s' := snd (roofStatusLights true false false a s) in
  RoofStatusL s'
  = mkRoofLights IPS_OK IPS_IDLE IPS_IDLE IPS_IDLE (if a then IPS_OK else IPS_IDLE)
  /\ RoofStatusLP_s s' = IPS_OK
  /\ roofOpening s' = false
  /\ logged DBG_WARNING contradictionWarning (trace s')
     = logged DBG_WARNING contradictionWarning (trace s).
Proof.
  destruct s. destruct a; cbn; repeat split.
Qed.

(** C9, as the code has it.  When the opened and the closed switch both read
    set, the derivation logs the contradiction warning once, whatever else
    it does.  With the lock set it then lights LOCKED as alert and CLOSED as
    ok (closed is tested before opened) and the summary is ok; with the lock
    not set it lights neither OPENED nor CLOSED nor MOVING, the summary stays
    idle and the motion flags are left as they are.  When only the opened
    switch reads set and the lock is not set, OPENED is ok, the summary is
    ok, no light is in alert and the opening flag is cleared. *)
Theorem contradiction_report pi fw s o c l a :
  fst (readSensors pi fw s) = (o, c, l, a) ->
  let s' := snd (updateRoofStatus pi fw s) in
  (o = true -> c = true ->
   logged DBG_WARNING contradictionWarning (trace s')
   = S (logged DBG_WARNING contradictionWarning (trace s))
   /\ RoofStatusL s'
      = mkRoofLights IPS_IDLE (if l then IPS_OK else IPS_IDLE) IPS_IDLE
          (if l then IPS_ALERT else IPS_IDLE) (if a then IPS_OK else IPS_IDLE)
   /\ RoofStatusLP_s s' = (if l then IPS_OK else IPS_IDLE)
   /\ roofOpening s' = roofOpening s /\ roofClosing s' = roofClosing s)
  /\ (o = true -> c = false -> l = false ->
      RoofStatusL s'
      = mkRoofLights IPS_OK IPS_IDLE IPS_IDLE IPS_IDLE (if a then IPS_OK else IPS_IDLE)
      /\ RoofStatusLP_s s' = IPS_OK
      /\ roofOpening s' = false
      /\ logged DBG_WARNING contradictionWarning (trace s')
         = logged DBG_WARNING contradictionWarning (trace s)).
Proof.
  intros Hread s'. subst s'. rewrite updateRoofStatus_eq, Hread.
  pose proof (readSensors_step pi fw s) as Hstep.
  pose proof (sensor_step_logged DBG_WARNING contradictionWarning _ _ eq_refl Hstep)
    as Hlog.
  apply sensor_step_io, io_step_frame in Hstep.
  destruct Hstep as (_ & _ & _ & _ & _ & Hro & Hrc & _).
  set (s1 := snd (readSensors pi fw s)) in *. clearbody s1.
  split.
  - intros -> ->. rewrite <- Hlog, <- Hro, <- Hrc. apply roofStatusLights_both.
  - intros -> -> ->. rewrite <- Hlog. apply roofStatusLights_opened.
Qed.

(** Pins 5 and 6 (OPENED and CLOSED) both read active, the lock does not. *)
Lemma contradiction_report_witness :
  let pi := host (high [5; 6]) 0 (mkTimeval 100 0) in
  let fw := baseClass IPS_IDLE ISS_OFF ISS_OFF in
  let s := connectedDriver exampleDefs false false in
  fst (readSensors pi fw s) = (true, true, false, false)
  /\ logged DBG_WARNING contradictionWarning (trace (snd (updateRoofStatus pi fw s)))
     = S (logged DBG_WARNING contradictionWarning (trace s)).
Proof.
  intros pi fw s.
  assert (Hread : fst (readSensors pi fw s) = (true, true, false, false))
    by reflexivity.
  split; [exact Hread |].
  apply (proj1 (contradiction_report pi fw s true true false false Hread));
    reflexivity.
Defined.

(** Both limit switches read set and the lock does not: the snapshot shows
    no terminal state at all, neither opened nor closed nor moving. *)
Lemma contradiction_unlocked_reports_nothing :
  let pi := host (high [5; 6]) 0 (mkTimeval 100 0) in
  let fw := baseClass IPS_IDLE ISS_OFF ISS_OFF in
  let s := connectedDriver exampleDefs false false in
  let s' := snd (updateRoofStatus pi fw s) in
  fst (readSensors pi fw s) = (true, true, false, false)
  /\ light s' ROOF_STATUS_OPENED = IPS_IDLE
  /\ light s' ROOF_STATUS_CLOSED = IPS_IDLE
  /\ light s' ROOF_STATUS_MOVING = IPS_IDLE
  /\ RoofStatusLP_s s' = IPS_IDLE
  /\ light s' ROOF_STATUS_OPENED <> IPS_OK
  /\ light s' ROOF_STATUS_CLOSED <> IPS_OK.
Proof.
  cbv zeta. repeat split; try reflexivity; vm_compute; discriminate.
Qed.

(** ** C8: the throttled message of a roof that is nowhere *)

(** One derivation with neither switch set and no motion under way. *)
Lemma roofStatusLights_stationary (l a : bool) (s : RollOffIno) :
  roofOpening s = false -> roofClosing s = false ->
  let s' := snd (roofStatusLights false false l a s) in
  limitMsg s'
  = (if limitMsg s <=? 10 then limitMsg s + 1
     else if limitMsg s =? 11 then limitMsg s + 1 else limitMsg s)
  /\ logged DBG_WARNING stationaryWarning (trace s')
     = (logged DBG_WARNING stationaryWarning (trace s)
        + (if (limitMsg s <=? 10)%Z then 1 else 0))%nat
  /\ logged DBG_ERROR stationaryError (trace s')
     = (logged DBG_ERROR stationaryError (trace s)
        + (if (limitMsg s <=? 10)%Z then 0 else if (limitMsg s =? 11)%Z then 1 else 0))%nat.
Proof.
  destruct s as [mr ms ce ro rc L LP lk ax fo fc rl ra tn rt so sc er lm d id t].
  cbn [roofOpening roofClosing]. intros -> ->.
  unfold roofStatusLights. run. cbn.
  destruct (lm <=? 10); [| destruct (lm =? 11)];
    destruct l, a; cbn;
    repeat match goal with
      | |- context [if ?b then _ else _] => destruct b
      end; cbn; repeat split; auto using Nat.add_0_r, Nat.add_1_r.
Qed.

(** One derivation in any other situation. *)
Lemma roofStatusLights_elsewhere (o c l a : bool) (s : RollOffIno) :
  negb o && negb c && negb (roofOpening s) && negb (roofClosing s) = false ->
  limitMsg (snd (roofStatusLights o c l a s)) = 0.
Proof.
  destruct s as [mr ms ce ro rc L LP lk ax fo fc rl ra tn rt so sc er lm d id t].
  cbn [roofOpening roofClosing]. intros H.
  unfold roofStatusLights. run. cbn. rewrite H.
  destruct o, c, l, a, ro, rc; try discriminate H; cbn;
    repeat match goal with
      | |- context [if ?b then _ else _] => destruct b
      end; reflexivity.
Qed.

Lemma updateRoofStatus_stationary pi fw s :
  stationaryNowhere pi fw s = true ->
  let s' := snd (updateRoofStatus pi fw s) in
  limitMsg s'
  = (if limitMsg s <=? 10 then limitMsg s + 1
     else if limitMsg s =? 11 then limitMsg s + 1 else limitMsg s)
  /\ logged DBG_WARNING stationaryWarning (trace s')
     = (logged DBG_WARNING stationaryWarning (trace s)
        + (if (limitMsg s <=? 10)%Z then 1 else 0))%nat
  /\ logged DBG_ERROR stationaryError (trace s')
     = (logged DBG_ERROR stationaryError (trace s)
        + (if (limitMsg s <=? 10)%Z then 0 else if (limitMsg s =? 11)%Z then 1 else 0))%nat.
Proof.
  unfold stationaryNowhere. intros Hcond. cbv zeta.
  rewrite updateRoofStatus_eq.
  pose proof (readSensors_step pi fw s) as Hstep.
  pose proof (sensor_step_logged DBG_WARNING stationaryWarning _ _ eq_refl Hstep) as Hw.
  pose proof (sensor_step_logged DBG_ERROR stationaryError _ _ eq_refl Hstep) as He.
  apply sensor_step_io, io_step_frame in Hstep.
  destruct Hstep as (_ & _ & _ & _ & _ & Hro & Hrc & Hlm & _).
  destruct (readSensors pi fw s) as [[[[o c] l] a] s1]. cbn [fst snd] in *.
  destruct o, c; try discriminate Hcond. cbn [negb andb] in Hcond.
  apply andb_prop in Hcond. destruct Hcond as [Ho Hc].
  apply negb_true_iff in Ho, Hc.
  rewrite <- Hw, <- He, <- Hlm.
  apply roofStatusLights_stationary; congruence.
Qed.

Lemma updateRoofStatus_elsewhere pi fw s :
  stationaryNowhere pi fw s = false ->
  limitMsg (snd (updateRoofStatus pi fw s)) = 0.
Proof.
  unfold stationaryNowhere. intros Hcond.
  rewrite updateRoofStatus_eq.
  pose proof (readSensors_step pi fw s) as Hstep.
  apply sensor_step_io, io_step_frame in Hstep.
  destruct Hstep as (_ & _ & _ & _ & _ & Hro & Hrc & _).
  destruct (readSensors pi fw s) as [[[[o c] l] a] s1]. cbn [fst snd] in *.
  apply roofStatusLights_elsewhere. rewrite Hro, Hrc. exact Hcond.
Qed.

(** The counter during a run that starts from zero. *)
Lemma statusTicks_limitMsg pi fw s n :
  limitMsg s = 0 ->
  (forall k, (k < n)%nat -> stationaryNowhere pi fw (statusTicks pi fw k s) = true) ->
  limitMsg (statusTicks pi fw n s) = Z.min (Z.of_nat n) 12.
Proof.
  intros H0. induction n as [|n IH]; intros Hrun.
  - exact H0.
  - cbn [statusTicks].
    destruct (updateRoofStatus_stationary pi fw _ (Hrun n (Nat.lt_succ_diag_r n)))
      as (Hlm & _).
    rewrite Hlm, IH by (intros k Hk; apply Hrun; lia).
    destruct (Z.leb_spec (Z.min (Z.of_nat n) 12) 10);
      [| destruct (Z.eqb_spec (Z.min (Z.of_nat n) 12) 11)]; lia.
Qed.

(** C8.  In a run of status derivations that starts with the counter at zero
    and in which, each time, neither limit switch reads set and no motion is
    under way: each of the first 11 derivations logs the warning once and no
    error, the 12th logs the error once and no warning, and every later one
    logs neither.  A derivation in any other situation sets the counter
    back to zero, which is where such a run starts. *)
Theorem stationary_message_throttle pi fw s n :
  limitMsg s = 0 ->
  (forall k, (k < n)%nat -> stationaryNowhere pi fw (statusTicks pi fw k s) = true) ->
  (forall k, (k < n)%nat ->
     logged DBG_WARNING stationaryWarning (trace (statusTicks pi fw (S k) s))
     = (logged DBG_WARNING stationaryWarning (trace (statusTicks pi fw k s))
        + (if (k <? 11)%nat then 1 else 0))%nat
     /\ logged DBG_ERROR stationaryError (trace (statusTicks pi fw (S k) s))
        = (logged DBG_ERROR stationaryError (trace (statusTicks pi fw k s))
           + (if (k =? 11)%nat then 1 else 0))%nat)
  /\ (forall s0, stationaryNowhere pi fw s0 = false ->
        limitMsg (snd (updateRoofStatus pi fw s0)) = 0).
Proof.
  intros H0 Hrun. split; [| intros s0; apply updateRoofStatus_elsewhere].
  intros k Hk. cbn [statusTicks].
  destruct (updateRoofStatus_stationary pi fw _ (Hrun k Hk)) as (_ & Hw & He).
  rewrite Hw, He.
  rewrite (statusTicks_limitMsg pi fw s k H0) by (intros j Hj; apply Hrun; lia).
  destruct (Nat.ltb_spec k 11); destruct (Nat.eqb_spec k 11);
    destruct (Z.leb_spec (Z.min (Z.of_nat k) 12) 10);
    destruct (Z.eqb_spec (Z.min (Z.of_nat k) 12) 11);
    try lia; split; reflexivity.
Qed.

(** Fourteen derivations on a connected driver whose switches all read
    inactive: the 12th one (after 11) logs the error. *)
Lemma stationary_message_throttle_witness :
  let pi := host (high []) 0 (mkTimeval 100 0) in
  let fw := baseClass IPS_IDLE ISS_OFF ISS_OFF in
  let s := connectedDriver exampleDefs false false in
  logged DBG_WARNING stationaryWarning (trace (statusTicks pi fw 12 s))
  = logged DBG_WARNING stationaryWarning (trace (statusTicks pi fw 11 s))
  /\ logged DBG_ERROR stationaryError (trace (statusTicks pi fw 12 s))
     = S (logged DBG_ERROR stationaryError (trace (statusTicks pi fw 11 s))).
Proof.
  intros pi fw s.
  assert (H0 : limitMsg s = 0) by reflexivity.
  assert (Hrun : forall k, (k < 14)%nat ->
            stationaryNowhere pi fw (statusTicks pi fw k s) = true).
  { intros k Hk.
    do 14 (destruct k as [|k]; [vm_compute; reflexivity |]). lia. }
  destruct (proj1 (stationary_message_throttle pi fw s 14 H0 Hrun) 11%nat) as [Hw He];
    [lia |].
  split.
  - rewrite Hw. apply Nat.add_0_r.
  - rewrite He. apply Nat.add_1_r.
Defined.

(** ** The motion flags are only ever cleared outside [Move] *)

Lemma cleared_refl (s : RollOffIno) : cleared s s.
Proof. split; auto. Qed.

Lemma cleared_trans (s1 s2 s3 : RollOffIno) :
  cleared s1 s2 -> cleared s2 s3 -> cleared s1 s3.
Proof. unfold cleared. intuition. Qed.

Lemma io_step_cleared (s s' : RollOffIno) : io_step s s' -> cleared s s'.
Proof.
  intros H. apply io_step_frame in H.
  destruct H as (_ & _ & _ & _ & _ & Hro & Hrc & _).
  split; congruence.
Qed.

Lemma updateRoofStatus_cleared pi fw : keeps cleared (updateRoofStatus pi fw).
Proof. intros s. apply (status_step_frame _ _ (updateRoofStatus_step pi fw s)). Qed.

Lemma pushRoofButton_cleared pi fw button switchOn ignoreLock :
  keeps cleared (pushRoofButton pi fw button switchOn ignoreLock).
Proof. intros s. apply io_step_cleared, pushRoofButton_io. Qed.

Lemma gpioPinSet_cleared pi : keeps cleared (gpioPinSet pi).
Proof. intros s. apply io_step_cleared, gpioPinSet_io. Qed.

(** Leaves: an assignment or an outside call whose effect on the two flags
    is plain from the setters. *)
Ltac cleared_leaf :=
  first
    [ apply updateRoofStatus_cleared
    | apply pushRoofButton_cleared
    | apply gpioPinSet_cleared
    | apply keeps_modify; intros ?; split; cbn; solve [auto | discriminate]
    | intros ?; split; cbn; solve [auto | discriminate] ].

Ltac cleared_steps :=
  repeat first [ cleared_leaf | keeps_step cleared_refl cleared_trans ].

Ltac unfold_calls :=
  unfold LOG_WARN, LOG_ERROR, LOG_INFO, LOG_DEBUG, LOGF, dome, msSleep, emit,
    call_gettimeofday, call_pigpio_start.

Lemma initProperties_cleared : keeps cleared initProperties.
Proof. unfold initProperties. unfold_calls. cleared_steps. Qed.

Lemma TimerHit_cleared pi fw : keeps cleared (TimerHit pi fw).
Proof.
  unfold TimerHit, TimerHit_poll, CalcTimeLeft, initProperties. unfold_calls.
  cleared_steps.
Qed.

Lemma Abort_cleared pi fw : keeps cleared (Abort pi fw).
Proof.
  unfold Abort, roofAbort. unfold_calls. cleared_steps.
Qed.

Lemma Connect_cleared pi : keeps cleared (Connect pi).
Proof. unfold Connect. unfold_calls. cleared_steps. Qed.

(** ** A motion that runs out of time *)

(** The state that [TimerHit] polls from: the clock was read and, under
    simulation, the simulated switches may have been set. *)
Lemma polled_from pi fw s :
  exists s0,
    polled pi fw s = snd (updateRoofStatus pi fw s0)
    /\ MotionRequest s0 = MotionRequest s
    /\ communicationErrors s0 = communicationErrors s
    /\ roofTimedOut s0 = roofTimedOut s
    /\ roofOpening s0 = roofOpening s /\ roofClosing s0 = roofClosing s
    /\ props_kept s s0
    /\ trace s0 = EvGettimeofday (gettimeofday pi (trace s)) :: trace s.
Proof.
  unfold polled, TimerHit_poll, timeleftAt, CalcTimeLeft, call_gettimeofday. run.
  destruct (isSimulation fw && _); cbn [fst snd].
  - destruct (isOn (DomeMotionS fw DOME_CW)); cbn [fst snd];
      [| destruct (isOn (DomeMotionS fw DOME_CCW)); cbn [fst snd] ];
      eexists; (split; [reflexivity |]); repeat split.
  - eexists; (split; [reflexivity |]); repeat split.
Qed.

Lemma polled_frame pi fw s :
  MotionRequest (polled pi fw s) = MotionRequest s
  /\ communicationErrors (polled pi fw s) = communicationErrors s
  /\ roofTimedOut (polled pi fw s) = roofTimedOut s
  /\ cleared s (polled pi fw s)
  /\ props_kept s (polled pi fw s)
  /\ filter isSetIdle (trace (polled pi fw s)) = filter isSetIdle (trace s)
  /\ filter isDisconnect (trace (polled pi fw s)) = filter isDisconnect (trace s)
  /\ filter isSessionCall (trace (polled pi fw s)) = filter isSessionCall (trace s)
  /\ writes (trace (polled pi fw s)) = writes (trace s).
Proof.
  destruct (polled_from pi fw s)
    as (s0 & -> & Hmr & Her & Hto & Hro & Hrc & Hprops & Htr).
  pose proof (updateRoofStatus_step pi fw s0) as Hstep.
  pose proof (status_step_props _ _ Hstep) as Hprops'.
  pose proof (status_step_filter isSetIdle _ _ Hstep status_event_not_setIdle) as H1.
  pose proof (status_step_filter isDisconnect _ _ Hstep status_event_not_disconnect) as H2.
  pose proof (status_step_filter isSessionCall _ _ Hstep status_event_not_session) as H3.
  pose proof (status_step_writes _ _ Hstep) as H4.
  apply status_step_frame in Hstep.
  destruct Hstep as (_ & _ & Her' & Hto' & Hmr' & _ & _ & _ & _ & Hcl).
  rewrite H1, H2, H3, H4, Htr. unfold writes. cbn [filter isSetIdle isDisconnect
    isSessionCall isGpioWrite].
  unfold props_kept in *.
  repeat split; try congruence; try (intuition congruence).
  - intros H. rewrite <- Hro. apply Hcl, H.
  - intros H. rewrite <- Hrc. apply Hcl, H.
Qed.

(** [TimerHit] from the point where the status has been refreshed. *)
Lemma TimerHit_connected pi fw s :
  isConnected fw = true ->
  TimerHit pi fw s =
  (delay <-
     (if IPState_eqb (DomeMotionSP_s fw) IPS_BUSY then
        request <- gets MotionRequest ;;
        if request <? 0 then
          LOGF DBG_WARNING "Roof motion is stopped" [] ;;
          dome (setDomeState DOME_IDLE) ;;
          ret INACTIVE_TIMING
        else if isOn (DomeMotionS fw DOME_CW) then
          opened <- gets fullyOpenedLimitSwitch ;;
          if isOn opened then
            LOGF DBG_DEBUG "Roof is open" [] ;;
            dome (SetParked false) ;;
            ret INACTIVE_TIMING
          else if Qle_bool (timeleftAt pi s) 0 then
            LOG_WARN "Time allowed for opening the roof has expired?" ;;
            dome (setDomeState DOME_IDLE) ;;
            modify (set_roofOpening false) ;;
            modify (set_roofTimedOut EXPIRED_OPEN) ;;
            ret INACTIVE_TIMING
          else ret ACTIVE_POLL_MS
        else if isOn (DomeMotionS fw DOME_CCW) then
          closed <- gets fullyClosedLimitSwitch ;;
          if isOn closed then
            LOGF DBG_DEBUG "Roof is closed" [] ;;
            dome (SetParked true) ;;
            ret INACTIVE_TIMING
          else if Qle_bool (timeleftAt pi s) 0 then
            LOG_WARN "Time allowed for closing the roof has expired?" ;;
            dome (setDomeState DOME_IDLE) ;;
            modify (set_roofClosing false) ;;
            modify (set_roofTimedOut EXPIRED_CLOSE) ;;
            ret INACTIVE_TIMING
          else ret ACTIVE_POLL_MS
        else ret INACTIVE_TIMING
      else ret INACTIVE_TIMING) ;;
   errors <- gets communicationErrors ;;
   when (errors >? MAX_CNTRL_COM_ERR)
     (LOG_ERROR "Too many errors communicating with Arduino" ;;
      LOG_ERROR "Try a fresh connect. Check communication equipment and operation of Arduino controller." ;;
      dome Dome_Disconnect ;;
      initProperties ;;
      modify (set_communicationErrors 0)) ;;
   now <- call_gettimeofday pi ;;
   modify (set_MotionStart now) ;;
   dome (SetTimer delay)) (polled pi fw s).
Proof.
  intros Hconn. unfold TimerHit. rewrite bind_eq. unfold gets at 1 2.
  cbn [fst snd]. rewrite bind_eq. rewrite Hconn. cbn [negb].
  rewrite bind_eq. reflexivity.
Qed.

Lemma roofStatusLights_timeout (a : bool) (dir : DomeDirection) (s : RollOffIno) :
  roofOpening s = false -> roofClosing s = false ->
  roofTimedOut s = expired dir ->
  light (snd (roofStatusLights false false false a s)) (limitLight dir) = IPS_ALERT
  /\ RoofStatusLP_s (snd (roofStatusLights false false false a s)) = IPS_ALERT.
Proof.
  destruct s as [mr ms ce ro rc L LP lk ax fo fc rl ra tn rt so sc er lm d id t].
  cbn [roofOpening roofClosing roofTimedOut]. intros -> -> ->.
  unfold roofStatusLights. run. cbn.
  destruct (lm <=? 10); [| destruct (lm =? 11)];
    destruct a, dir; cbn; split; reflexivity.
Qed.

Lemma updateRoofStatus_timeout pi fw a dir s :
  fst (readSensors pi fw s) = (false, false, false, a) ->
  roofOpening s = false -> roofClosing s = false ->
  roofTimedOut s = expired dir ->
  light (snd (updateRoofStatus pi fw s)) (limitLight dir) = IPS_ALERT
  /\ RoofStatusLP_s (snd (updateRoofStatus pi fw s)) = IPS_ALERT.
Proof.
  intros Hread Hro Hrc Hto. rewrite updateRoofStatus_eq, Hread.
  pose proof (readSensors_step pi fw s) as Hstep.
  apply sensor_step_io, io_step_frame in Hstep.
  destruct Hstep as (_ & _ & _ & Hto' & _ & Hro' & Hrc' & _).
  apply roofStatusLights_timeout; congruence.
Qed.

(** The timeout branch of a tick.  A tick of a connected driver finds the
    base class busy with a motion in direction [dir] that was not aborted,
    the matching motion flag set and the other one not; the limit switch of
    that direction is off after the status refresh and the time left as the
    tick computes it, [timeleftAt pi s], is zero or less.  Then the tick asks
    the base class once for [DOME_IDLE], clears the motion flag and records
    the timeout of that direction.  A later status derivation in which
    neither limit switch nor the lock reads set shows the light of that
    direction and the summary in alert.  [timeleftAt pi s] is counted from
    [MotionStart s], which is the start of the move only at the first tick
    after it: every connected tick ends by setting [MotionStart] to the
    clock. *)
Lemma tick_timeout_branch pi fw dir s :
  isConnected fw = true ->
  DomeMotionSP_s fw = IPS_BUSY ->
  0 <= MotionRequest s ->
  motionTowards fw dir ->
  motionFlag dir s = true ->
  exclusive s ->
  limitSwitch dir (polled pi fw s) = ISS_OFF ->
  (timeleftAt pi s <= 0)%Q ->
  let s1 := snd (TimerHit pi fw s) in
  List.length (filter isSetIdle (trace s1))
  = S (List.length (filter isSetIdle (trace s)))
  /\ roofOpening s1 = false /\ roofClosing s1 = false
  /\ roofTimedOut s1 = expired dir
  /\ forall fw' a,
       fst (readSensors pi fw' s1) = (false, false, false, a) ->
       light (snd (updateRoofStatus pi fw' s1)) (limitLight dir) = IPS_ALERT
       /\ RoofStatusLP_s (snd (updateRoofStatus pi fw' s1)) = IPS_ALERT.
Proof.
  intros Hconn Hbusy Hreq Hdir Hflag Hexcl Hlimit Hleft.
  apply Qle_bool_iff in Hleft.
  destruct (polled_frame pi fw s) as (Hmr & _ & _ & [Hro Hrc] & _ & Hidle & _).
  assert (Hother : roofOpening (polled pi fw s) = false
                   \/ roofClosing (polled pi fw s) = false).
  { destruct (roofOpening (polled pi fw s)) eqn:Ho; [| now left].
    destruct (roofClosing (polled pi fw s)) eqn:Hc; [| now right].
    exfalso. apply Hexcl. split; auto. }
  assert (Hflags : motionFlag dir (polled pi fw s) = true ->
                   match dir with
                   | DOME_CW => roofClosing (polled pi fw s) = false
                   | DOME_CCW => roofOpening (polled pi fw s) = false
                   end).
  { destruct dir; cbn; intros H; destruct Hother; congruence. }
  assert (Hrest : match dir with
                  | DOME_CW => roofClosing (polled pi fw s) = false
                  | DOME_CCW => roofOpening (polled pi fw s) = false
                  end).
  { destruct dir; cbn in *.
    - destruct (roofClosing (polled pi fw s)) eqn:Hc; [| reflexivity].
      exfalso. apply Hexcl. auto.
    - destruct (roofOpening (polled pi fw s)) eqn:Ho; [| reflexivity].
      exfalso. apply Hexcl. auto. }
  clear Hflags Hother.
  cbv zeta. rewrite (TimerHit_connected pi fw s Hconn).
  set (p := polled pi fw s) in *. clearbody p.
  rewrite Hbusy. cbn [IPState_eqb]. unfold initProperties. run.
  rewrite Hmr. assert ((MotionRequest s <? 0) = false) as -> by lia.
  unfold motionTowards, DomeMotionS in *.
  assert (Hnext : forall s1,
            roofOpening s1 = false -> roofClosing s1 = false ->
            roofTimedOut s1 = expired dir ->
            forall fw' a,
              fst (readSensors pi fw' s1) = (false, false, false, a) ->
              light (snd (updateRoofStatus pi fw' s1)) (limitLight dir) = IPS_ALERT
              /\ RoofStatusLP_s (snd (updateRoofStatus pi fw' s1)) = IPS_ALERT).
  { intros s1 H1 H2 H3 fw' a Hread. eapply updateRoofStatus_timeout; eauto. }
  destruct dir; cbn [limitSwitch] in Hlimit.
  - rewrite Hdir. cbn [isOn fst snd]. rewrite Hlimit. cbn [isOn fst snd].
    rewrite Hleft. cbn [fst snd].
    destruct (communicationErrors _ >? MAX_CNTRL_COM_ERR); cbn;
      rewrite Hidle;
      (split; [reflexivity |]; split; [solve [reflexivity | assumption] |];
       split; [solve [reflexivity | assumption] |]; split; [reflexivity |]);
      apply Hnext; cbn; auto.
  - destruct Hdir as [Hcw Hccw]. rewrite Hcw, Hccw. cbn [isOn fst snd].
    rewrite Hlimit. cbn [isOn fst snd]. rewrite Hleft. cbn [fst snd].
    destruct (communicationErrors _ >? MAX_CNTRL_COM_ERR); cbn;
      rewrite Hidle;
      (split; [reflexivity |]; split; [solve [reflexivity | assumption] |];
       split; [solve [reflexivity | assumption] |]; split; [reflexivity |]);
      apply Hnext; cbn; auto.
Qed.

(** An opening with a timeout of 15s; at the tick the clock stands 100s
    after [MotionStart] and no switch reads set. *)
Lemma tick_timeout_branch_example :
  let pi := host (high []) 0 (mkTimeval 100 0) in
  let fw := baseClass IPS_BUSY ISS_ON ISS_OFF in
  let s := set_MotionRequest 15 (connectedDriver exampleDefs true false) in
  let s1 := snd (TimerHit pi fw s) in
  roofOpening s1 = false
  /\ roofTimedOut s1 = EXPIRED_OPEN
  /\ light (snd (updateRoofStatus pi fw s1)) ROOF_STATUS_OPENED = IPS_ALERT.
Proof.
  intros pi fw s s1.
  assert (Hexcl : exclusive s) by (intros [_ H]; discriminate H).
  assert (Hleft : (timeleftAt pi s <= 0)%Q) by (apply Qle_bool_iff; reflexivity).
  assert (Hreq : 0 <= MotionRequest s) by (vm_compute; discriminate).
  destruct (tick_timeout_branch pi fw DOME_CW s eq_refl eq_refl Hreq eq_refl eq_refl
              Hexcl eq_refl Hleft) as (_ & Ho & _ & Hto & Hnext).
  split; [exact Ho |]. split; [exact Hto |].
  apply (Hnext fw false). reflexivity.
Qed.

(** The same opening, but the closed switch on pin 6 still reads set (the
    roof never left): the timeout is recorded, and the next status
    derivation shows CLOSED as ok and no alert. *)
Lemma timeout_hidden_by_closed_switch :
  let pi := host (high [6]) 0 (mkTimeval 100 0) in
  let fw := baseClass IPS_BUSY ISS_ON ISS_OFF in
  let s := set_MotionRequest 15 (connectedDriver exampleDefs true false) in
  let s1 := snd (TimerHit pi fw s) in
  let s2 := snd (updateRoofStatus pi fw s1) in
  (roofOpening s = true
   /\ fullyOpenedLimitSwitch (polled pi fw s) = ISS_OFF
   /\ Qle_bool (timeleftAt pi s) 0 = true)
  /\ (roofOpening s1 = false /\ roofTimedOut s1 = EXPIRED_OPEN)
  /\ RoofStatusL s2 = mkRoofLights IPS_IDLE IPS_OK IPS_IDLE IPS_IDLE IPS_IDLE
  /\ RoofStatusLP_s s2 = IPS_OK
  /\ light s2 ROOF_STATUS_OPENED <> IPS_ALERT.
Proof.
  cbv zeta. repeat split; try reflexivity. vm_compute. discriminate.
Qed.

(** ** C10: the two motion flags exclude each other *)

Lemma cleared_exclusive (s s' : RollOffIno) :
  cleared s s' -> exclusive s -> exclusive s'.
Proof. unfold cleared, exclusive. intuition. Qed.

Lemma roofOpen_io pi fw : keeps io_step (roofOpen pi fw).
Proof.
  unfold roofOpen. destruct (isSimulation fw);
    [intros s; apply io_step_refl | apply pushRoofButton_io].
Qed.

Lemma roofClose_io pi fw : keeps io_step (roofClose pi fw).
Proof.
  unfold roofClose. destruct (isSimulation fw);
    [intros s; apply io_step_refl | apply pushRoofButton_io].
Qed.

(** What [Move] does to the flags: a request answered [IPS_BUSY] has set the
    flag of its direction and cleared the other; any other answer left the
    flags as the status refresh left them. *)
Lemma Move_flags pi fw dir operation s :
  (fst (Move pi fw dir operation s) = IPS_BUSY ->
   roofOpening (snd (Move pi fw dir operation s))
   = match dir with DOME_CW => true | DOME_CCW => false end
   /\ roofClosing (snd (Move pi fw dir operation s))
      = match dir with DOME_CW => false | DOME_CCW => true end)
  /\ (fst (Move pi fw dir operation s) <> IPS_BUSY ->
      cleared s (snd (Move pi fw dir operation s))).
Proof.
  unfold Move. rewrite bind_eq.
  destruct (Move_status_frame pi fw s) as (_ & _ & _ & Hcl).
  set (s1 := snd (Move_status pi fw s)) in *. clearbody s1.
  assert (Hsame : forall s2, roofOpening s2 = roofOpening s1 ->
                             roofClosing s2 = roofClosing s1 -> cleared s s2).
  { intros s2 Ho Hc. destruct Hcl as [H1 H2].
    split; intros H; [apply H1 | apply H2]; congruence. }
  destruct operation; run; [| split; [discriminate | auto] ].
  destruct (isOn (roofLockedSwitch s1)); cbn [fst snd];
    [split; [discriminate | auto] |].
  destruct (roofOpening s1) eqn:Ho; cbn [fst snd];
    [split; [discriminate | intros _; apply Hsame; cbn; auto] |].
  destruct (roofClosing s1) eqn:Hc; cbn [fst snd];
    [split; [discriminate | intros _; apply Hsame; cbn; auto] |].
  destruct dir.
  - destruct (isOn (fullyOpenedLimitSwitch s1)); cbn [fst snd];
      [split; [discriminate | intros _; apply Hsame; cbn; auto] |].
    pose proof (roofOpen_io pi fw s1) as Hio. apply io_step_frame in Hio.
    destruct Hio as (_ & _ & _ & _ & _ & Ho' & Hc' & _).
    destruct (roofOpen pi fw s1) as [ok s2]. cbn [snd] in Ho', Hc'.
    destruct ok; cbn [fst snd].
    + split; [intros _; split; reflexivity | intros H; now elim H].
    + split; [discriminate | intros _; apply Hsame; cbn; congruence].
  - destruct (isOn (fullyClosedLimitSwitch s1)); cbn [fst snd];
      [split; [discriminate | intros _; apply Hsame; cbn; auto] |].
    destruct (isLocked fw); cbn [fst snd];
      [split; [discriminate | intros _; apply Hsame; cbn; auto] |].
    pose proof (roofClose_io pi fw s1) as Hio. apply io_step_frame in Hio.
    destruct Hio as (_ & _ & _ & _ & _ & Ho' & Hc' & _).
    destruct (roofClose pi fw s1) as [ok s2]. cbn [snd] in Ho', Hc'.
    destruct ok; cbn [fst snd].
    + split; [intros _; split; reflexivity | intros H; now elim H].
    + split; [discriminate | intros _; apply Hsame; cbn; congruence].
Qed.

Lemma Move_exclusive pi fw dir operation s :
  exclusive s -> exclusive (snd (Move pi fw dir operation s)).
Proof.
  intros Hexcl. destruct (Move_flags pi fw dir operation s) as [Hbusy Hother].
  destruct (fst (Move pi fw dir operation s)) eqn:Hr;
    try (apply (cleared_exclusive s); [apply Hother; discriminate | exact Hexcl]).
  destruct (Hbusy eq_refl) as [Ho Hc]. intros [Ho' Hc'].
  destruct dir; congruence.
Qed.

Lemma setRoofLock_cleared pi fw switchOn : keeps cleared (setRoofLock pi fw switchOn).
Proof.
  unfold setRoofLock. destruct (isSimulation fw);
    [intros s; apply cleared_refl | apply pushRoofButton_cleared].
Qed.

Lemma setRoofAux_cleared pi fw switchOn : keeps cleared (setRoofAux pi fw switchOn).
Proof.
  unfold setRoofAux. destruct (isSimulation fw);
    [intros s; apply cleared_refl | apply pushRoofButton_cleared].
Qed.

Lemma step_exclusive pi s s' : step pi s s' -> exclusive s -> exclusive s'.
Proof.
  intros Hstep. destruct Hstep.
  - apply cleared_exclusive, initProperties_cleared.
  - apply cleared_exclusive, Connect_cleared.
  - apply cleared_exclusive. split; auto.
  - apply cleared_exclusive, TimerHit_cleared.
  - apply Move_exclusive.
  - apply cleared_exclusive, Abort_cleared.
  - apply cleared_exclusive, updateRoofStatus_cleared.
  - apply cleared_exclusive. eapply cleared_trans;
      [apply setRoofLock_cleared | apply updateRoofStatus_cleared].
  - apply cleared_exclusive. eapply cleared_trans;
      [apply setRoofAux_cleared | apply updateRoofStatus_cleared].
  - apply cleared_exclusive. split; auto.
  - apply cleared_exclusive. split; auto.
Qed.

(** C10.  Both flags are false in the driver as constructed; a move request
    that is accepted ([IPS_BUSY]) leaves the flag of its direction set and
    the other one clear; [Abort], [TimerHit] and [updateRoofStatus] never
    set a flag that was clear; and in every state the driver can reach the
    two flags are not both set. *)
Theorem motion_flags_exclusive :
  (forall s, constructed s -> roofOpening s = false /\ roofClosing s = false)
  /\ (forall pi fw dir operation s,
        fst (Move pi fw dir operation s) = IPS_BUSY ->
        roofOpening (snd (Move pi fw dir operation s))
        = match dir with DOME_CW => true | DOME_CCW => false end
        /\ roofClosing (snd (Move pi fw dir operation s))
           = match dir with DOME_CW => false | DOME_CCW => true end)
  /\ (forall pi fw s,
        cleared s (snd (Abort pi fw s))
        /\ cleared s (snd (TimerHit pi fw s))
        /\ cleared s (snd (updateRoofStatus pi fw s)))
  /\ (forall pi s, reachable pi s -> exclusive s).
Proof.
  split; [| split; [| split]].
  - intros s H. unfold constructed in H. tauto.
  - intros pi fw dir operation s. apply Move_flags.
  - intros pi fw s. split; [apply Abort_cleared |].
    split; [apply TimerHit_cleared | apply updateRoofStatus_cleared].
  - intros pi s Hreach. induction Hreach as [s Hnew | s s' _ IH Hstep].
    + unfold constructed in Hnew. intros [Ho _].
      destruct Hnew as (_ & _ & _ & Ho' & _). congruence.
    + eapply step_exclusive; eauto.
Qed.

(** The driver is constructed, configured with the example definitions,
    connected, and asked to open: it gets there with the opening flag set
    and the closing flag clear. *)
Lemma motion_flags_exclusive_witness :
  let pi := host (high []) 0 (mkTimeval 100 0) in
  let fw := baseClass IPS_IDLE ISS_OFF ISS_OFF in
  let s1 := set_AuxS [ISS_OFF; ISS_ON] (set_LockS [ISS_OFF; ISS_ON]
              (set_RoofTimeoutN 15 (set_gpioDefs exampleDefs newDriver))) in
  let s2 := snd (Connect pi s1) in
  let s3 := snd (Move pi fw DOME_CW MOTION_START s2) in
  exclusive s3 /\ roofOpening s3 = true /\ roofClosing s3 = false.
Proof.
  intros pi fw s1 s2 s3.
  destruct motion_flags_exclusive as (_ & Hmove & _ & Hreach).
  split.
  - apply (Hreach pi). unfold s3, s2, s1.
    eapply reachable_step; [| apply step_Move].
    eapply reachable_step; [| apply step_Connect].
    eapply reachable_step; [| apply step_configure].
    apply reachable_constructed. unfold constructed. repeat split.
  - apply (Hmove pi fw DOME_CW MOTION_START s2). reflexivity.
Defined.

(** ** C2: the counter of communication errors *)

Lemma counter_kept_refl (s : RollOffIno) : counter_kept s s.
Proof. left. reflexivity. Qed.

Lemma counter_kept_trans (s1 s2 s3 : RollOffIno) :
  counter_kept s1 s2 -> counter_kept s2 s3 -> counter_kept s1 s3.
Proof.
  unfold counter_kept.
  intros [H1 | H1] [H2 | H2]; solve [left; congruence | right; congruence].
Qed.

Lemma io_step_counter (s s' : RollOffIno) : io_step s s' -> counter_kept s s'.
Proof. intros H. left. apply (io_step_frame _ _ H). Qed.

Lemma updateRoofStatus_counter pi fw : keeps counter_kept (updateRoofStatus pi fw).
Proof.
  intros s. left. apply (status_step_frame _ _ (updateRoofStatus_step pi fw s)).
Qed.

Lemma pushRoofButton_counter pi fw button switchOn ignoreLock :
  keeps counter_kept (pushRoofButton pi fw button switchOn ignoreLock).
Proof. intros s. apply io_step_counter, pushRoofButton_io. Qed.

Lemma gpioPinSet_counter pi : keeps counter_kept (gpioPinSet pi).
Proof. intros s. apply io_step_counter, gpioPinSet_io. Qed.

Ltac counter_leaf :=
  first
    [ apply updateRoofStatus_counter
    | apply pushRoofButton_counter
    | apply gpioPinSet_counter
    | apply keeps_modify; intros ?; solve [left; reflexivity | right; reflexivity]
    | intros ?; solve [left; reflexivity | right; reflexivity] ].

Ltac counter_steps :=
  repeat first [ counter_leaf | keeps_step counter_kept_refl counter_kept_trans ].

Lemma initProperties_counter : keeps counter_kept initProperties.
Proof. unfold initProperties. unfold_calls. counter_steps. Qed.

Lemma Connect_counter pi : keeps counter_kept (Connect pi).
Proof. unfold Connect. unfold_calls. counter_steps. Qed.

Lemma TimerHit_counter pi fw : keeps counter_kept (TimerHit pi fw).
Proof.
  unfold TimerHit, TimerHit_poll, CalcTimeLeft, initProperties. unfold_calls.
  counter_steps.
Qed.

Lemma Move_counter pi fw dir operation :
  keeps counter_kept (Move pi fw dir operation).
Proof.
  unfold Move, Move_status, roofOpen, roofClose. unfold_calls. counter_steps.
Qed.

Lemma Abort_counter pi fw : keeps counter_kept (Abort pi fw).
Proof. unfold Abort, roofAbort. unfold_calls. counter_steps. Qed.

Lemma setRoofLock_counter pi fw switchOn :
  keeps counter_kept (setRoofLock pi fw switchOn).
Proof. unfold setRoofLock. counter_steps. Qed.

Lemma setRoofAux_counter pi fw switchOn :
  keeps counter_kept (setRoofAux pi fw switchOn).
Proof. unfold setRoofAux. counter_steps. Qed.

Lemma step_counter pi s s' : step pi s s' -> counter_kept s s'.
Proof.
  intros Hstep. destruct Hstep.
  - apply initProperties_counter.
  - apply Connect_counter.
  - left; reflexivity.
  - apply TimerHit_counter.
  - apply Move_counter.
  - apply Abort_counter.
  - apply updateRoofStatus_counter.
  - eapply counter_kept_trans;
      [apply setRoofLock_counter | apply updateRoofStatus_counter].
  - eapply counter_kept_trans;
      [apply setRoofAux_counter | apply updateRoofStatus_counter].
  - left; reflexivity.
  - left; reflexivity.
Qed.

Lemma reachable_counter pi s : reachable pi s -> communicationErrors s = 0.
Proof.
  intros Hreach. induction Hreach as [s Hnew | s s' _ IH Hstep].
  - unfold constructed in Hnew. tauto.
  - destruct (step_counter pi s s' Hstep); congruence.
Qed.

(** A tick that finds the counter above the threshold. *)
Lemma TimerHit_too_many_errors pi fw s :
  isConnected fw = true ->
  communicationErrors s > MAX_CNTRL_COM_ERR ->
  let s' := snd (TimerHit pi fw s) in
  communicationErrors s' = 0
  /\ gpioDefs s' = initialGpioDefs
  /\ RoofTimeoutN s' = 15
  /\ LockS s' = [ISS_OFF; ISS_ON] /\ AuxS s' = [ISS_OFF; ISS_ON]
  /\ RoofStatusL s' = idleLights /\ RoofStatusLP_s s' = IPS_BUSY
  /\ List.length (filter isDisconnect (trace s'))
     = S (List.length (filter isDisconnect (trace s)))
  /\ filter isSessionCall (trace s') = filter isSessionCall (trace s).
Proof.
  intros Hconn Herr. cbv zeta. rewrite (TimerHit_connected pi fw s Hconn).
  destruct (polled_frame pi fw s) as (_ & Her & _ & _ & _ & _ & Hdis & Hses & _).
  set (p := polled pi fw s) in *. clearbody p.
  unfold initProperties. run.
  unfold MAX_CNTRL_COM_ERR in *.
  split_tests;
    try (exfalso;
         match goal with
         | H : (communicationErrors _ >? 10) = false |- _ =>
             cbn in H; rewrite Her, Z.gtb_ltb in H; apply Z.ltb_ge in H; lia
         end);
    cbn; rewrite ?Hdis, ?Hses; repeat split.
Qed.

(** *** Nothing else puts the properties back *)

Lemma props_kept_refl (s : RollOffIno) : props_kept s s.
Proof. repeat split. Qed.

Lemma props_kept_trans (s1 s2 s3 : RollOffIno) :
  props_kept s1 s2 -> props_kept s2 s3 -> props_kept s1 s3.
Proof. unfold props_kept. intuition congruence. Qed.

Lemma updateRoofStatus_props pi fw : keeps props_kept (updateRoofStatus pi fw).
Proof. intros s. apply status_step_props, updateRoofStatus_step. Qed.

Lemma pushRoofButton_props pi fw button switchOn ignoreLock :
  keeps props_kept (pushRoofButton pi fw button switchOn ignoreLock).
Proof. intros s. apply io_step_props, pushRoofButton_io. Qed.

Lemma gpioPinSet_props pi : keeps props_kept (gpioPinSet pi).
Proof. intros s. apply io_step_props, gpioPinSet_io. Qed.

Ltac props_steps :=
  repeat first
    [ apply updateRoofStatus_props
    | apply pushRoofButton_props
    | apply gpioPinSet_props
    | apply keeps_modify; intros ?; solve [repeat split]
    | intros ?; solve [repeat split]
    | keeps_step props_kept_refl props_kept_trans ].

Lemma Move_props pi fw dir operation : keeps props_kept (Move pi fw dir operation).
Proof.
  unfold Move, Move_status, roofOpen, roofClose. unfold_calls. props_steps.
Qed.

Lemma Abort_props pi fw : keeps props_kept (Abort pi fw).
Proof. unfold Abort, roofAbort. unfold_calls. props_steps. Qed.

Lemma Connect_props pi : keeps props_kept (Connect pi).
Proof. unfold Connect. unfold_calls. props_steps. Qed.

(** A tick that finds the counter at or below the threshold. *)
Lemma TimerHit_within_threshold pi fw s :
  communicationErrors s <= MAX_CNTRL_COM_ERR ->
  props_kept s (snd (TimerHit pi fw s)).
Proof.
  intros Herr. destruct (isConnected fw) eqn:Hconn.
  - rewrite (TimerHit_connected pi fw s Hconn).
    destruct (polled_frame pi fw s) as (_ & Her & _ & _ & Hprops & _).
    set (p := polled pi fw s) in *. clearbody p.
    apply (props_kept_trans _ _ _ Hprops).
    unfold initProperties. run. unfold MAX_CNTRL_COM_ERR in *.
    split_tests;
      try (exfalso;
           match goal with
           | H : (communicationErrors _ >? 10) = true |- _ =>
               cbn in H; rewrite Her, Z.gtb_ltb in H; apply Z.ltb_lt in H; lia
           end);
      repeat split.
  - unfold TimerHit, CalcTimeLeft, call_gettimeofday. run. rewrite Hconn.
    repeat split.
Qed.

(** C2, as the code has it.  No pin read and no pin write, failed or not,
    changes the counter of communication errors, and in every state the
    driver can reach the counter is zero.  A tick of a connected driver that
    finds the counter above [MAX_CNTRL_COM_ERR] calls [Disconnect] of the
    base class once, runs [initProperties] again, which puts the lock and
    auxiliary switches, the status lights, the timeout and the GPIO
    definitions back to their initial values, and sets the counter to zero;
    it neither stops nor starts the pigpiod session.  That tick is the only
    operation that puts the properties back: [Move], [Abort], [Connect] and
    a tick with the counter at or below the threshold leave them alone. *)
Theorem communication_errors pi fw s :
  (forall id,
     communicationErrors (snd (readRoofSwitch pi id s)) = communicationErrors s)
  /\ (forall button switchOn ignoreLock,
        communicationErrors (snd (pushRoofButton pi fw button switchOn ignoreLock s))
        = communicationErrors s)
  /\ (reachable pi s -> communicationErrors s = 0)
  /\ (isConnected fw = true ->
      communicationErrors s > MAX_CNTRL_COM_ERR ->
      let s' := snd (TimerHit pi fw s) in
      communicationErrors s' = 0
      /\ gpioDefs s' = initialGpioDefs
      /\ RoofTimeoutN s' = 15
      /\ LockS s' = [ISS_OFF; ISS_ON] /\ AuxS s' = [ISS_OFF; ISS_ON]
      /\ RoofStatusL s' = idleLights /\ RoofStatusLP_s s' = IPS_BUSY
      /\ List.length (filter isDisconnect (trace s'))
         = S (List.length (filter isDisconnect (trace s)))
      /\ filter isSessionCall (trace s') = filter isSessionCall (trace s))
  /\ (communicationErrors s <= MAX_CNTRL_COM_ERR ->
      props_kept s (snd (TimerHit pi fw s)))
  /\ (forall dir operation, props_kept s (snd (Move pi fw dir operation s)))
  /\ props_kept s (snd (Abort pi fw s))
  /\ props_kept s (snd (Connect pi s)).
Proof.
  split; [| split; [| split; [| split; [| split; [| split; [| split] ] ] ] ] ];
    [| | | | apply TimerHit_within_threshold
     | intros dir operation; apply Move_props
     | apply Abort_props | apply Connect_props ].
  - intros id.
    apply (io_step_frame _ _ (sensor_step_io _ _ (readRoofSwitch_step pi id s))).
  - intros button switchOn ignoreLock.
    apply (io_step_frame _ _ (pushRoofButton_io pi fw button switchOn ignoreLock s)).
  - apply reachable_counter.
  - apply TimerHit_too_many_errors.
Qed.

(** A connected driver whose counter stands at 11. *)
Lemma communication_errors_witness :
  let pi := host (high []) 0 (mkTimeval 100 0) in
  let fw := baseClass IPS_IDLE ISS_OFF ISS_OFF in
  let s := set_communicationErrors 11 (connectedDriver exampleDefs false false) in
  communicationErrors s > MAX_CNTRL_COM_ERR
  /\ communicationErrors (snd (TimerHit pi fw s)) = 0
  /\ gpioDefs (snd (TimerHit pi fw s)) = initialGpioDefs.
Proof.
  intros pi fw s.
  assert (Herr : communicationErrors s > MAX_CNTRL_COM_ERR) by reflexivity.
  destruct (communication_errors pi fw s) as (_ & _ & _ & Htick & _).
  destruct (Htick eq_refl Herr) as (H0 & Hd & _).
  repeat split; assumption.
Defined.

(** The write to the OPEN relay fails, and a read of the OPENED switch
    fails: the counter is not incremented by either. *)
Lemma failed_pin_operations_not_counted :
  let fw := baseClass IPS_IDLE ISS_OFF ISS_OFF in
  let s := connectedDriver exampleDefs false false in
  let w := pushRoofButton (host (high []) (-1) (mkTimeval 100 0)) fw
             ROOF_OPEN_RELAY true false s in
  let r := readRoofSwitch (host (fun _ => PI_BAD_GPIO) 0 (mkTimeval 100 0))
             ROOF_OPENED_SWITCH s in
  (fst w = false /\ writes (trace (snd w)) = [EvGpioWrite 17 1 (-1)]
   /\ communicationErrors (snd w) = communicationErrors s
   /\ communicationErrors (snd w) <> communicationErrors s + 1)
  /\ (fst r = (false, false)
      /\ communicationErrors (snd r) = communicationErrors s
      /\ communicationErrors (snd r) <> communicationErrors s + 1).
Proof.
  cbv zeta. repeat split; try reflexivity; vm_compute; discriminate.
Qed.

(** ** What [gpioPinSet] checks *)

Lemma setup_step_refl (s : RollOffIno) : setup_step s s.
Proof. exists []. destruct s; split; reflexivity. Qed.

Lemma setup_step_trans (s1 s2 s3 : RollOffIno) :
  setup_step s1 s2 -> setup_step s2 s3 -> setup_step s1 s3.
Proof.
  intros (e1 & -> & H1) (e2 & -> & H2). exists (e2 ++ e1)%list.
  destruct s1; cbn. rewrite app_assoc, forallb_app, H1, H2. split; reflexivity.
Qed.

Lemma setup_step_emit (e : Event) (s : RollOffIno) :
  setup_event e = true -> setup_step s (set_trace (e :: trace s) s).
Proof.
  intros He. exists [e]. destruct s; cbn. rewrite He. split; reflexivity.
Qed.

Lemma gpioPinSet_required_setup pi : keeps setup_step (gpioPinSet_required pi).
Proof.
  unfold gpioPinSet_required, gpioPinSet_output, gpioPinSet_input,
    call_set_mode, call_set_pull_up_down, call_gpio_write.
  unfold_calls.
  repeat first
    [ keeps_step setup_step_refl setup_step_trans
    | apply keeps_modify; intros ?; apply setup_step_emit; reflexivity
    | intros ?; apply setup_step_emit; reflexivity ].
Qed.

Lemma setup_step_frame (s s' : RollOffIno) :
  setup_step s s' ->
  gpioDefs s' = gpioDefs s /\ contactEstablished s' = contactEstablished s
  /\ logged DBG_ERROR configurationError (trace s')
     = logged DBG_ERROR configurationError (trace s).
Proof.
  intros (evs & -> & H). destruct s; cbn. repeat split.
  unfold logged. f_equal. apply (filter_events_app _ setup_event); [exact H |].
  intros e He. unfold setup_event in He. apply negb_true_iff, He.
Qed.

(** *** Bounds on [required] *)

Lemma sumZ_nonneg (f : nat -> Z) (l : list nat) :
  (forall k, 0 <= f k) -> 0 <= sumZ f l.
Proof.
  intros Hf. unfold sumZ. induction l as [|k l IH]; cbn; [lia | specialize (Hf k); lia].
Qed.

Lemma sumZ_ext (f g : nat -> Z) (l : list nat) :
  (forall k, f k = g k) -> sumZ f l = sumZ g l.
Proof.
  intros H. unfold sumZ.
  induction l as [|k l IH]; cbn; [reflexivity | rewrite H, IH; reflexivity].
Qed.

Lemma sumZ_add (f g : nat -> Z) (l : list nat) :
  sumZ (fun k => f k + g k) l = sumZ f l + sumZ g l.
Proof. unfold sumZ. induction l as [|k l IH]; cbn; [reflexivity | rewrite IH; lia]. Qed.

Lemma sumZ_b2z (p : nat -> bool) (l : list nat) :
  sumZ (fun k => Z.b2z (p k)) l = Z.of_nat (List.length (filter p l)).
Proof.
  induction l as [|k l IH]; cbn [sumZ fold_right filter]; [reflexivity |].
  fold (sumZ (fun k => Z.b2z (p k)) l). rewrite IH.
  destruct (p k); cbn [Z.b2z List.length]; lia.
Qed.

Lemma selects_nonneg names a i j : 0 <= selects names a i j.
Proof. unfold selects. destruct (_ && _); lia. Qed.

Lemma for_break_bound {A : Type} (val : A -> Z) (w : nat -> GpioDefs -> Z)
  (body : nat -> A -> M (A * bool)) :
  (forall k d, 0 <= w k d) ->
  (forall k r s,
     val (fst (fst (body k r s))) <= val r + w k (gpioDefs s)
     /\ gpioDefs (snd (body k r s)) = gpioDefs s) ->
  forall l r s,
    val (fst (for_break l body r s)) <= val r + sumZ (fun k => w k (gpioDefs s)) l
    /\ gpioDefs (snd (for_break l body r s)) = gpioDefs s.
Proof.
  intros Hw Hbody. induction l as [|k l IH]; intros r s; cbn [for_break].
  - cbn. split; [lia | reflexivity].
  - rewrite bind_eq. destruct (Hbody k r s) as [Hval Hdefs].
    destruct (body k r s) as [[r' brk] s1]. cbn [fst snd] in *.
    pose proof (sumZ_nonneg (fun k => w k (gpioDefs s)) l (fun k => Hw k _)).
    cbn [sumZ fold_right]. fold (sumZ (fun k => w k (gpioDefs s)) l).
    destruct brk; cbn [ret fst snd].
    + split; [lia | exact Hdefs].
    + destruct (IH r' s1) as [Hval' Hdefs']. rewrite Hdefs in Hval'.
      split; [lia | congruence].
Qed.

Lemma for_each_bound {A : Type} (val : A -> Z) (w : nat -> GpioDefs -> Z)
  (body : nat -> A -> M A) :
  (forall k r s,
     val (fst (body k r s)) <= val r + w k (gpioDefs s)
     /\ gpioDefs (snd (body k r s)) = gpioDefs s) ->
  forall l r s,
    val (fst (for_each l body r s)) <= val r + sumZ (fun k => w k (gpioDefs s)) l
    /\ gpioDefs (snd (for_each l body r s)) = gpioDefs s.
Proof.
  intros Hbody. induction l as [|k l IH]; intros r s; cbn [for_each].
  - cbn. split; [lia | reflexivity].
  - rewrite bind_eq. destruct (Hbody k r s) as [Hval Hdefs].
    destruct (body k r s) as [r' s1]. cbn [fst snd] in *.
    cbn [sumZ fold_right]. fold (sumZ (fun k => w k (gpioDefs s)) l).
    destruct (IH r' s1) as [Hval' Hdefs']. rewrite Hdefs in Hval'.
    split; [lia | congruence].
Qed.

Lemma gpioPinSet_output_bound pi i j r s :
  fst (fst (fst (gpioPinSet_output pi i j r s)))
  <= fst r + selects outOps (outFunctionS (gpioDefs s)) i j
  /\ gpioDefs (snd (gpioPinSet_output pi i j r s)) = gpioDefs s.
Proof.
  destruct r as [required sTime].
  unfold gpioPinSet_output, selects, outFunctionS_name,
    call_set_mode, call_set_pull_up_down, call_gpio_write. run.
  destruct (isOn (sw (outFunctionS (gpioDefs s)) i j));
    cbn [negb orb andb fst snd]; [| rewrite andb_false_r; split; [lia | reflexivity] ].
  rewrite andb_true_r.
  destruct (strcmp0 (nth j outOps "") "Unused"); cbn [fst snd];
    [destruct (_ || _); split; [lia | reflexivity | lia | reflexivity] |].
  destruct (strcmp0 (nth j outOps "") (nth 0 outOps "")
            || strcmp0 (nth j outOps "") (nth 1 outOps ""));
    cbn [andb]; split_tests; cbn; split; try reflexivity; lia.
Qed.

Lemma gpioPinSet_input_bound pi i j r s :
  fst (fst (gpioPinSet_input pi i j r s))
  <= r + selects inpOps (inpFunctionS (gpioDefs s)) i j
  /\ gpioDefs (snd (gpioPinSet_input pi i j r s)) = gpioDefs s.
Proof.
  unfold gpioPinSet_input, selects, inpFunctionS_name,
    call_set_mode, call_set_pull_up_down. run.
  destruct (isOn (sw (inpFunctionS (gpioDefs s)) i j));
    cbn [negb orb andb fst snd]; [| rewrite andb_false_r; split; [lia | reflexivity] ].
  rewrite andb_true_r.
  destruct (strcmp0 (nth j inpOps "") "Unused"); cbn [fst snd];
    [destruct (_ || _); split; [lia | reflexivity | lia | reflexivity] |].
  destruct (strcmp0 (nth j inpOps "") (nth 0 inpOps "")
            || strcmp0 (nth j inpOps "") (nth 1 inpOps ""));
    cbn [andb]; split_tests; cbn; split; try reflexivity; lia.
Qed.

Lemma selects_out_sum (a : list (list ISState)) (i : nat) :
  sumZ (fun j => selects outOps a i j) (seq 0 MAX_OUT_OPS)
  = Z.b2z (isOn (sw a i 0)) + Z.b2z (isOn (sw a i 1)).
Proof.
  unfold sumZ, selects. cbn.
  destruct (isOn (sw a i 0)), (isOn (sw a i 1)); reflexivity.
Qed.

Lemma selects_inp_sum (a : list (list ISState)) (i : nat) :
  sumZ (fun j => selects inpOps a i j) (seq 0 MAX_INP_OPS)
  = Z.b2z (isOn (sw a i 0)) + Z.b2z (isOn (sw a i 1)).
Proof.
  unfold sumZ, selects. cbn.
  destruct (isOn (sw a i 0)), (isOn (sw a i 1)); reflexivity.
Qed.

(** [required] is at most the number of definitions that select OPEN, CLOSE,
    OPENED or CLOSED, each definition counted by itself. *)
Lemma gpioPinSet_required_bound pi s :
  fst (gpioPinSet_required pi s)
  <= Z.of_nat (List.length (slotsOf (outFunctionS (gpioDefs s)) MAX_OUT_DEFS 0))
     + Z.of_nat (List.length (slotsOf (outFunctionS (gpioDefs s)) MAX_OUT_DEFS 1))
     + Z.of_nat (List.length (slotsOf (inpFunctionS (gpioDefs s)) MAX_INP_DEFS 0))
     + Z.of_nat (List.length (slotsOf (inpFunctionS (gpioDefs s)) MAX_INP_DEFS 1)).
Proof.
  unfold gpioPinSet_required. rewrite bind_eq.
  destruct (for_each_bound (A := Z * string) fst
              (fun i d => sumZ (fun j => selects outOps (outFunctionS d) i j)
                            (seq 0 MAX_OUT_OPS))
              (fun i => for_break (seq 0 MAX_OUT_OPS) (gpioPinSet_output pi i))
              (fun i r s0 =>
                 for_break_bound fst (fun j d => selects outOps (outFunctionS d) i j)
                   (gpioPinSet_output pi i)
                   (fun j d => selects_nonneg _ _ _ _)
                   (fun j r0 s1 => gpioPinSet_output_bound pi i j r0 s1)
                   (seq 0 MAX_OUT_OPS) r s0)
              (seq 0 MAX_OUT_DEFS) (0, "") s) as [Hout Hdefs].
  set (r1 := for_each (seq 0 MAX_OUT_DEFS)
               (fun i => for_break (seq 0 MAX_OUT_OPS) (gpioPinSet_output pi i))
               (0, "") s) in *.
  destruct (for_each_bound (A := Z) (fun r => r)
              (fun i d => sumZ (fun j => selects inpOps (inpFunctionS d) i j)
                            (seq 0 MAX_INP_OPS))
              (fun i => for_break (seq 0 MAX_INP_OPS) (gpioPinSet_input pi i))
              (fun i r s0 =>
                 for_break_bound (fun r => r)
                   (fun j d => selects inpOps (inpFunctionS d) i j)
                   (gpioPinSet_input pi i)
                   (fun j d => selects_nonneg _ _ _ _)
                   (fun j r0 s1 => gpioPinSet_input_bound pi i j r0 s1)
                   (seq 0 MAX_INP_OPS) r s0)
              (seq 0 MAX_INP_DEFS) (fst (fst r1)) (snd r1)) as [Hinp _].
  rewrite Hdefs in Hinp. cbn [fst] in Hout.
  rewrite (sumZ_ext _ _ _ (selects_out_sum (outFunctionS (gpioDefs s)))) in Hout.
  rewrite (sumZ_ext _ _ _ (selects_inp_sum (inpFunctionS (gpioDefs s)))) in Hinp.
  rewrite sumZ_add, !sumZ_b2z in Hout, Hinp.
  unfold slotsOf. lia.
Qed.

(** [gpioPinSet] logs the configuration error exactly when its counter
    [required] ends below four, and changes nothing else than the trace. *)
Lemma gpioPinSet_check pi s :
  logged DBG_ERROR configurationError (trace (snd (gpioPinSet pi s)))
  = (logged DBG_ERROR configurationError (trace s)
     + (if (requiredAfterLoops pi s <? 4)%Z then 1 else 0))%nat
  /\ gpioDefs (snd (gpioPinSet pi s)) = gpioDefs s
  /\ contactEstablished (snd (gpioPinSet pi s)) = contactEstablished s.
Proof.
  unfold gpioPinSet, requiredAfterLoops. rewrite bind_eq.
  set (s0 := snd (LOG_DEBUG "Summary of GPIO pins defined: " s)).
  assert (Hs0 : logged DBG_ERROR configurationError (trace s0)
                = logged DBG_ERROR configurationError (trace s)
                /\ gpioDefs s0 = gpioDefs s
                /\ contactEstablished s0 = contactEstablished s)
    by (repeat split).
  destruct Hs0 as (Hl0 & Hd0 & Hc0). clearbody s0.
  rewrite bind_eq.
  destruct (setup_step_frame _ _ (gpioPinSet_required_setup pi s0))
    as (Hd & Hc & Hl).
  set (r := gpioPinSet_required pi s0) in *. clearbody r.
  destruct r as [required s1]. cbn [fst snd] in *.
  rewrite <- Hl0, <- Hd0, <- Hc0, <- Hl, <- Hd, <- Hc.
  unfold when. destruct (required <? 4); cbn.
  - repeat split. rewrite Nat.add_1_r. reflexivity.
  - repeat split. rewrite Nat.add_0_r. reflexivity.
Qed.

(** The counter of [gpioPinSet] ends below four when no two definitions
    select the same one of OPEN, CLOSE, OPENED, CLOSED and one of the four
    is selected by none. *)
Lemma required_below_four pi s :
  uniqueMandatory (gpioDefs s) -> mandatoryMissing (gpioDefs s) ->
  (requiredAfterLoops pi s <? 4) = true.
Proof.
  intros (U1 & U2 & U3 & U4) Hmiss.
  pose proof (gpioPinSet_required_bound pi
                (snd (LOG_DEBUG "Summary of GPIO pins defined: " s))) as Hb.
  change (gpioDefs (snd (LOG_DEBUG "Summary of GPIO pins defined: " s)))
    with (gpioDefs s) in Hb.
  fold (requiredAfterLoops pi s) in Hb.
  apply Z.ltb_lt.
  destruct Hmiss as [H | [H | [H | H]]]; rewrite H in *; cbn [List.length] in *; lia.
Qed.

(** The counter counts selections, not functions.  OPEN is selected by
    definitions 1 and 2, OPENED by input definitions 1 and 2; CLOSE and
    CLOSED are selected by none.  The counter reaches four and no
    configuration error is logged, against the comment and the message of
    the test ([rolloffrpi.cpp] 596-598). *)
Lemma duplicates_pass_the_check :
  let pi := host (high []) 0 (mkTimeval 100 0) in
  let s := connectedDriver duplicateDefs false false in
  slotsOf (outFunctionS (gpioDefs s)) MAX_OUT_DEFS 0 = [0; 1]%nat
  /\ outputMapped (gpioDefs s) ROOF_CLOSE_RELAY = false
  /\ inputMapped (gpioDefs s) ROOF_CLOSED_SWITCH = false
  /\ requiredAfterLoops pi s = 4
  /\ logged DBG_ERROR configurationError (trace (snd (gpioPinSet pi s))) = 0%nat.
Proof.
  cbv zeta. repeat split; reflexivity.
Qed.


(** *** What [gpioPinSet] does when the daemon accepts its requests *)

Lemma pinCalls_app (e2 e1 : list Event) :
  pinCalls (e2 ++ e1) = (pinCalls e1 ++ pinCalls e2)%list.
Proof. unfold pinCalls. rewrite flat_map_app, rev_app_distr. reflexivity. Qed.

Lemma runs_bind {A B : Type} (m : M A) (k : A -> M B) (s : RollOffIno)
  (c1 c2 : list PinCall) :
  runs m s c1 -> runs (k (fst (m s))) (snd (m s)) c2 ->
  runs (bind m k) s (c1 ++ c2).
Proof.
  intros (e1 & H1 & C1) (e2 & H2 & C2). exists (e2 ++ e1)%list.
  rewrite bind_eq, H2, H1, pinCalls_app, C1, C2.
  destruct s; cbn. rewrite app_assoc. split; reflexivity.
Qed.

Lemma runs_gpioDefs {A : Type} (m : M A) (s : RollOffIno) (c : list PinCall) :
  runs m s c -> gpioDefs (snd (m s)) = gpioDefs s.
Proof. intros (evs & -> & _). destruct s; reflexivity. Qed.

Section Loops.

Context {A : Type}.
Variable val : A -> Z.
Variable d : GpioDefs.
Variable c : nat -> list PinCall.
Variable w : nat -> Z.

Lemma for_break_runs (body : nat -> A -> M (A * bool)) :
  (forall k r s, gpioDefs s = d ->
     snd (fst (body k r s)) = false
     /\ val (fst (fst (body k r s))) = val r + w k
     /\ runs (body k r) s (c k)) ->
  forall l r s, gpioDefs s = d ->
    val (fst (for_break l body r s)) = val r + sumZ w l
    /\ runs (for_break l body r) s (flat_map c l).
Proof.
  intros Hbody. induction l as [|k l IH]; intros r s Hd; cbn [for_break flat_map].
  - split; [cbn; lia |]. exists []. destruct s; split; reflexivity.
  - destruct (Hbody k r s Hd) as (Hbrk & Hval & Hrun).
    pose proof (runs_gpioDefs _ _ _ Hrun) as Hd1. rewrite Hd in Hd1.
    assert (Hk : (fun x : A * bool =>
                    let '(r', brk) := x in
                    if brk then ret r' else for_break l body r')
                   (fst (body k r s))
                 = for_break l body (fst (fst (body k r s)))).
    { destruct (fst (body k r s)) as [r' brk]. cbn [fst snd] in *.
      rewrite Hbrk. reflexivity. }
    destruct (IH (fst (fst (body k r s))) (snd (body k r s)) Hd1) as (Hval' & Hrun').
    split.
    + rewrite bind_eq, Hk, Hval', Hval.
      cbn [sumZ fold_right]. fold (sumZ w l). lia.
    + apply runs_bind; [exact Hrun | rewrite Hk; exact Hrun'].
Qed.

Lemma for_each_runs (body : nat -> A -> M A) :
  (forall k r s, gpioDefs s = d ->
     val (fst (body k r s)) = val r + w k /\ runs (body k r) s (c k)) ->
  forall l r s, gpioDefs s = d ->
    val (fst (for_each l body r s)) = val r + sumZ w l
    /\ runs (for_each l body r) s (flat_map c l).
Proof.
  intros Hbody. induction l as [|k l IH]; intros r s Hd; cbn [for_each flat_map].
  - split; [cbn; lia |]. exists []. destruct s; split; reflexivity.
  - destruct (Hbody k r s Hd) as (Hval & Hrun).
    pose proof (runs_gpioDefs _ _ _ Hrun) as Hd1. rewrite Hd in Hd1.
    destruct (IH (fst (body k r s)) (snd (body k r s)) Hd1) as (Hval' & Hrun').
    split.
    + rewrite bind_eq, Hval', Hval.
      cbn [sumZ fold_right]. fold (sumZ w l). lia.
    + apply runs_bind; assumption.
Qed.

End Loops.

Lemma gpioPinSet_output_runs pi i j r s :
  daemonAccepts pi ->
  snd (fst (gpioPinSet_output pi i j r s)) = false
  /\ fst (fst (fst (gpioPinSet_output pi i j r s)))
     = fst r + outputCounted (gpioDefs s) i j
  /\ runs (gpioPinSet_output pi i j r) s (outputSetup (gpioDefs s) i j).
Proof.
  intros [Hmode Hpud]. destruct r as [required sTime].
  unfold runs, gpioPinSet_output, outputSetup, outputCounted, restLevel,
    call_set_mode, call_set_pull_up_down, call_gpio_write. run.
  destruct (negb (isOn (sw (outFunctionS (gpioDefs s)) i j))
            || strcmp0 (outFunctionS_name j) "Unused"); cbn [fst snd].
  - repeat split; [lia |]. exists []. destruct s; split; reflexivity.
  - rewrite Hmode. cbn [Z.eqb negb fst snd]. rewrite Hpud. cbn [Z.eqb negb fst snd].
    match goal with
    | |- context [negb (?e =? 0)] => destruct (negb (e =? 0))
    end; cbn [fst snd];
      (split; [reflexivity |]; split;
       [destruct (_ && _); cbn [fst]; lia |]);
      [eexists [_; _; _; _; _] | eexists [_; _; _; _]];
      (split; [destruct s; reflexivity | reflexivity]).
Qed.

Lemma gpioPinSet_input_runs pi i j r s :
  daemonAccepts pi ->
  snd (fst (gpioPinSet_input pi i j r s)) = false
  /\ fst (fst (gpioPinSet_input pi i j r s)) = r + inputCounted (gpioDefs s) i j
  /\ runs (gpioPinSet_input pi i j r) s (inputSetup (gpioDefs s) i j).
Proof.
  intros [Hmode Hpud].
  unfold runs, gpioPinSet_input, inputSetup, inputCounted, pullFor,
    call_set_mode, call_set_pull_up_down. run.
  destruct (negb (isOn (sw (inpFunctionS (gpioDefs s)) i j))
            || strcmp0 (inpFunctionS_name j) "Unused"); cbn [fst snd].
  - repeat split; [lia |]. exists []. destruct s; split; reflexivity.
  - rewrite Hmode. cbn [Z.eqb negb fst snd]. rewrite Hpud. cbn [Z.eqb negb fst snd].
    split; [reflexivity |]. split; [destruct (_ && _); cbn [fst]; lia |].
    eexists [_; _; _]. split; [destruct s; reflexivity | reflexivity].
Qed.

Lemma gpioPinSet_required_runs pi s :
  daemonAccepts pi ->
  fst (gpioPinSet_required pi s) = requiredCount (gpioDefs s)
  /\ runs (gpioPinSet_required pi) s (pinSetup (gpioDefs s)).
Proof.
  intros Hacc. unfold gpioPinSet_required, requiredCount, pinSetup.
  set (d := gpioDefs s).
  assert (Hout : forall r x, gpioDefs x = d ->
            fst (fst (for_each (seq 0 MAX_OUT_DEFS)
                        (fun i => for_break (seq 0 MAX_OUT_OPS) (gpioPinSet_output pi i))
                        r x))
            = fst r + sumZ (fun i => sumZ (outputCounted d i) (seq 0 MAX_OUT_OPS))
                        (seq 0 MAX_OUT_DEFS)
            /\ runs (for_each (seq 0 MAX_OUT_DEFS)
                       (fun i => for_break (seq 0 MAX_OUT_OPS) (gpioPinSet_output pi i))
                       r) x
                 (flat_map (fun i => flat_map (outputSetup d i) (seq 0 MAX_OUT_OPS))
                    (seq 0 MAX_OUT_DEFS))).
  { apply (for_each_runs (fun r : Z * string => fst r) d).
    intros i r x Hx.
    apply (for_break_runs (fun r : Z * string => fst r) d); [| exact Hx].
    intros j r' y Hy. rewrite <- Hy. apply gpioPinSet_output_runs, Hacc. }
  assert (Hinp : forall r x, gpioDefs x = d ->
            fst (for_each (seq 0 MAX_INP_DEFS)
                   (fun i => for_break (seq 0 MAX_INP_OPS) (gpioPinSet_input pi i))
                   r x)
            = r + sumZ (fun i => sumZ (inputCounted d i) (seq 0 MAX_INP_OPS))
                    (seq 0 MAX_INP_DEFS)
            /\ runs (for_each (seq 0 MAX_INP_DEFS)
                       (fun i => for_break (seq 0 MAX_INP_OPS) (gpioPinSet_input pi i))
                       r) x
                 (flat_map (fun i => flat_map (inputSetup d i) (seq 0 MAX_INP_OPS))
                    (seq 0 MAX_INP_DEFS))).
  { apply (for_each_runs (fun r : Z => r) d).
    intros i r x Hx.
    apply (for_break_runs (fun r : Z => r) d); [| exact Hx].
    intros j r' y Hy. rewrite <- Hy. apply gpioPinSet_input_runs, Hacc. }
  destruct (Hout (0, "") s eq_refl) as (Hv1 & Hr1).
  pose proof (runs_gpioDefs _ _ _ Hr1) as Hd1.
  match type of Hr1 with
  | runs ?m _ _ =>
      destruct (Hinp (fst (fst (m s))) (snd (m s)) Hd1) as (Hv2 & Hr2)
  end.
  split.
  - rewrite bind_eq, Hv2, Hv1. cbn [fst]. lia.
  - apply runs_bind; assumption.
Qed.

Lemma gpioPinSet_runs pi s :
  daemonAccepts pi ->
  requiredAfterLoops pi s = requiredCount (gpioDefs s)
  /\ exists evs,
       snd (gpioPinSet pi s) = set_trace (evs ++ trace s) s
       /\ pinCalls evs = pinSetup (gpioDefs s)
       /\ logged DBG_ERROR configurationError evs
          = if requiredCount (gpioDefs s) <? 4 then 1%nat else 0%nat.
Proof.
  intros Hacc. unfold requiredAfterLoops, gpioPinSet.
  set (s0 := snd (LOG_DEBUG "Summary of GPIO pins defined: " s)).
  destruct (gpioPinSet_required_runs pi s0 Hacc) as (Hv & evs & Hs & Hc).
  change (gpioDefs s0) with (gpioDefs s) in *.
  pose proof (gpioPinSet_required_setup pi s0) as (evs' & Hs' & Hlog).
  assert (Heq : evs' = evs).
  { rewrite Hs in Hs'. apply (f_equal trace) in Hs'.
    destruct s0; cbn in Hs'. apply app_inv_tail in Hs'. congruence. }
  subst evs'.
  split; [exact Hv |].
  rewrite bind_eq. fold s0. rewrite bind_eq, Hv, Hs.
  assert (Hnone : logged DBG_ERROR configurationError evs = 0%nat).
  { unfold logged. clear -Hlog. induction evs as [|e evs IH]; [reflexivity |].
    cbn [forallb] in Hlog. apply andb_prop in Hlog. destruct Hlog as [He Hl].
    cbn [filter]. unfold setup_event in He. apply negb_true_iff in He.
    rewrite He. apply IH, Hl. }
  unfold when. destruct (requiredCount (gpioDefs s) <? 4).
  - exists (EvLog DBG_ERROR configurationError []
            :: evs ++ [EvLog DBG_DEBUG "Summary of GPIO pins defined: " []])%list.
    split; [| split].
    + subst s0. destruct s; cbn. rewrite <- app_assoc. reflexivity.
    + change (EvLog DBG_ERROR configurationError []
              :: evs ++ [EvLog DBG_DEBUG "Summary of GPIO pins defined: " []])%list
        with ([EvLog DBG_ERROR configurationError []]
              ++ evs ++ [EvLog DBG_DEBUG "Summary of GPIO pins defined: " []])%list.
      rewrite !pinCalls_app, Hc. cbn. apply app_nil_r.
    + unfold logged in *. cbn [filter]. change (isLog DBG_ERROR configurationError
        (EvLog DBG_ERROR configurationError [])) with true.
      cbn [List.length]. rewrite filter_app, length_app, Hnone. reflexivity.
  - exists (evs ++ [EvLog DBG_DEBUG "Summary of GPIO pins defined: " []])%list.
    split; [| split].
    + subst s0. destruct s; cbn. rewrite <- app_assoc. reflexivity.
    + rewrite pinCalls_app, Hc. reflexivity.
    + unfold logged in *. rewrite filter_app, length_app, Hnone. reflexivity.
Qed.
(** ** C5: what the configuration check decides *)

Lemma sumZ_le (f g : nat -> Z) (l : list nat) :
  (forall k, f k <= g k) -> sumZ f l <= sumZ g l.
Proof.
  intros H. unfold sumZ.
  induction l as [|k l IH]; cbn; [lia | specialize (H k); lia].
Qed.

Lemma sumZ_member (f : nat -> Z) (l : list nat) (x : nat) :
  (forall k, 0 <= f k) -> In x l -> f x <= sumZ f l.
Proof.
  intros Hf. induction l as [|k l IH]; cbn [In sumZ fold_right]; [tauto |].
  fold (sumZ f l). pose proof (sumZ_nonneg f l Hf) as Hl.
  intros [-> | Hin]; [lia | specialize (IH Hin); specialize (Hf k); lia].
Qed.

Lemma outputCounted_nonneg d i j : 0 <= outputCounted d i j.
Proof.
  unfold outputCounted.
  destruct (_ || _); [lia |]. destruct (_ && _); lia.
Qed.

Lemma inputCounted_nonneg d i j : 0 <= inputCounted d i j.
Proof.
  unfold inputCounted.
  destruct (_ || _); [lia |]. destruct (_ && _); lia.
Qed.

(** A selection of OPEN or CLOSE on a pin above 2 is counted, and so is one
    of OPENED or CLOSED. *)
Lemma outputCounted_mandatory d i j :
  (j < 2)%nat -> isOn (sw (outFunctionS d) i j) = true ->
  num (outPinNumberN d) i > 2 -> outputCounted d i j = 1.
Proof.
  intros Hj Hon Hpin. unfold outputCounted.
  rewrite Hon, (proj2 (Z.gtb_lt _ _)) by lia.
  destruct j as [|[|j]]; [reflexivity | reflexivity | lia].
Qed.

Lemma inputCounted_mandatory d i j :
  (j < 2)%nat -> isOn (sw (inpFunctionS d) i j) = true ->
  num (inpPinNumberN d) i > 2 -> inputCounted d i j = 1.
Proof.
  intros Hj Hon Hpin. unfold inputCounted.
  rewrite Hon, (proj2 (Z.gtb_lt _ _)) by lia.
  destruct j as [|[|j]]; [reflexivity | reflexivity | lia].
Qed.

(** A table of counts with nothing below zero, one entry of column 0 and
    one entry of column 1 at one: its sum is two or more. *)
Lemma two_columns_counted (f : nat -> nat -> Z) (n m i0 i1 : nat) :
  (forall i j, 0 <= f i j) ->
  (i0 < n)%nat -> (i1 < n)%nat -> f i0 0%nat = 1 -> f i1 1%nat = 1 ->
  2 <= sumZ (fun i => sumZ (f i) (seq 0 (S (S m)))) (seq 0 n).
Proof.
  intros Hf H0 H1 E0 E1.
  assert (Hrow : forall i, f i 0%nat + f i 1%nat <= sumZ (f i) (seq 0 (S (S m)))).
  { intros i. cbn [seq sumZ fold_right]. fold (sumZ (f i) (seq 2 m)).
    pose proof (sumZ_nonneg (f i) (seq 2 m) (Hf i)). lia. }
  pose proof (sumZ_le _ _ (seq 0 n) Hrow) as Hsum.
  rewrite sumZ_add in Hsum.
  pose proof (sumZ_member (fun i => f i 0%nat) (seq 0 n) i0 (fun k => Hf k 0%nat)) as M0.
  pose proof (sumZ_member (fun i => f i 1%nat) (seq 0 n) i1 (fun k => Hf k 1%nat)) as M1.
  cbv beta in M0, M1.
  specialize (M0 (proj2 (in_seq _ _ _) (conj (Nat.le_0_l _) H0))).
  specialize (M1 (proj2 (in_seq _ _ _) (conj (Nat.le_0_l _) H1))).
  lia.
Qed.

(** With each of the four functions selected on a pin above 2, the count is
    four or more, whatever else is selected. *)
Lemma requiredCount_mandatory d :
  mandatoryOnCountedPins d -> 4 <= requiredCount d.
Proof.
  intros ((o & Ho & Oon & Opin) & (c & Hc & Con & Cpin)
          & (od & Hod & ODon & ODpin) & (cd & Hcd & CDon & CDpin)).
  unfold requiredCount.
  pose proof (two_columns_counted (outputCounted d) MAX_OUT_DEFS 4 o c
                (outputCounted_nonneg d) Ho Hc
                (outputCounted_mandatory d o 0 ltac:(lia) Oon Opin)
                (outputCounted_mandatory d c 1 ltac:(lia) Con Cpin)) as Hout.
  pose proof (two_columns_counted (inputCounted d) MAX_INP_DEFS 3 od cd
                (inputCounted_nonneg d) Hod Hcd
                (inputCounted_mandatory d od 0 ltac:(lia) ODon ODpin)
                (inputCounted_mandatory d cd 1 ltac:(lia) CDon CDpin)) as Hinp.
  change (S (S 4)) with MAX_OUT_OPS in Hout.
  change (S (S 3)) with MAX_INP_OPS in Hinp.
  lia.
Qed.

(** C5.  The check of [gpioPinSet] is not fatal: it leaves the definitions
    and the contact with the daemon as they are.  It does not look at
    whether a function is selected by more than one definition.  When no two
    definitions select the same one of OPEN, CLOSE, OPENED, CLOSED and one
    of these four is selected by none, the configuration error is logged.
    When each of the four is selected by a definition whose pin number is
    above 2 and the daemon accepts the requests, no configuration error is
    logged, whether or not a function is selected more than once. *)
Theorem configuration_check pi s :
  let d := gpioDefs s in
  let s' := snd (gpioPinSet pi s) in
  let errors (t : list Event) := logged DBG_ERROR configurationError t in
  (gpioDefs s' = d /\ contactEstablished s' = contactEstablished s)
  /\ (uniqueMandatory d -> mandatoryMissing d ->
      errors (trace s') = S (errors (trace s)))
  /\ (daemonAccepts pi -> mandatoryOnCountedPins d ->
      errors (trace s') = errors (trace s)).
Proof.
  intros d s' errors. subst d s' errors. cbv beta.
  destruct (gpioPinSet_check pi s) as (Hlog & Hd & Hc).
  split; [split; assumption |]. split.
  - intros Hu Hm. rewrite Hlog, (required_below_four pi s Hu Hm).
    apply Nat.add_1_r.
  - intros Hpi Hm. rewrite Hlog.
    destruct (gpioPinSet_runs pi s Hpi) as [-> _].
    pose proof (requiredCount_mandatory _ Hm) as H4.
    rewrite (proj2 (Z.ltb_ge _ _)) by lia.
    apply Nat.add_0_r.
Qed.

(** The example without a definition for CLOSED is answered with the
    configuration error; the example itself is not. *)
Lemma configuration_check_witness :
  let pi := host (high []) 0 (mkTimeval 100 0) in
  let errors (s : RollOffIno) := logged DBG_ERROR configurationError (trace s) in
  errors (snd (gpioPinSet pi (connectedDriver noClosedDefs false false))) = 1%nat
  /\ errors (snd (gpioPinSet pi (connectedDriver exampleDefs false false))) = 0%nat.
Proof.
  intros pi errors. split.
  - assert (Hu : uniqueMandatory noClosedDefs)
      by (unfold uniqueMandatory; cbn; repeat split; lia).
    assert (Hm : mandatoryMissing noClosedDefs)
      by (right; right; right; reflexivity).
    destruct (configuration_check pi (connectedDriver noClosedDefs false false))
      as (_ & H & _).
    exact (H Hu Hm).
  - assert (Hpi : daemonAccepts pi) by (split; reflexivity).
    assert (Hm : mandatoryOnCountedPins exampleDefs).
    { unfold mandatoryOnCountedPins. split; [| split; [| split]];
        [exists 0%nat | exists 1%nat | exists 0%nat | exists 1%nat];
        (split; [unfold MAX_OUT_DEFS, MAX_INP_DEFS; lia | split; [reflexivity | vm_compute; reflexivity]]). }
    destruct (configuration_check pi (connectedDriver exampleDefs false false))
      as (_ & _ & H).
    exact (H Hpi Hm).
Defined.

(** OPEN is selected by definition 1 on pin 17 and by definition 4 on pin
    23, so the configuration breaks the uniqueness the claim speaks of; yet
    [gpioPinSet] logs no configuration error, and no error at all. *)
Lemma duplicate_assignment_accepted :
  let pi := host (high []) 0 (mkTimeval 100 0) in
  let s := connectedDriver doubleOpenDefs false false in
  slotsOf (outFunctionS (gpioDefs s)) MAX_OUT_DEFS 0 = [0; 3]%nat
  /\ ~ uniqueMandatory (gpioDefs s)
  /\ logged DBG_ERROR configurationError (trace (snd (gpioPinSet pi s))) = 0%nat
  /\ filter (fun e => match e with EvLog DBG_ERROR _ _ => true | _ => false end)
       (trace (snd (gpioPinSet pi s))) = [].
Proof.
  cbv zeta. split; [reflexivity |]. split; [| split; reflexivity].
  intros (H & _). vm_compute in H. lia.
Qed.

(** ** C7: a motion that runs longer than its timeout *)

(** C7 does not hold of the code.  A tick compares the timeout with the time
    since [MotionStart], and every connected tick ends by setting
    [MotionStart] to the clock ([rolloffrpi.cpp] 929).  Here a driver is
    connected with the example definitions and asked to open with the
    default timeout of 15s; the move starts at 100.5s.  The base class stays
    busy opening, no sensor ever reads set, and each tick comes when the
    delay that the driver asked of its timer is over.  At every one of the
    first 60 ticks the time left as the tick computes it is above zero.  The
    60th tick runs at 131s, which is 30.5s after the start of the move:
    after it the opening flag is still set, no timeout is recorded,
    [DOME_IDLE] was never asked for, and the status shows the roof moving
    and no alert. *)
Theorem timeout_missed_at_poll_cadence :
  let pi := punctualHost in
  let fw0 := baseClass IPS_IDLE ISS_OFF ISS_OFF in
  let fw := baseClass IPS_BUSY ISS_ON ISS_OFF in
  let connected := snd (Connect pi (set_gpioDefs exampleDefs newDriver)) in
  let moved := Move pi fw0 DOME_CW MOTION_START connected in
  let after (n : nat) := ticks pi fw n (snd moved) in
  (fst moved = IPS_BUSY
   /\ roofOpening (snd moved) = true
   /\ MotionRequest (snd moved) = 15
   /\ MotionStart (snd moved) = mkTimeval 100 500000)
  /\ forallb (fun n => negb (Qle_bool (timeleftAt pi (after n)) 0)) (seq 0 60)
     = true
  /\ MotionStart (after 60%nat) = mkTimeval 131 0
  /\ (fullyOpenedLimitSwitch (after 60%nat) = ISS_OFF
      /\ fullyClosedLimitSwitch (after 60%nat) = ISS_OFF)
  /\ roofOpening (after 60%nat) = true
  /\ roofTimedOut (after 60%nat) = EXPIRED_CLEAR
  /\ filter isSetIdle (trace (after 60%nat)) = []
  /\ RoofStatusL (after 60%nat)
     = mkRoofLights IPS_BUSY IPS_IDLE IPS_BUSY IPS_IDLE IPS_IDLE
  /\ RoofStatusLP_s (after 60%nat) = IPS_BUSY.
Proof.
  cbv zeta. repeat split; vm_compute; reflexivity.
Qed.

(** * Further properties of the driver *)
(** ** Further properties of the sensors *)

Lemma first_index_spec (n : nat) (p : nat -> bool) (i : nat) :
  first_index n p = Some i <->
  (i < n)%nat /\ p i = true /\ forall k, (k < i)%nat -> p k = false.
Proof.
  unfold first_index.
  assert (H : forall m b, find p (seq b m) = Some i <->
            (b <= i < b + m)%nat /\ p i = true
            /\ forall k, (b <= k < i)%nat -> p k = false).
  { induction m as [|m IH]; intros b; cbn [seq find].
    - split; [discriminate | intros [Hi _]; lia].
    - destruct (p b) eqn:Hb.
      + split.
        * intros [= <-]. repeat split; try lia; auto.
        * intros (Hi & Hp & Hmin).
          destruct (Nat.eq_dec b i) as [-> | Hne]; [reflexivity |].
          rewrite (Hmin b) in Hb by lia. discriminate.
      + rewrite IH. split.
        * intros (Hi & Hp & Hmin). repeat split; try lia; auto.
          intros k Hk. destruct (Nat.eq_dec k b) as [-> | Hne]; [exact Hb |].
          apply Hmin. lia.
        * intros (Hi & Hp & Hmin).
          assert (b <> i) by (intros ->; congruence).
          repeat split; try lia; auto. intros k Hk. apply Hmin. lia. }
  rewrite H. split; intros (Hi & Hp & Hmin); repeat split; auto; try lia;
    intros k Hk; apply Hmin; lia.
Qed.

Lemma first_index_none (n : nat) (p : nat -> bool) :
  first_index n p = None <-> forall k, (k < n)%nat -> p k = false.
Proof.
  unfold first_index. split.
  - intros H k Hk.
    destruct (p k) eqn:Hp; [| reflexivity].
    assert (In k (seq 0 n)) as Hin by (apply in_seq; lia).
    pose proof (find_none p (seq 0 n) H k Hin). congruence.
  - intros H. destruct (find p (seq 0 n)) as [i|] eqn:Hf; [| reflexivity].
    apply find_some in Hf. destruct Hf as [Hin Hp].
    apply in_seq in Hin. rewrite H in Hp by lia. discriminate.
Qed.

(** X1. Which definition serves a function.  When several definitions select
    the same function, the one with the lowest number is used, for inputs
    and for outputs; a function is without definition exactly when none of
    the definitions selects it. *)
Theorem lowest_definition_wins (d : GpioDefs) (name : string) (i : nat) :
  (inpDefinitionFor name d = Some i <->
   (i < MAX_INP_DEFS)%nat /\ inputSelected d name i = true
   /\ forall k, (k < i)%nat -> inputSelected d name k = false)
  /\ (outDefinitionFor name d = Some i <->
      (i < MAX_OUT_DEFS)%nat /\ outputSelected d name i = true
      /\ forall k, (k < i)%nat -> outputSelected d name k = false)
  /\ (inputMapped d name = false <->
      forall k, (k < MAX_INP_DEFS)%nat -> inputSelected d name k = false)
  /\ (outputMapped d name = false <->
      forall k, (k < MAX_OUT_DEFS)%nat -> outputSelected d name k = false).
Proof.
  split; [apply first_index_spec |]. split; [apply first_index_spec |].
  unfold inputMapped, outputMapped.
  split.
  - rewrite <- (first_index_none MAX_INP_DEFS (inputSelected d name)).
    change (inpDefinitionFor name d)
      with (first_index MAX_INP_DEFS (inputSelected d name)).
    destruct (first_index MAX_INP_DEFS (inputSelected d name));
      split; congruence.
  - rewrite <- (first_index_none MAX_OUT_DEFS (outputSelected d name)).
    change (outDefinitionFor name d)
      with (first_index MAX_OUT_DEFS (outputSelected d name)).
    destruct (first_index MAX_OUT_DEFS (outputSelected d name));
      split; congruence.
Qed.

(** OPEN is selected by definitions 1 and 2 of [duplicateDefs]: the first
    one is used. *)
Lemma lowest_definition_wins_witness :
  outDefinitionFor ROOF_OPEN_RELAY duplicateDefs = Some 0%nat
  /\ outputSelected duplicateDefs ROOF_OPEN_RELAY 1 = true.
Proof.
  split; [| reflexivity].
  apply (proj1 (proj2 (lowest_definition_wins duplicateDefs ROOF_OPEN_RELAY 0))).
  repeat split; [unfold MAX_OUT_DEFS; lia | intros k Hk; lia].
Defined.

Lemma readRoofSwitch_members pi id s :
  fullyOpenedLimitSwitch (snd (readRoofSwitch pi id s)) = fullyOpenedLimitSwitch s
  /\ fullyClosedLimitSwitch (snd (readRoofSwitch pi id s)) = fullyClosedLimitSwitch s
  /\ roofLockedSwitch (snd (readRoofSwitch pi id s)) = roofLockedSwitch s
  /\ roofAuxiliarySwitch (snd (readRoofSwitch pi id s)) = roofAuxiliarySwitch s.
Proof.
  unfold readRoofSwitch, call_gpio_read. run. split_tests; repeat split.
Qed.

Lemma readRoofSwitch_failed pi id s :
  fst (fst (readRoofSwitch pi id s)) = false ->
  snd (fst (readRoofSwitch pi id s)) = false.
Proof.
  unfold readRoofSwitch, call_gpio_read. run. split_tests; cbn; congruence.
Qed.

(** X2. Reading a sensor that has a definition.  With contact established,
    the pin of the definition is read once.  When the daemon answers
    anything but [PI_BAD_GPIO], that read is all that happens: the call
    succeeds, and the value is true exactly when the pin reads 1 under
    "High" or 0 under "Low"; with neither polarity switch on, or with an
    answer that is neither 0 nor 1, the sensor reads as not set.  When the
    daemon answers [PI_BAD_GPIO], the next thing the code does is the
    warning that hands [roofClosing] to a [%s]; nothing is stated about
    what follows that call. *)
Theorem sensor_read pi id s i :
  contactEstablished s = true ->
  inpDefinitionFor id (gpioDefs s) = Some i ->
  let gpio := num (inpPinNumberN (gpioDefs s)) i in
  let level := gpio_read pi (trace s) gpio in
  let high := isOn (sw (inpActivateWhenS (gpioDefs s)) i 0) in
  let low := isOn (sw (inpActivateWhenS (gpioDefs s)) i 1) in
  let r := readRoofSwitch pi id s in
  let warning :=
    EvLog DBG_WARNING "GPIO read failed for %s, %d, returned: %s"
      [ArgB (roofClosing s); ArgN gpio; ArgN level] in
  (level <> PI_BAD_GPIO ->
   fst r = (true, sensorValue high low level)
   /\ trace (snd r) = EvGpioRead gpio level :: trace s
   /\ (high = false -> low = false -> snd (fst r) = false)
   /\ (level <> 0 -> level <> 1 -> snd (fst r) = false))
  /\ (level = PI_BAD_GPIO ->
      trace (snd r) = warning :: EvGpioRead gpio level :: trace s
      /\ undefinedCall warning = true).
Proof.
  intros Hcontact Hdef. cbv zeta. unfold readRoofSwitch, call_gpio_read, sensorValue.
  run. rewrite Hcontact. cbn [negb fst snd]. rewrite Hdef. cbn [fst snd].
  set (level := gpio_read pi (trace s) (num (inpPinNumberN (gpioDefs s)) i)).
  change (strcmp0 (ActivateWhenS_name 0) "High") with true.
  change (strcmp0 (ActivateWhenS_name 1) "Low") with true.
  cbn [andb].
  destruct (Z.eqb_spec level PI_BAD_GPIO) as [Hbad | Hok]; cbn [fst snd].
  - split; [intros H; contradiction |].
    intros _. split; reflexivity.
  - split; [intros _ | intros H; contradiction].
    destruct (isOn (sw (inpActivateWhenS (gpioDefs s)) i 0)) eqn:Hh;
      destruct (isOn (sw (inpActivateWhenS (gpioDefs s)) i 1)) eqn:Hl;
      destruct (Z.eqb_spec level 1); destruct (Z.eqb_spec level 0);
      cbn; repeat split; intros; try congruence; try lia.
Qed.

(** OPENED is on pin 5, active high, and pin 5 reads 1. *)
Lemma sensor_read_witness :
  let pi := host (high [5]) 0 (mkTimeval 100 0) in
  let s := connectedDriver exampleDefs false false in
  fst (readRoofSwitch pi ROOF_OPENED_SWITCH s) = (true, true)
  /\ trace (snd (readRoofSwitch pi ROOF_OPENED_SWITCH s)) = [EvGpioRead 5 1].
Proof.
  intros pi s.
  assert (Hok : gpio_read pi (trace s) (num (inpPinNumberN (gpioDefs s)) 0)
                <> PI_BAD_GPIO) by discriminate.
  destruct (sensor_read pi ROOF_OPENED_SWITCH s 0 eq_refl eq_refl) as [Hread _].
  destruct (Hread Hok) as (Hr & Ht & _).
  split; [exact Hr | exact Ht].
Defined.

(** X3. The switch states the driver keeps.  Each getter stores what it read
    when the read succeeded.  When the read failed without the undefined
    warning call of [readRoofSwitch] (no contact, or an opened or closed
    sensor without definition), the getter reports false and leaves the
    stored state as it was, which may be out of date. *)
Theorem getters_store_successful_reads pi fw s :
  (let r := getFullOpenedLimitSwitch pi fw s in
   (fst (fst r) = true ->
    fullyOpenedLimitSwitch (snd r) = if snd (fst r) then ISS_ON else ISS_OFF)
   /\ (fst (fst r) = false -> noUndefinedCall s (snd r) ->
       snd (fst r) = false
       /\ fullyOpenedLimitSwitch (snd r) = fullyOpenedLimitSwitch s))
  /\ (let r := getFullClosedLimitSwitch pi fw s in
      (fst (fst r) = true ->
       fullyClosedLimitSwitch (snd r) = if snd (fst r) then ISS_ON else ISS_OFF)
      /\ (fst (fst r) = false -> noUndefinedCall s (snd r) ->
          snd (fst r) = false
          /\ fullyClosedLimitSwitch (snd r) = fullyClosedLimitSwitch s))
  /\ (let r := getRoofLockedSwitch pi fw s in
      (fst (fst r) = true ->
       roofLockedSwitch (snd r) = if snd (fst r) then ISS_ON else ISS_OFF)
      /\ (fst (fst r) = false -> noUndefinedCall s (snd r) ->
          snd (fst r) = false /\ roofLockedSwitch (snd r) = roofLockedSwitch s))
  /\ (let r := getRoofAuxSwitch pi fw s in
      (fst (fst r) = true ->
       roofAuxiliarySwitch (snd r) = if snd (fst r) then ISS_ON else ISS_OFF)
      /\ (fst (fst r) = false -> noUndefinedCall s (snd r) ->
          snd (fst r) = false
          /\ roofAuxiliarySwitch (snd r) = roofAuxiliarySwitch s)).
Proof.
  cbv zeta.
  unfold getFullOpenedLimitSwitch, getFullClosedLimitSwitch, getRoofLockedSwitch,
    getRoofAuxSwitch.
  destruct (isSimulation fw); run.
  - destruct (simRoofOpen s), (simRoofClosed s),
      (negb (isOn (nth AUX_ENABLE (AuxS s) ISS_OFF)));
      cbn; repeat split; discriminate.
  - repeat split;
      match goal with
      | |- context [readRoofSwitch ?p ?i ?x] =>
          pose proof (readRoofSwitch_members p i x) as (Ho & Hc & Hl & Ha);
          pose proof (readRoofSwitch_failed p i x) as Hf;
          destruct (readRoofSwitch p i x) as [[ok v] s1]
      end; cbn [fst snd] in *;
      destruct ok, v; cbn; intros; try discriminate; auto;
      specialize (Hf eq_refl); discriminate.
Qed.

(** The lock switch was stored as on and the driver has no contact: the
    read fails with the no-contact warning and the stored state stays on. *)
Lemma getters_store_successful_reads_witness :
  let pi := host (high []) 0 (mkTimeval 100 0) in
  let fw := baseClass IPS_IDLE ISS_OFF ISS_OFF in
  let s := set_roofLockedSwitch ISS_ON (set_gpioDefs exampleDefs newDriver) in
  fst (getRoofLockedSwitch pi fw s) = (false, false)
  /\ roofLockedSwitch (snd (getRoofLockedSwitch pi fw s)) = ISS_ON.
Proof.
  intros pi fw s.
  destruct (getters_store_successful_reads pi fw s) as (_ & _ & [_ H] & _).
  split; [reflexivity |]. apply H; reflexivity.
Defined.
(** ** Further properties of the actuator *)

Lemma sensor_event_not_actuation (e : Event) :
  sensor_event e = true -> isActuation e = false.
Proof. destruct e; intros H; try reflexivity; discriminate H. Qed.

Lemma afterLock_frame pi fw s :
  gpioDefs (afterLock pi fw s) = gpioDefs s
  /\ filter isActuation (trace (afterLock pi fw s)) = filter isActuation (trace s)
  /\ writes (trace (afterLock pi fw s)) = writes (trace s).
Proof.
  unfold afterLock. pose proof (getRoofLockedSwitch_step pi fw s) as Hstep.
  split; [apply sensor_step_gpioDefs, Hstep |].
  split; [| apply sensor_step_writes, Hstep].
  destruct Hstep as (evs & o & c & l & a & -> & H). destruct s; cbn.
  eapply filter_events_app; eauto using sensor_event_not_actuation.
Qed.

Lemma pin_level_head (g l r : Z) (t : list Event) :
  r = 0 -> pin_level (EvGpioWrite g l r :: t) g = Some l.
Proof. intros ->. cbn [pin_level]. rewrite Z.eqb_refl. reflexivity. Qed.

(** [pushRoofButton] up to the point where the definition was found. *)
Lemma pushRoofButton_found pi fw button switchOn ignoreLock s i :
  contactEstablished s = true ->
  lockPasses pi fw ignoreLock s ->
  outDefinitionFor button (gpioDefs s) = Some i ->
  pushRoofButton pi fw button switchOn ignoreLock s
  = (let moveFunction := isMoveRelay button in
     let gpio := num (outPinNumberN (gpioDefs s)) i in
     let wantHigh := wantHighFor (gpioDefs s) i switchOn in
     '(intervalMilli, status) <-
       match activeLimitOf (gpioDefs s) i with
       | Some j =>
           let intervalMilli := nth j activeLimitMilli 0 in
           if (intervalMilli =? 0) && moveFunction then
             LOGF DBG_WARNING
               "%s needs a Active Limit interval, No Limit only available for Lock and Aux."
               [ArgS button] ;;
             ret (intervalMilli, false)
           else ret (intervalMilli, true)
       | None => ret (0, true)
       end ;;
     if negb status then
       LOGF DBG_WARNING "A usable GPIO pin definition for %s was not found."
         [ArgS button] ;;
       ret status
     else
       r <- call_gpio_write pi gpio (if wantHigh then 1 else 0) ;;
       if negb (r =? 0) then
         LOGF DBG_WARNING "GPIO write failed for %s, %d, returned: %s"
           [ArgS button; ArgN gpio] ;;
         ret false
       else if intervalMilli >? 0 then
         msSleep intervalMilli ;;
         r' <- call_gpio_write pi gpio (if wantHigh then 0 else 1) ;;
         if negb (r' =? 0) then
           LOGF DBG_WARNING "GPIO write reset failed for %s, %d, returned: %s"
             [ArgS button; ArgN gpio] ;;
           ret false
         else ret true
       else ret true) (afterLock pi fw s).
Proof.
  intros Hcontact Hlock Hdef.
  destruct (afterLock_frame pi fw s) as (Hd & _).
  unfold pushRoofButton, lockPasses, afterLock, activeLimitOf in *.
  rewrite bind_eq. unfold gets. cbn [fst snd]. rewrite Hcontact. cbn [negb].
  rewrite bind_eq.
  destruct (getRoofLockedSwitch pi fw s) as [[status roofLocked] s1].
  cbn [fst snd] in *. cbv beta iota.
  assert ((negb status || roofLocked) && negb ignoreLock = false) as ->.
  { destruct Hlock as [-> | [= -> ->]]; [apply andb_false_r | reflexivity]. }
  rewrite bind_eq. cbn [fst snd]. rewrite Hd, Hdef.
  reflexivity.
Qed.

(** X4. The shape of a pulse.  For a definition with an Active Limit above
    zero, an actuation that gets past the lock writes the commanded level to
    the pin of the definition; if that write fails it stops there and
    fails.  Otherwise it sleeps for exactly the Active Limit, writes the
    opposite level to the same pin, and succeeds exactly when this second
    write succeeded.  No other pin is written. *)
Theorem pulse_shape pi fw button switchOn ignoreLock s i j :
  contactEstablished s = true ->
  lockPasses pi fw ignoreLock s ->
  outDefinitionFor button (gpioDefs s) = Some i ->
  activeLimitOf (gpioDefs s) i = Some j ->
  nth j activeLimitMilli 0 > 0 ->
  let s1 := afterLock pi fw s in
  let gpio := num (outPinNumberN (gpioDefs s)) i in
  let level := commanded (gpioDefs s) i switchOn in
  let interval := nth j activeLimitMilli 0 in
  let r1 := gpio_write pi (trace s1) gpio level in
  let r2 := gpio_write pi (EvSleep interval :: EvGpioWrite gpio level r1 :: trace s1)
              gpio (1 - level) in
  let s' := snd (pushRoofButton pi fw button switchOn ignoreLock s) in
  fst (pushRoofButton pi fw button switchOn ignoreLock s) = (r1 =? 0) && (r2 =? 0)
  /\ filter isActuation (trace s')
     = ((if r1 =? 0 then [EvGpioWrite gpio (1 - level) r2; EvSleep interval] else [])
        ++ EvGpioWrite gpio level r1 :: filter isActuation (trace s))%list.
Proof.
  intros Hcontact Hlock Hdef Hlimit Hpulse. cbv zeta.
  rewrite (pushRoofButton_found _ _ _ _ _ _ _ Hcontact Hlock Hdef).
  destruct (afterLock_frame pi fw s) as (_ & Hact & _). rewrite <- Hact.
  set (s1 := afterLock pi fw s). clearbody s1.
  cbv zeta. rewrite Hlimit. unfold commanded.
  set (iv := nth j activeLimitMilli 0) in *.
  assert ((iv =? 0) = false) as -> by lia.
  assert (Hgt : (iv >? 0) = true) by lia.
  unfold call_gpio_write. run. cbn [andb negb fst snd]. rewrite Hgt.
  cbn [trace set_trace].
  destruct (wantHighFor (gpioDefs s) i switchOn);
    [change (1 - 1) with 0 | change (1 - 0) with 1];
    match goal with
    | |- context [negb (?r =? 0)] => set (r1 := r)
    end;
    (destruct (Z.eqb_spec r1 0) as [E | E]; cbn [negb fst snd andb];
     [ rewrite E; cbn [trace set_trace];
       match goal with
       | |- context [negb (?r =? 0)] => destruct (r =? 0)
       end; cbn [negb fst snd trace set_trace filter isActuation app];
       split; reflexivity
     | cbn [negb fst snd trace set_trace filter isActuation app];
       split; reflexivity ]).
Qed.

(** LOCK on pin 22 is pulsed for 0.1s and every write succeeds. *)
Lemma pulse_shape_witness :
  let pi := host (high []) 0 (mkTimeval 100 0) in
  let fw := baseClass IPS_IDLE ISS_OFF ISS_OFF in
  let s := connectedDriver exampleDefs false false in
  fst (pushRoofButton pi fw ROOF_LOCK_RELAY true true s) = true
  /\ filter isActuation (trace (snd (pushRoofButton pi fw ROOF_LOCK_RELAY true true s)))
     = [EvGpioWrite 22 0 0; EvSleep 100; EvGpioWrite 22 1 0].
Proof.
  intros pi fw s.
  assert (Hpulse : nth 0 activeLimitMilli 0 > 0) by reflexivity.
  exact (pulse_shape pi fw ROOF_LOCK_RELAY true true s 2 0 eq_refl (or_introl eq_refl)
           eq_refl eq_refl Hpulse).
Defined.

(** X5. A held actuation.  For a definition whose Active Limit is "No Limit"
    and whose function is not OPEN, CLOSE or ABORT, and likewise for any
    definition with no Active Limit switch on at all, an actuation that gets
    past the lock writes the commanded level once and does nothing more: it
    succeeds exactly when the write succeeded, and then the pin stays at the
    commanded level. *)
Theorem held_actuation pi fw button switchOn ignoreLock s i j :
  contactEstablished s = true ->
  lockPasses pi fw ignoreLock s ->
  outDefinitionFor button (gpioDefs s) = Some i ->
  activeLimitOf (gpioDefs s) i = None
  \/ (activeLimitOf (gpioDefs s) i = Some j /\ nth j activeLimitMilli 0 = 0
      /\ isMoveRelay button = false) ->
  let gpio := num (outPinNumberN (gpioDefs s)) i in
  let level := commanded (gpioDefs s) i switchOn in
  let r1 := gpio_write pi (trace (afterLock pi fw s)) gpio level in
  let s' := snd (pushRoofButton pi fw button switchOn ignoreLock s) in
  fst (pushRoofButton pi fw button switchOn ignoreLock s) = (r1 =? 0)
  /\ filter isActuation (trace s')
     = EvGpioWrite gpio level r1 :: filter isActuation (trace s)
  /\ (r1 = 0 -> pin_level (trace s') gpio = Some level).
Proof.
  intros Hcontact Hlock Hdef Hheld. cbv zeta.
  rewrite (pushRoofButton_found _ _ _ _ _ _ _ Hcontact Hlock Hdef).
  destruct (afterLock_frame pi fw s) as (_ & Hact & _). rewrite <- Hact.
  set (s1 := afterLock pi fw s). clearbody s1.
  cbv zeta. unfold commanded.
  assert (Hcase : match activeLimitOf (gpioDefs s) i with
                  | Some j0 =>
                      if (nth j0 activeLimitMilli 0 =? 0) && isMoveRelay button
                      then LOGF DBG_WARNING
                             "%s needs a Active Limit interval, No Limit only available for Lock and Aux."
                             [ArgS button] ;; ret (nth j0 activeLimitMilli 0, false)
                      else ret (nth j0 activeLimitMilli 0, true)
                  | None => ret (0, true)
                  end = ret (0, true)).
  { destruct Hheld as [-> | (-> & -> & ->)]; reflexivity. }
  rewrite Hcase. unfold call_gpio_write. run.
  cbn [negb]. cbv beta iota.
  assert ((0 >? 0) = false) as -> by reflexivity.
  destruct (gpio_write pi (trace s1) _ _ =? 0) eqn:Hr1;
    cbn [negb fst snd trace set_trace filter isActuation];
    (split; [reflexivity |]; split; [reflexivity |]).
  - intros H0. apply pin_level_head, H0.
  - intros H0. rewrite H0 in Hr1. discriminate.
Qed.

(** AUXSET defined on pin 23, active low, "No Limit": switching it on
    writes 0 once. *)
Lemma held_actuation_witness :
  let pi := host (high []) 0 (mkTimeval 100 0) in
  let fw := baseClass IPS_IDLE ISS_OFF ISS_OFF in
  let d := mkGpioDefs [only 6 4] [23] [only 2 1] [only 5 4] [] [] [] in
  let s := connectedDriver d false false in
  fst (pushRoofButton pi fw ROOF_AUX_RELAY true true s) = true
  /\ pin_level (trace (snd (pushRoofButton pi fw ROOF_AUX_RELAY true true s))) 23
     = Some 0.
Proof.
  intros pi fw d s.
  destruct (held_actuation pi fw ROOF_AUX_RELAY true true s 0 4 eq_refl
              (or_introl eq_refl) eq_refl
              (or_intror (conj eq_refl (conj eq_refl eq_refl))))
    as (Hok & _ & Hpin).
  split; [exact Hok | apply Hpin; reflexivity].
Defined.

(** X6. OPEN, CLOSE and ABORT need a pulse.  When the definition of one of
    these three has "No Limit" as its Active Limit, the actuation fails and
    nothing is written to any pin. *)
Theorem move_relay_needs_pulse pi fw button switchOn ignoreLock s i j :
  contactEstablished s = true ->
  outDefinitionFor button (gpioDefs s) = Some i ->
  activeLimitOf (gpioDefs s) i = Some j ->
  nth j activeLimitMilli 0 = 0 ->
  isMoveRelay button = true ->
  fst (pushRoofButton pi fw button switchOn ignoreLock s) = false
  /\ filter isActuation (trace (snd (pushRoofButton pi fw button switchOn ignoreLock s)))
     = filter isActuation (trace s).
Proof.
  intros Hcontact Hdef Hlimit Hzero Hmove.
  destruct (afterLock_frame pi fw s) as (Hd & Hact & _).
  unfold pushRoofButton, afterLock, activeLimitOf in *.
  rewrite bind_eq. unfold gets. cbn [fst snd]. rewrite Hcontact. cbn [negb].
  rewrite bind_eq.
  destruct (getRoofLockedSwitch pi fw s) as [[status roofLocked] s1].
  cbn [fst snd] in *. cbv beta iota. rewrite <- Hact.
  destruct ((negb status || roofLocked) && negb ignoreLock); [split; reflexivity |].
  rewrite bind_eq. cbn [fst snd]. rewrite Hd, Hdef, Hlimit, Hzero, Hmove.
  split; reflexivity.
Qed.

(** OPEN is defined with "No Limit". *)
Lemma move_relay_needs_pulse_witness :
  let pi := host (high []) 0 (mkTimeval 100 0) in
  let fw := baseClass IPS_IDLE ISS_OFF ISS_OFF in
  let d := mkGpioDefs [only 6 0] [17] [only 2 0] [only 5 4] [] [] [] in
  let s := connectedDriver d false false in
  fst (pushRoofButton pi fw ROOF_OPEN_RELAY true false s) = false
  /\ writes (trace (snd (pushRoofButton pi fw ROOF_OPEN_RELAY true false s))) = [].
Proof.
  intros pi fw d s.
  destruct (move_relay_needs_pulse pi fw ROOF_OPEN_RELAY true false s 0 4 eq_refl
              eq_refl eq_refl eq_refl eq_refl) as (Hok & _).
  split; [exact Hok | reflexivity].
Defined.


(** ** What a method adds to the trace *)

Lemma adds_refl (P : Event -> bool) (s : RollOffIno) : adds P s s.
Proof. exists []. split; reflexivity. Qed.

Lemma adds_trans (P : Event -> bool) (s1 s2 s3 : RollOffIno) :
  adds P s1 s2 -> adds P s2 s3 -> adds P s1 s3.
Proof.
  intros (e1 & H1 & F1) (e2 & H2 & F2). exists (e2 ++ e1)%list.
  rewrite H2, H1, app_assoc, forallb_app, F1, F2. split; reflexivity.
Qed.

Lemma adds_same (P : Event -> bool) (s s' : RollOffIno) :
  trace s' = trace s -> adds P s s'.
Proof. intros H. exists []. split; [exact H | reflexivity]. Qed.

Lemma adds_emit (P : Event -> bool) (e : Event) (s s' : RollOffIno) :
  trace s' = e :: trace s -> P e = true -> adds P s s'.
Proof. intros H He. exists [e]. cbn. rewrite He. split; [exact H | reflexivity]. Qed.

Lemma adds_weaken (P Q : Event -> bool) (s s' : RollOffIno) :
  (forall e, P e = true -> Q e = true) -> adds P s s' -> adds Q s s'.
Proof.
  intros HPQ (evs & H & F). exists evs. split; [exact H |].
  rewrite forallb_forall in *. auto.
Qed.

Lemma adds_filter (P Q : Event -> bool) (s s' : RollOffIno) :
  adds P s s' -> (forall e, P e = true -> Q e = false) ->
  filter Q (trace s') = filter Q (trace s).
Proof.
  intros (evs & -> & F) HPQ. apply (filter_events_app _ P); assumption.
Qed.

Ltac adds_leaf :=
  first
    [ apply keeps_modify; intros ?;
      first [ apply adds_same; reflexivity
            | eapply adds_emit; [reflexivity | reflexivity] ]
    | intros ?; cbv zeta; cbn [snd];
      first [ apply adds_same; reflexivity
            | eapply adds_emit; [reflexivity | reflexivity] ] ].

Ltac adds_steps P :=
  repeat first [ adds_leaf | keeps_step (adds_refl P) (adds_trans P) ].

Ltac unfold_driver :=
  unfold Move, Move_status, Abort, TimerHit, TimerHit_poll, CalcTimeLeft,
    initProperties, setRoofLock, setRoofAux, roofOpen, roofClose, roofAbort,
    updateRoofStatus, roofStatusLights, pushRoofButton,
    getFullOpenedLimitSwitch, getFullClosedLimitSwitch, getRoofLockedSwitch,
    getRoofAuxSwitch, readRoofSwitch, call_gpio_read, call_gpio_write;
  unfold_calls.

(** *** Simulation *)

Lemma updateRoofStatus_simulation pi fw :
  isSimulation fw = true -> keeps (adds offline) (updateRoofStatus pi fw).
Proof.
  intros Hsim. unfold_driver. rewrite Hsim. adds_steps offline.
Qed.

(** X7. In simulation the driver stays away from the hardware.  With the
    base class in simulation mode, a move request, an abort, a timer tick, a
    status refresh and a request to set the lock or the auxiliary relay call
    no function on any pin and hold no relay, and setting the lock or the
    auxiliary relay is reported as failed. *)
Theorem simulation_stays_offline pi fw dir operation switchOn :
  isSimulation fw = true ->
  keeps (adds offline) (Move pi fw dir operation)
  /\ keeps (adds offline) (Abort pi fw)
  /\ keeps (adds offline) (TimerHit pi fw)
  /\ keeps (adds offline) (updateRoofStatus pi fw)
  /\ keeps (adds offline) (setRoofLock pi fw switchOn)
  /\ keeps (adds offline) (setRoofAux pi fw switchOn)
  /\ (forall s, fst (setRoofLock pi fw switchOn s) = false
                /\ fst (setRoofAux pi fw switchOn s) = false).
Proof.
  intros Hsim.
  repeat match goal with |- _ /\ _ => split end.
  1-6: unfold_driver; rewrite Hsim; adds_steps offline.
  intros s. unfold setRoofLock, setRoofAux. rewrite Hsim. split; reflexivity.
Qed.

Lemma simulation_stays_offline_witness :
  let pi := host (high []) 0 (mkTimeval 100 0) in
  let fw := mkDomeBase true true IPS_IDLE ISS_OFF ISS_OFF false in
  keeps (adds offline) (Move pi fw DOME_CW MOTION_START)
  /\ keeps (adds offline) (Abort pi fw)
  /\ keeps (adds offline) (TimerHit pi fw)
  /\ keeps (adds offline) (updateRoofStatus pi fw)
  /\ keeps (adds offline) (setRoofLock pi fw true)
  /\ keeps (adds offline) (setRoofAux pi fw true)
  /\ (forall s, fst (setRoofLock pi fw true s) = false
                /\ fst (setRoofAux pi fw true s) = false).
Proof.
  intros pi fw.
  exact (simulation_stays_offline pi fw DOME_CW MOTION_START true eq_refl).
Defined.

(** *** Before contact *)

Lemma withoutContact_refl (s : RollOffIno) : withoutContact s s.
Proof. intros H. split; [exact H | apply adds_refl]. Qed.

Lemma withoutContact_trans (s1 s2 s3 : RollOffIno) :
  withoutContact s1 s2 -> withoutContact s2 s3 -> withoutContact s1 s3.
Proof.
  intros H12 H23 H1. destruct (H12 H1) as [H2 A12].
  destruct (H23 H2) as [H3 A23].
  split; [exact H3 | eapply adds_trans; eassumption].
Qed.

Lemma withoutContact_gets {A : Type} (k : bool -> M A) :
  keeps withoutContact (k false) ->
  keeps withoutContact (bind (gets contactEstablished) k).
Proof.
  intros Hk s Hc. unfold bind, gets. rewrite Hc. apply Hk, Hc.
Qed.

Ltac contact_leaf :=
  first
    [ apply withoutContact_gets; cbn [negb]
    | apply keeps_modify; intros ? ?H; split; [assumption |];
      first [ apply adds_same; reflexivity
            | eapply adds_emit; [reflexivity | reflexivity] ]
    | intros ? ?H; cbv zeta; cbn [snd]; split; [assumption |];
      first [ apply adds_same; reflexivity
            | eapply adds_emit; [reflexivity | reflexivity] ] ].

Ltac contact_steps :=
  repeat first
    [ contact_leaf | keeps_step withoutContact_refl withoutContact_trans ].

Lemma Move_status_withoutContact pi fw : keeps withoutContact (Move_status pi fw).
Proof. unfold_driver. contact_steps. Qed.

(** X8. Before contact is established, that is before a [Connect] that
    reached the pigpiod daemon, a move request, an abort, a timer tick, a
    status refresh and a request to set the lock or the auxiliary relay call
    no function on any pin and hold no relay, and they leave the driver
    without contact; outside simulation, a move request is then never
    answered with [IPS_BUSY]. *)
Theorem before_contact pi fw dir operation switchOn s :
  contactEstablished s = false ->
  untouched s (snd (Move pi fw dir operation s))
  /\ untouched s (snd (Abort pi fw s))
  /\ untouched s (snd (TimerHit pi fw s))
  /\ untouched s (snd (updateRoofStatus pi fw s))
  /\ untouched s (snd (setRoofLock pi fw switchOn s))
  /\ untouched s (snd (setRoofAux pi fw switchOn s))
  /\ (isSimulation fw = false -> fst (Move pi fw dir operation s) <> IPS_BUSY).
Proof.
  intros Hc.
  repeat match goal with |- _ /\ _ => split end.
  1-6: revert s Hc;
    match goal with
    | |- forall s, _ -> untouched s (snd (?m s)) =>
        change (keeps withoutContact m)
    end; unfold_driver; contact_steps.
  intros Hsim. unfold Move. rewrite bind_eq.
  destruct (Move_status_withoutContact pi fw s Hc) as [Hc1 _].
  set (s1 := snd (Move_status pi fw s)) in *. clearbody s1.
  unfold roofOpen, roofClose. rewrite Hsim.
  destruct (without_contact pi fw s1 Hc1) as [_ Hpush].
  destruct operation; [| discriminate].
  run.
  destruct (isOn (roofLockedSwitch s1)); [discriminate |].
  destruct (roofOpening s1); [discriminate |].
  destruct (roofClosing s1); [discriminate |].
  destruct dir.
  - destruct (isOn (fullyOpenedLimitSwitch s1)); [discriminate |].
    destruct (Hpush ROOF_OPEN_RELAY true false) as [Hf _].
    destruct (pushRoofButton pi fw ROOF_OPEN_RELAY true false s1) as [ok s2].
    cbn [fst] in Hf. subst ok. discriminate.
  - destruct (isOn (fullyClosedLimitSwitch s1)); [discriminate |].
    destruct (isLocked fw); [discriminate |].
    destruct (Hpush ROOF_CLOSE_RELAY true false) as [Hf _].
    destruct (pushRoofButton pi fw ROOF_CLOSE_RELAY true false s1) as [ok s2].
    cbn [fst] in Hf. subst ok. discriminate.
Qed.

Lemma before_contact_witness :
  let pi := host (high []) 0 (mkTimeval 100 0) in
  let fw := baseClass IPS_IDLE ISS_OFF ISS_OFF in
  let s := set_gpioDefs exampleDefs newDriver in
  untouched s (snd (Move pi fw DOME_CW MOTION_START s))
  /\ fst (Move pi fw DOME_CW MOTION_START s) <> IPS_BUSY.
Proof.
  intros pi fw s.
  destruct (before_contact pi fw DOME_CW MOTION_START true s eq_refl)
    as (Hmove & _ & _ & _ & _ & _ & Hbusy).
  split; [exact Hmove | exact (Hbusy eq_refl)].
Defined.

(** ** Invariants of the entry points *)

Lemma preserves_refl (I : RollOffIno -> Prop) (s : RollOffIno) : preserves I s s.
Proof. intros H. exact H. Qed.

Lemma preserves_trans (I : RollOffIno -> Prop) (s1 s2 s3 : RollOffIno) :
  preserves I s1 s2 -> preserves I s2 s3 -> preserves I s1 s3.
Proof. unfold preserves. auto. Qed.

(** *** Contact *)

Lemma io_step_contact (s s' : RollOffIno) :
  io_step s s' -> preserves inContact s s'.
Proof.
  intros H Hc. apply io_step_frame in H. unfold inContact in *.
  destruct H as (_ & -> & _). exact Hc.
Qed.

Lemma updateRoofStatus_contact pi fw : keeps (preserves inContact) (updateRoofStatus pi fw).
Proof.
  intros s Hc. pose proof (updateRoofStatus_step pi fw s) as H.
  apply status_step_frame in H. unfold inContact in *.
  destruct H as (_ & -> & _). exact Hc.
Qed.

Lemma pushRoofButton_contact pi fw button switchOn ignoreLock :
  keeps (preserves inContact) (pushRoofButton pi fw button switchOn ignoreLock).
Proof. intros s. apply io_step_contact, pushRoofButton_io. Qed.

Lemma gpioPinSet_contact pi : keeps (preserves inContact) (gpioPinSet pi).
Proof. intros s. apply io_step_contact, gpioPinSet_io. Qed.

Ltac contact_kept_steps :=
  repeat first
    [ apply updateRoofStatus_contact
    | apply pushRoofButton_contact
    | apply gpioPinSet_contact
    | apply keeps_modify; intros ? ?H; solve [assumption | reflexivity]
    | intros ? ?H; cbv zeta; cbn [snd]; solve [assumption | reflexivity]
    | keeps_step (preserves_refl inContact) (preserves_trans inContact) ].

(** X9. Contact is never withdrawn.  No call from outside clears
    [contactEstablished] once [Connect] has set it: not [Disconnect], which
    only stops the pigpiod session, and not the tick that finds too many
    errors and runs [initProperties] again. *)
Theorem contact_never_withdrawn pi s s' :
  step pi s s' -> contactEstablished s = true -> contactEstablished s' = true.
Proof.
  intros Hstep. change (preserves inContact s s').
  destruct Hstep;
    try match goal with
      | |- preserves _ ?s (snd (?m (snd (?m' ?s)))) =>
          apply (preserves_trans _ _ (snd (m' s)))
      end;
    try match goal with
      | |- preserves _ ?s (snd (?m ?s)) => revert s; change (keeps (preserves inContact) m)
      end;
    try (intros H; exact H);
    unfold Move, Move_status, Abort, TimerHit, TimerHit_poll, CalcTimeLeft,
      initProperties, Connect, Disconnect, setRoofLock, setRoofAux,
      roofOpen, roofClose, roofAbort; unfold_calls;
    contact_kept_steps.
Qed.

(** A connected driver is told to disconnect. *)
Lemma contact_never_withdrawn_witness :
  let pi := host (high []) 0 (mkTimeval 100 0) in
  let s := connectedDriver exampleDefs false false in
  contactEstablished (snd (Disconnect s)) = true
  /\ trace (snd (Disconnect s)) = [EvPigpioStop].
Proof.
  intros pi s. split; [| reflexivity].
  exact (contact_never_withdrawn pi s _ (step_Disconnect pi s) eq_refl).
Defined.

(** *** The message counter *)

Lemma io_step_range (s s' : RollOffIno) :
  io_step s s' -> preserves limitMsgInRange s s'.
Proof.
  intros H Hc. apply io_step_frame in H. unfold limitMsgInRange in *.
  destruct H as (_ & _ & _ & _ & _ & _ & _ & -> & _). exact Hc.
Qed.

Lemma updateRoofStatus_range pi fw :
  keeps (preserves limitMsgInRange) (updateRoofStatus pi fw).
Proof.
  intros s Hc. unfold limitMsgInRange in *.
  destruct (stationaryNowhere pi fw s) eqn:Hcond.
  - destruct (updateRoofStatus_stationary pi fw s Hcond) as [-> _].
    destruct (Z.leb_spec (limitMsg s) 10); [lia |].
    destruct (Z.eqb_spec (limitMsg s) 11); lia.
  - rewrite (updateRoofStatus_elsewhere pi fw s Hcond). lia.
Qed.

Lemma pushRoofButton_range pi fw button switchOn ignoreLock :
  keeps (preserves limitMsgInRange) (pushRoofButton pi fw button switchOn ignoreLock).
Proof. intros s. apply io_step_range, pushRoofButton_io. Qed.

Lemma gpioPinSet_range pi : keeps (preserves limitMsgInRange) (gpioPinSet pi).
Proof. intros s. apply io_step_range, gpioPinSet_io. Qed.

Ltac range_steps :=
  repeat first
    [ apply updateRoofStatus_range
    | apply pushRoofButton_range
    | apply gpioPinSet_range
    | apply keeps_modify; intros ? ?H;
      solve [assumption | unfold limitMsgInRange; cbn; lia]
    | intros ? ?H; cbv zeta; cbn [snd];
      solve [assumption | unfold limitMsgInRange; cbn; lia]
    | keeps_step (preserves_refl limitMsgInRange) (preserves_trans limitMsgInRange) ].

Lemma step_range pi s s' : step pi s s' -> preserves limitMsgInRange s s'.
Proof.
  intros Hstep.
  destruct Hstep;
    try match goal with
      | |- preserves _ ?s (snd (?m (snd (?m' ?s)))) =>
          apply (preserves_trans _ _ (snd (m' s)))
      end;
    try match goal with
      | |- preserves _ ?s (snd (?m ?s)) =>
          revert s; change (keeps (preserves limitMsgInRange) m)
      end;
    try (intros H; exact H);
    unfold Move, Move_status, Abort, TimerHit, TimerHit_poll, CalcTimeLeft,
      initProperties, Connect, Disconnect, setRoofLock, setRoofAux,
      roofOpen, roofClose, roofAbort; unfold_calls;
    range_steps.
Qed.

(** X10. The counter behind the throttled "roof stationary" message stays
    between 0 and 12 in every state the driver can reach: it starts at 0,
    [Connect] resets it, and a status derivation resets it, leaves it, or
    adds one as long as it is at most 11. *)
Theorem limitMsg_bounded pi s : reachable pi s -> 0 <= limitMsg s <= 12.
Proof.
  intros Hreach. induction Hreach as [s Hnew | s s' _ IH Hstep].
  - unfold constructed in Hnew.
    destruct Hnew as (_ & _ & _ & _ & _ & _ & _ & _ & _ & _ & _ & _ & -> & _). lia.
  - exact (step_range pi s s' Hstep IH).
Qed.

(** Thirteen ticks on a connected roof that is neither opened nor closed. *)
Lemma limitMsg_bounded_witness :
  let pi := host (high []) 0 (mkTimeval 100 0) in
  let fw := baseClass IPS_IDLE ISS_OFF ISS_OFF in
  let tick s := snd (TimerHit pi fw s) in
  let s := Nat.iter 13 tick (snd (Connect pi (set_gpioDefs exampleDefs newDriver))) in
  limitMsg s = 12 /\ 0 <= limitMsg s <= 12.
Proof.
  intros pi fw tick s. split; [reflexivity |].
  apply (limitMsg_bounded pi).
  assert (Hiter : forall n s0, reachable pi s0 -> reachable pi (Nat.iter n tick s0)).
  { induction n as [|n IH]; intros s0 H0; cbn [Nat.iter].
    - exact H0.
    - eapply reachable_step; [apply IH, H0 | apply step_TimerHit]. }
  apply Hiter.
  eapply reachable_step; [| apply step_Connect].
  eapply reachable_step;
    [apply (reachable_constructed pi newDriver); repeat split
    | exact (step_configure pi exampleDefs 15 [ISS_OFF; ISS_ON] [ISS_OFF; ISS_ON] newDriver)].
Defined.

(** ** Configuration of the pins *)

Section KeepsIn.

Variable R : RollOffIno -> RollOffIno -> Prop.
Hypothesis R_refl : forall s, R s s.
Hypothesis R_trans : forall s1 s2 s3, R s1 s2 -> R s2 s3 -> R s1 s3.

Lemma keeps_for_break_in {A : Type} (l : list nat) (body : nat -> A -> M (A * bool)) :
  (forall k r, In k l -> keeps R (body k r)) -> forall r, keeps R (for_break l body r).
Proof.
  induction l as [|k l IH]; intros Hbody r; cbn [for_break].
  - apply keeps_ret, R_refl.
  - apply keeps_bind; [exact R_trans | apply Hbody; left; reflexivity |].
    intros [r' brk]. destruct brk; [apply keeps_ret, R_refl |].
    apply IH. intros k' r0 Hk'. apply Hbody. right. exact Hk'.
Qed.

Lemma keeps_for_each_in {A : Type} (l : list nat) (body : nat -> A -> M A) :
  (forall k r, In k l -> keeps R (body k r)) -> forall r, keeps R (for_each l body r).
Proof.
  induction l as [|k l IH]; intros Hbody r; cbn [for_each].
  - apply keeps_ret, R_refl.
  - apply keeps_bind; [exact R_trans | apply Hbody; left; reflexivity |].
    intros r'. apply IH. intros k' r0 Hk'. apply Hbody. right. exact Hk'.
Qed.

End KeepsIn.

Lemma pinSet_step_refl d (s : RollOffIno) : pinSet_step d s s.
Proof. intros _. exists []. destruct s; split; reflexivity. Qed.

Lemma pinSet_step_trans d (s1 s2 s3 : RollOffIno) :
  pinSet_step d s1 s2 -> pinSet_step d s2 s3 -> pinSet_step d s1 s3.
Proof.
  intros H12 H23 Hd. destruct (H12 Hd) as (e1 & -> & F1).
  destruct H23 as (e2 & -> & F2); [destruct s1; exact Hd |].
  exists (e2 ++ e1)%list. rewrite forallb_app, F1, F2.
  destruct s1; cbn. rewrite app_assoc. split; reflexivity.
Qed.

Lemma pinSet_step_emit d (e : Event) (s : RollOffIno) :
  pinSetEvent d e = true -> pinSet_step d s (set_trace (e :: trace s) s).
Proof.
  intros He _. exists [e]. cbn [forallb]. rewrite He. split; reflexivity.
Qed.

Lemma pinSet_step_gets d {A : Type} (k : GpioDefs -> M A) :
  keeps (pinSet_step d) (k d) -> keeps (pinSet_step d) (bind (gets gpioDefs) k).
Proof.
  intros Hk s Hd. unfold bind, gets. rewrite Hd. apply Hk, Hd.
Qed.

Lemma someOutput_intro d i (p : nat -> bool) :
  In i (seq 0 MAX_OUT_DEFS) -> outputUsed d i = true -> p i = true ->
  someOutput d (num (outPinNumberN d) i) p = true.
Proof.
  intros Hi Hu Hp. apply existsb_exists. exists i. split; [exact Hi |].
  rewrite Hu, Hp, Z.eqb_refl. reflexivity.
Qed.

Lemma someInput_intro d i (p : nat -> bool) :
  In i (seq 0 MAX_INP_DEFS) -> inputUsed d i = true -> p i = true ->
  someInput d (num (inpPinNumberN d) i) p = true.
Proof.
  intros Hi Hu Hp. apply existsb_exists. exists i. split; [exact Hi |].
  rewrite Hu, Hp, Z.eqb_refl. reflexivity.
Qed.

Ltac pinSet_event :=
  cbn [pinSetEvent];
  first
    [ reflexivity
    | apply someOutput_intro; [assumption | assumption |];
      first [reflexivity | apply Z.eqb_refl]
    | apply someInput_intro; [assumption | assumption |];
      first [ reflexivity
            | match goal with
              | H : pullFor _ _ = _ |- _ => cbv beta; rewrite H; reflexivity
              end ] ].

Ltac pinSet_steps d :=
  repeat first
    [ apply keeps_modify; intros ?; apply pinSet_step_emit; pinSet_event
    | intros ?; cbv zeta; cbn [snd]; apply pinSet_step_emit; pinSet_event
    | keeps_step (pinSet_step_refl d) (pinSet_step_trans d) ].

Lemma gpioPinSet_output_events pi d i j r :
  In i (seq 0 MAX_OUT_DEFS) -> In j (seq 0 MAX_OUT_OPS) ->
  keeps (pinSet_step d) (gpioPinSet_output pi i j r).
Proof.
  intros Hi Hj. unfold gpioPinSet_output. destruct r as [required sTime].
  apply pinSet_step_gets.
  destruct (negb (isOn (sw (outFunctionS d) i j))
            || strcmp0 (outFunctionS_name j) "Unused") eqn:Hsel.
  - apply keeps_ret, pinSet_step_refl.
  - assert (Hused : outputUsed d i = true).
    { apply existsb_exists. exists j. split; [exact Hj |].
      apply orb_false_iff in Hsel. destruct Hsel as [H1 H2].
      apply negb_false_iff in H1. rewrite H1, H2. reflexivity. }
    clear Hsel. cbv zeta.
    unfold call_set_mode, call_set_pull_up_down, call_gpio_write. unfold_calls.
    fold (restLevel d i).
    pinSet_steps d.
Qed.

Lemma gpioPinSet_input_events pi d i j r :
  In i (seq 0 MAX_INP_DEFS) -> In j (seq 0 MAX_INP_OPS) ->
  keeps (pinSet_step d) (gpioPinSet_input pi i j r).
Proof.
  intros Hi Hj. unfold gpioPinSet_input.
  apply pinSet_step_gets.
  destruct (negb (isOn (sw (inpFunctionS d) i j))
            || strcmp0 (inpFunctionS_name j) "Unused") eqn:Hsel.
  - apply keeps_ret, pinSet_step_refl.
  - assert (Hused : inputUsed d i = true).
    { apply existsb_exists. exists j. split; [exact Hj |].
      apply orb_false_iff in Hsel. destruct Hsel as [H1 H2].
      apply negb_false_iff in H1. rewrite H1, H2. reflexivity. }
    clear Hsel. cbv zeta.
    unfold call_set_mode, call_set_pull_up_down. unfold_calls.
    fold (pullFor d i).
    destruct (pullFor d i) eqn:Hpull;
      [ exfalso; unfold pullFor in Hpull;
        destruct (strcmp0 _ "High"); discriminate | | ];
      pinSet_steps d.
Qed.

Lemma gpioPinSet_events pi d : keeps (pinSet_step d) (gpioPinSet pi).
Proof.
  unfold gpioPinSet, gpioPinSet_required. unfold_calls.
  apply (keeps_bind _ (pinSet_step_trans d));
    [apply keeps_modify; intros ?; apply pinSet_step_emit; reflexivity | intros _].
  apply (keeps_bind _ (pinSet_step_trans d)).
  - apply (keeps_bind _ (pinSet_step_trans d)).
    + apply (keeps_for_each_in _ (pinSet_step_refl d) (pinSet_step_trans d)).
      intros i r Hi.
      apply (keeps_for_break_in _ (pinSet_step_refl d) (pinSet_step_trans d)).
      intros j r' Hj. apply gpioPinSet_output_events; assumption.
    + intros r.
      apply (keeps_for_each_in _ (pinSet_step_refl d) (pinSet_step_trans d)).
      intros i r0 Hi.
      apply (keeps_for_break_in _ (pinSet_step_refl d) (pinSet_step_trans d)).
      intros j r' Hj. apply gpioPinSet_input_events; assumption.
  - intros required. apply (keeps_when _ (pinSet_step_refl d)).
    apply keeps_modify; intros ?; apply pinSet_step_emit; reflexivity.
Qed.

(** The calls that [pinSetup] lists for a used definition. *)
Lemma pinSetup_output d i x :
  (i < MAX_OUT_DEFS)%nat -> outputUsed d i = true ->
  In x [CallSetMode (num (outPinNumberN d) i) PI_OUTPUT;
        CallSetPud (num (outPinNumberN d) i) PI_PUD_OFF;
        CallWrite (num (outPinNumberN d) i) (restLevel d i)] ->
  In x (pinSetup d).
Proof.
  intros Hi Hu Hx. unfold outputUsed in Hu.
  apply existsb_exists in Hu. destruct Hu as (j & Hj & Hon).
  apply andb_prop in Hon. destruct Hon as [Hon Hname].
  apply negb_true_iff in Hname.
  unfold pinSetup. apply in_or_app. left.
  apply in_flat_map. exists i. split; [apply in_seq; lia |].
  apply in_flat_map. exists j. split; [exact Hj |].
  unfold outputSetup. rewrite Hon, Hname. exact Hx.
Qed.

Lemma pinSetup_input d i x :
  (i < MAX_INP_DEFS)%nat -> inputUsed d i = true ->
  In x [CallSetMode (num (inpPinNumberN d) i) PI_INPUT;
        CallSetPud (num (inpPinNumberN d) i) (pullFor d i)] ->
  In x (pinSetup d).
Proof.
  intros Hi Hu Hx. unfold inputUsed in Hu.
  apply existsb_exists in Hu. destruct Hu as (j & Hj & Hon).
  apply andb_prop in Hon. destruct Hon as [Hon Hname].
  apply negb_true_iff in Hname.
  unfold pinSetup. apply in_or_app. right.
  apply in_flat_map. exists i. split; [apply in_seq; lia |].
  apply in_flat_map. exists j. split; [exact Hj |].
  unfold inputSetup. rewrite Hon, Hname. exact Hx.
Qed.

(** X11. What [gpioPinSet] does.  It changes nothing in the driver but the
    trace, reads no pin and holds no relay, and every call it makes is for a
    definition in which a function other than "Unused" is switched on: a
    write is at the rest level of such an output definition.  When the
    daemon accepts the requests, its calls on the pins are exactly those of
    [pinSetup], in that order: for each output definition in turn and each
    function other than "Unused" switched on in it, the pin is put in output
    mode, its pull resistor is switched off and its rest level is written;
    then, for each input definition and each such function, the pin is put
    in input mode and given the pull resistor of its polarity.  So every
    used output pin is put in output mode and written at its rest level, and
    every used input pin is put in input mode with its pull resistor; a pin
    that several definitions or functions share is set up once for each. *)
Theorem gpioPinSet_configures_used_definitions pi s :
  let d := gpioDefs s in
  exists evs,
    snd (gpioPinSet pi s) = set_trace (evs ++ trace s) s
    /\ forallb (pinSetEvent d) evs = true
    /\ (forall g level r, In (EvGpioWrite g level r) evs ->
          exists i, (i < MAX_OUT_DEFS)%nat /\ outputUsed d i = true
                    /\ g = num (outPinNumberN d) i /\ level = restLevel d i)
    /\ (forall g r, ~ In (EvGpioRead g r) evs)
    /\ (forall mSec, ~ In (EvSleep mSec) evs)
    /\ (daemonAccepts pi ->
        pinCalls evs = pinSetup d
        /\ (forall i, (i < MAX_OUT_DEFS)%nat -> outputUsed d i = true ->
              let g := num (outPinNumberN d) i in
              In (CallSetMode g PI_OUTPUT) (pinCalls evs)
              /\ In (CallSetPud g PI_PUD_OFF) (pinCalls evs)
              /\ In (CallWrite g (restLevel d i)) (pinCalls evs))
        /\ (forall i, (i < MAX_INP_DEFS)%nat -> inputUsed d i = true ->
              let g := num (inpPinNumberN d) i in
              In (CallSetMode g PI_INPUT) (pinCalls evs)
              /\ In (CallSetPud g (pullFor d i)) (pinCalls evs))).
Proof.
  cbv zeta. destruct (gpioPinSet_events pi (gpioDefs s) s eq_refl) as (evs & Hs & F).
  exists evs. split; [exact Hs |]. split; [exact F |].
  rewrite forallb_forall in F.
  split; [| split; [| split]].
  - intros g level r Hin. apply F in Hin. cbn [pinSetEvent] in Hin.
    apply existsb_exists in Hin. destruct Hin as (i & Hi & Hp).
    apply in_seq in Hi.
    apply andb_prop in Hp. destruct Hp as [Hp Hl].
    apply andb_prop in Hp. destruct Hp as [Hu Hg].
    exists i. repeat split; [apply Hi | exact Hu | |]; lia.
  - intros g r Hin. apply F in Hin. discriminate.
  - intros mSec Hin. apply F in Hin. discriminate.
  - intros Hpi.
    destruct (gpioPinSet_runs pi s Hpi) as (_ & evs' & Hs' & Hcalls & _).
    assert (Hsame : evs' = evs).
    { rewrite Hs in Hs'. apply (f_equal trace) in Hs'. cbn [trace set_trace] in Hs'.
      symmetry. exact (app_inv_tail _ _ _ Hs'). }
    subst evs'. rewrite Hcalls.
    split; [reflexivity |]. split.
    + intros i Hi Hu.
      repeat split; apply (pinSetup_output _ i); try assumption; cbn [In]; tauto.
    + intros i Hi Hu.
      repeat split; apply (pinSetup_input _ i); try assumption; cbn [In]; tauto.
Qed.

(** The example definitions on a daemon that accepts every request: the
    relays on pins 17, 18 and 22 are set up and written 0, then the switches
    on pins 5, 6 and 13 are set up with pull-down. *)
Lemma gpioPinSet_configures_used_definitions_witness :
  let pi := host (high []) 0 (mkTimeval 100 0) in
  let s := connectedDriver exampleDefs false false in
  pinCalls (trace (snd (gpioPinSet pi s)))
  = [CallSetMode 17 PI_OUTPUT; CallSetPud 17 PI_PUD_OFF; CallWrite 17 0;
     CallSetMode 18 PI_OUTPUT; CallSetPud 18 PI_PUD_OFF; CallWrite 18 0;
     CallSetMode 22 PI_OUTPUT; CallSetPud 22 PI_PUD_OFF; CallWrite 22 0;
     CallSetMode 5 PI_INPUT; CallSetPud 5 PI_PUD_DOWN;
     CallSetMode 6 PI_INPUT; CallSetPud 6 PI_PUD_DOWN;
     CallSetMode 13 PI_INPUT; CallSetPud 13 PI_PUD_DOWN].
Proof.
  intros pi s.
  assert (Hpi : daemonAccepts pi) by (split; reflexivity).
  destruct (gpioPinSet_configures_used_definitions pi s)
    as (evs & Hs & _ & _ & _ & _ & Hex).
  destruct (Hex Hpi) as (Hcalls & _).
  rewrite Hs. cbn [trace set_trace].
  change (trace s) with (@nil Event). rewrite app_nil_r, Hcalls.
  reflexivity.
Defined.

(** X12. The two sides of a polarity.  When one of the two "Active When"
    switches of an output definition is on, the first level that
    [pushRoofButton] writes is the opposite of the rest level that
    [gpioPinSet] wrote for switching on, and that rest level for switching
    off.  When neither is on, [gpioPinSet] takes the relay to be active low
    and rests it at 1, while [pushRoofButton] writes 0 first whether it
    switches on or off.  An input that is left at the level of the pull
    resistor [gpioPinSet] selected reads as not active. *)
Theorem polarity_agreement d i switchOn level :
  (isOn (sw (outActivateWhenS d) i 0) = true
   \/ isOn (sw (outActivateWhenS d) i 1) = true ->
   commanded d i switchOn = if switchOn then activeLevel d i else restLevel d i)
  /\ (isOn (sw (outActivateWhenS d) i 0) = false ->
      isOn (sw (outActivateWhenS d) i 1) = false ->
      commanded d i switchOn = 0 /\ restLevel d i = 1)
  /\ (pulledLevel (pullFor d i) = Some level ->
      sensorValue (isOn (sw (inpActivateWhenS d) i 0))
        (isOn (sw (inpActivateWhenS d) i 1)) level = false).
Proof.
  unfold commanded, wantHighFor, activeLevel, restLevel, pullFor, sensorValue.
  split; [| split].
  - intros [H | H].
    + rewrite H. destruct switchOn; reflexivity.
    + rewrite H. destruct (isOn (sw (outActivateWhenS d) i 0)), switchOn; reflexivity.
  - intros -> ->. split; reflexivity.
  - destruct (isOn (sw (inpActivateWhenS d) i 0)),
      (isOn (sw (inpActivateWhenS d) i 1)); cbn; intros [= <-]; reflexivity.
Qed.

(** LOCK of the example (definition 2) is active high; definition 3 has no
    polarity selected; OPENED (input definition 0) is active high. *)
Lemma polarity_agreement_witness :
  (commanded exampleDefs 2 true = 1 /\ restLevel exampleDefs 2 = 0)
  /\ (commanded exampleDefs 3 true = 0 /\ restLevel exampleDefs 3 = 1)
  /\ sensorValue true false 0 = false.
Proof.
  destruct (polarity_agreement exampleDefs 2 true 0) as (Hon & _ & Hpull).
  destruct (polarity_agreement exampleDefs 3 true 0) as (_ & Hnone & _).
  split; [split; [exact (Hon (or_introl eq_refl)) | reflexivity] |].
  split; [exact (Hnone eq_refl eq_refl) |].
  exact (Hpull eq_refl).
Defined.




(** ** The timer tick *)

(** X14. A tick that finds the base class not connected reads the clock and
    does nothing else: no status refresh, no change of the driver, and no
    request for a further tick. *)
Theorem tick_without_connection pi fw s :
  isConnected fw = false ->
  snd (TimerHit pi fw s)
  = set_trace (EvGettimeofday (gettimeofday pi (trace s)) :: trace s) s.
Proof.
  intros Hconn. unfold TimerHit, CalcTimeLeft, call_gettimeofday. run.
  rewrite Hconn. reflexivity.
Qed.

Lemma tick_without_connection_witness :
  let pi := host (high []) 0 (mkTimeval 100 0) in
  let fw := mkDomeBase false false IPS_BUSY ISS_ON ISS_OFF false in
  let s := connectedDriver exampleDefs true false in
  trace (snd (TimerHit pi fw s)) = [EvGettimeofday (mkTimeval 100 0)]
  /\ filter isSetTimer (trace (snd (TimerHit pi fw s))) = [].
Proof.
  intros pi fw s.
  rewrite (tick_without_connection pi fw s eq_refl). split; reflexivity.
Defined.

Lemma status_step_adds (s s' : RollOffIno) :
  status_step s s' -> adds status_event s s'.
Proof.
  intros (evs & n & lights & summary & opening & closing & o & c & l & a
          & -> & H & _).
  exists evs. destruct s; split; [reflexivity | exact H].
Qed.

Lemma polled_adds pi fw s : adds pollEvent s (polled pi fw s).
Proof.
  destruct (polled_from pi fw s) as (s0 & Hp & _ & _ & _ & _ & _ & _ & Ht).
  rewrite Hp. apply (adds_trans _ _ s0).
  - eapply adds_emit; [exact Ht | reflexivity].
  - apply (adds_weaken status_event).
    + intros e He. unfold pollEvent. rewrite He. reflexivity.
    + apply status_step_adds, updateRoofStatus_step.
Qed.

Lemma pollEvent_inner (e : Event) : pollEvent e = true -> tickInner e = true.
Proof.
  destruct e as [| | | | | | | | | c]; try reflexivity.
  destruct c; try reflexivity. discriminate.
Qed.

Ltac same_steps I :=
  repeat first
    [ apply keeps_modify; intros ? ?H; exact H
    | intros ? ?H; cbv zeta; cbn [snd]; exact H
    | keeps_step (preserves_refl I) (preserves_trans I) ].

Lemma TimerHit_shape pi fw s :
  isConnected fw = true ->
  exists mid,
    beforeRearm pi fw s (snd (TimerHit pi fw s))
      (if motionContinues pi fw s then ACTIVE_POLL_MS else INACTIVE_TIMING) mid
    /\ adds tickInner s mid
    /\ MotionRequest mid = MotionRequest s.
Proof.
  intros Hconn. rewrite (TimerHit_connected pi fw s Hconn).
  unfold motionContinues.
  destruct (polled_frame pi fw s) as (Hmr & _).
  pose proof (polled_adds pi fw s) as Hadds.
  apply (adds_weaken _ tickInner _ _ pollEvent_inner) in Hadds.
  rewrite <- Hmr.
  set (p := polled pi fw s) in *. clearbody p.
  rewrite bind_eq.
  match goal with
  | |- context [snd (?m p)] => set (motion := m)
  end.
  assert (Hdelay : fst (motion p)
                   = if IPState_eqb (DomeMotionSP_s fw) IPS_BUSY
                        && negb (MotionRequest p <? 0)
                        && (if isOn (DomeMotionS fw DOME_CW)
                            then negb (isOn (fullyOpenedLimitSwitch p))
                            else isOn (DomeMotionS fw DOME_CCW)
                                 && negb (isOn (fullyClosedLimitSwitch p)))
                        && negb (Qle_bool (timeleftAt pi s) 0)
                     then ACTIVE_POLL_MS else INACTIVE_TIMING).
  { unfold motion. run.
    destruct (IPState_eqb (DomeMotionSP_s fw) IPS_BUSY); [| reflexivity].
    destruct (MotionRequest p <? 0); [reflexivity |].
    destruct (isOn (DomeMotionS fw DOME_CW)).
    - destruct (isOn (fullyOpenedLimitSwitch p)); [reflexivity |].
      destruct (Qle_bool (timeleftAt pi s) 0); reflexivity.
    - destruct (isOn (DomeMotionS fw DOME_CCW)); [| reflexivity].
      destruct (isOn (fullyClosedLimitSwitch p)); [reflexivity |].
      destruct (Qle_bool (timeleftAt pi s) 0); reflexivity. }
  assert (Hm1 : keeps (adds tickInner) motion).
  { unfold motion. unfold_calls. adds_steps tickInner. }
  assert (Hm2 : keeps (preserves (fun x => MotionRequest x = MotionRequest p)) motion).
  { unfold motion. unfold_calls.
    same_steps (fun x => MotionRequest x = MotionRequest p). }
  specialize (Hm1 p). specialize (Hm2 p eq_refl). cbv beta in Hm2.
  rewrite <- Hdelay.
  set (delay := fst (motion p)) in *. set (p1 := snd (motion p)) in *.
  clearbody delay p1. clear Hdelay motion.
  rewrite bind_eq. unfold gets at 1. cbn [fst snd]. rewrite bind_eq.
  change (snd (gets communicationErrors p1)) with p1.
  match goal with
  | |- context [snd (when ?c ?m p1)] => set (errors := when c m)
  end.
  assert (He1 : keeps (adds tickInner) errors).
  { unfold errors, initProperties. unfold_calls. adds_steps tickInner. }
  assert (He2 : keeps (preserves (fun x => MotionRequest x = MotionRequest p)) errors).
  { unfold errors, initProperties. unfold_calls.
    same_steps (fun x => MotionRequest x = MotionRequest p). }
  specialize (He1 p1). specialize (He2 p1 Hm2). cbv beta in He2.
  set (p2 := snd (errors p1)) in *. clearbody p2. clear errors.
  exists p2. split; [| split].
  - unfold beforeRearm, call_gettimeofday. run. reflexivity.
  - eauto using adds_trans.
  - exact He2.
Qed.

(** X15. A tick of a connected driver ends by reading the clock into
    [MotionStart] and asking for the next tick, once: after
    [ACTIVE_POLL_MS] when it found a motion under way that is not aborted,
    not arrived and not expired, after [INACTIVE_TIMING] otherwise.
    [MotionRequest] is left as it was.  So the time left that the next tick
    works with is the full [MotionRequest] less the time since this tick,
    not since the move began. *)
Theorem tick_restarts_motion_clock pi fw s :
  isConnected fw = true ->
  let s' := snd (TimerHit pi fw s) in
  let delay := if motionContinues pi fw s then ACTIVE_POLL_MS else INACTIVE_TIMING in
  exists now rest,
    trace s' = EvDome (SetTimer delay) :: EvGettimeofday now :: rest
    /\ now = gettimeofday pi rest
    /\ MotionStart s' = now
    /\ MotionRequest s' = MotionRequest s
    /\ filter isSetTimer (trace s')
       = EvDome (SetTimer delay) :: filter isSetTimer (trace s)
    /\ timeleftAt pi s'
       = (inject_Z (MotionRequest s)
          - inject_Z (millis (gettimeofday pi (trace s')) - millis now)
            / inject_Z 1000)%Q.
Proof.
  intros Hconn. cbv zeta.
  destruct (TimerHit_shape pi fw s Hconn) as (mid & Hs' & Hadds & Hmr).
  unfold beforeRearm in Hs'. cbv zeta in Hs'. rewrite Hs'.
  exists (gettimeofday pi (trace mid)), (trace mid).
  assert (Hf : filter isSetTimer (trace mid) = filter isSetTimer (trace s)).
  { apply (adds_filter tickInner); [exact Hadds |].
    intros e He. unfold tickInner in He. apply negb_true_iff, He. }
  unfold timeleftAt, CalcTimeLeft, call_gettimeofday. run.
  destruct mid; cbn in *. subst. rewrite Hf. repeat split.
Qed.

(** An opening with 15s allowed was ticked at 100.0s; the next tick comes at
    the same clock reading and finds all 15s left. *)
Lemma tick_restarts_motion_clock_witness :
  let pi := host (high []) 0 (mkTimeval 100 0) in
  let fw := baseClass IPS_BUSY ISS_ON ISS_OFF in
  let s := set_MotionStart (mkTimeval 99 0)
             (set_MotionRequest 15 (connectedDriver exampleDefs true false)) in
  let s' := snd (TimerHit pi fw s) in
  MotionStart s' = mkTimeval 100 0
  /\ filter isSetTimer (trace s') = [EvDome (SetTimer ACTIVE_POLL_MS)]
  /\ (timeleftAt pi s == 14)%Q /\ (timeleftAt pi s' == 15)%Q.
Proof.
  intros pi fw s s'.
  destruct (tick_restarts_motion_clock pi fw s eq_refl)
    as (now & rest & Ht & Hnow & Hstart & _ & Htimer & _).
  subst s'.
  split; [rewrite Hstart, Hnow; reflexivity |].
  split; [rewrite Htimer; reflexivity |]. split; vm_compute; reflexivity.
Defined.

Lemma pollEvent_not_parked (e : Event) :
  pollEvent e = true -> isSetParked e = false.
Proof.
  destruct e as [| | | | | | | | | c]; try reflexivity.
  destruct c; try reflexivity. discriminate.
Qed.

Lemma TimerHit_arrival pi fw dir s :
  isConnected fw = true ->
  DomeMotionSP_s fw = IPS_BUSY ->
  0 <= MotionRequest s ->
  motionTowards fw dir ->
  limitSwitch dir (polled pi fw s) = ISS_ON ->
  let s' := snd (TimerHit pi fw s) in
  filter isSetParked (trace s')
  = EvDome (SetParked match dir with DOME_CW => false | DOME_CCW => true end)
    :: filter isSetParked (trace s)
  /\ filter isSetIdle (trace s') = filter isSetIdle (trace s)
  /\ roofTimedOut s' = roofTimedOut s
  /\ motionContinues pi fw s = false.
Proof.
  intros Hconn Hbusy Hreq Hdir Hlimit.
  destruct (polled_frame pi fw s) as (Hmr & _ & Hto & _ & _ & Hidle & _).
  pose proof (adds_filter _ isSetParked _ _ (polled_adds pi fw s)
                pollEvent_not_parked) as Hparked.
  assert (Hcont : motionContinues pi fw s = false).
  { unfold motionContinues. rewrite Hbusy.
    unfold motionTowards, DomeMotionS in *.
    destruct dir; cbn [limitSwitch] in Hlimit.
    - rewrite Hdir, Hlimit. cbn [isOn negb IPState_eqb andb].
      rewrite andb_false_r. reflexivity.
    - destruct Hdir as [-> ->]. rewrite Hlimit. cbn [isOn negb IPState_eqb andb].
      rewrite andb_false_r. reflexivity. }
  cbv zeta. rewrite (TimerHit_connected pi fw s Hconn).
  set (p := polled pi fw s) in *. clearbody p.
  rewrite Hbusy. cbn [IPState_eqb]. unfold initProperties. run.
  rewrite Hmr. assert ((MotionRequest s <? 0) = false) as -> by lia.
  unfold motionTowards, DomeMotionS in *.
  destruct dir; cbn [limitSwitch] in Hlimit.
  - rewrite Hdir. cbn [isOn fst snd]. rewrite Hlimit. cbn [isOn fst snd].
    destruct (communicationErrors _ >? MAX_CNTRL_COM_ERR); cbn;
      rewrite Hidle, Hparked, Hto; repeat split; exact Hcont.
  - destruct Hdir as [Hcw Hccw]. rewrite Hcw, Hccw. cbn [isOn fst snd].
    rewrite Hlimit. cbn [isOn fst snd].
    destruct (communicationErrors _ >? MAX_CNTRL_COM_ERR); cbn;
      rewrite Hidle, Hparked, Hto; repeat split; exact Hcont.
Qed.

(** X16. Arrival.  A tick of a connected driver finds the base class busy
    with a motion in direction [dir] that was not aborted, and the limit
    switch of that direction on after the status refresh.  Then it reports
    the roof unparked (opening) or parked (closing) to the base class, once,
    whatever the time left; it does not ask for [DOME_IDLE], records no
    timeout and asks for the next tick after [INACTIVE_TIMING]. *)
Theorem tick_arrival pi fw dir s :
  isConnected fw = true ->
  DomeMotionSP_s fw = IPS_BUSY ->
  0 <= MotionRequest s ->
  motionTowards fw dir ->
  limitSwitch dir (polled pi fw s) = ISS_ON ->
  let s' := snd (TimerHit pi fw s) in
  filter isSetParked (trace s')
  = EvDome (SetParked match dir with DOME_CW => false | DOME_CCW => true end)
    :: filter isSetParked (trace s)
  /\ filter isSetIdle (trace s') = filter isSetIdle (trace s)
  /\ roofTimedOut s' = roofTimedOut s
  /\ filter isSetTimer (trace s')
     = EvDome (SetTimer INACTIVE_TIMING) :: filter isSetTimer (trace s).
Proof.
  intros Hconn Hbusy Hreq Hdir Hlimit. cbv zeta.
  destruct (TimerHit_arrival pi fw dir s Hconn Hbusy Hreq Hdir Hlimit)
    as (Hparked & Hidle & Hto & Hcont).
  repeat (split; [assumption |]).
  destruct (TimerHit_shape pi fw s Hconn) as (mid & Hs' & Hadds & _).
  rewrite Hcont in Hs'. unfold beforeRearm in Hs'. cbv zeta in Hs'. rewrite Hs'.
  assert (Hf : filter isSetTimer (trace mid) = filter isSetTimer (trace s)).
  { apply (adds_filter tickInner); [exact Hadds |].
    intros e He. unfold tickInner in He. apply negb_true_iff, He. }
  destruct mid; cbn in *. rewrite Hf. reflexivity.
Qed.

(** The roof is closing, the CLOSED switch on pin 6 reads active and the
    time allowed ran out long ago. *)
Lemma tick_arrival_witness :
  let pi := host (high [6]) 0 (mkTimeval 100 0) in
  let fw := baseClass IPS_BUSY ISS_OFF ISS_ON in
  let s := set_MotionRequest 15 (connectedDriver exampleDefs false true) in
  let s' := snd (TimerHit pi fw s) in
  filter isSetParked (trace s') = [EvDome (SetParked true)]
  /\ filter isSetIdle (trace s') = []
  /\ roofTimedOut s' = EXPIRED_CLEAR.
Proof.
  intros pi fw s s'.
  assert (Hreq : 0 <= MotionRequest s) by (vm_compute; discriminate).
  destruct (tick_arrival pi fw DOME_CCW s eq_refl eq_refl Hreq
              (conj eq_refl eq_refl) eq_refl) as (Hp & Hi & Hto & _).
  split; [exact Hp |]. split; [exact Hi | exact Hto].
Defined.

(** ** Abort *)

Lemma roofAbort_io pi fw : keeps io_step (roofAbort pi fw).
Proof.
  unfold roofAbort. destruct (isSimulation fw);
    [intros s; apply io_step_refl | apply pushRoofButton_io].
Qed.

Lemma TimerHit_aborted pi fw s :
  isConnected fw = true ->
  DomeMotionSP_s fw = IPS_BUSY ->
  MotionRequest s < 0 ->
  let s' := snd (TimerHit pi fw s) in
  filter isSetIdle (trace s')
  = EvDome (setDomeState DOME_IDLE) :: filter isSetIdle (trace s)
  /\ filter isSetParked (trace s') = filter isSetParked (trace s)
  /\ roofTimedOut s' = roofTimedOut s.
Proof.
  intros Hconn Hbusy Hreq.
  destruct (polled_frame pi fw s) as (Hmr & _ & Hto & _ & _ & Hidle & _).
  pose proof (adds_filter _ isSetParked _ _ (polled_adds pi fw s)
                pollEvent_not_parked) as Hparked.
  cbv zeta. rewrite (TimerHit_connected pi fw s Hconn).
  set (p := polled pi fw s) in *. clearbody p.
  rewrite Hbusy. cbn [IPState_eqb]. unfold initProperties. run.
  rewrite Hmr. assert ((MotionRequest s <? 0) = true) as -> by lia.
  cbn [fst snd].
  destruct (communicationErrors _ >? MAX_CNTRL_COM_ERR); cbn;
    rewrite Hidle, Hparked, Hto; repeat split.
Qed.

Lemma Abort_busy pi fw s :
  DomeMotionSP_s fw = IPS_BUSY ->
  roofLockedSwitch (refreshed pi fw s) = ISS_OFF ->
  let s1 := snd (Abort pi fw s) in
  MotionRequest s1 = -1 /\ roofOpening s1 = false /\ roofClosing s1 = false.
Proof.
  intros Hbusy Hlock. cbv zeta. unfold Abort, refreshed in *. rewrite bind_eq.
  set (p := snd (updateRoofStatus pi fw s)) in *. clearbody p. run.
  rewrite Hlock, Hbusy. cbn [isOn IPState_eqb negb].
  rewrite !andb_false_r.
  destruct (isOn (DomeMotionS fw DOME_CW));
    [| destruct (isOn (DomeMotionS fw DOME_CCW))];
    match goal with
    | |- context [roofAbort pi fw ?x] =>
        pose proof (roofAbort_io pi fw x) as Hio;
          destruct (roofAbort pi fw x) as [ok q]
    end;
    cbn [snd] in Hio; apply io_step_frame in Hio;
    destruct Hio as (_ & _ & _ & _ & Hmr & Hro & Hrc & _);
    (destruct (negb (isOn (fullyOpenedLimitSwitch q))
              && negb (isOn (fullyClosedLimitSwitch q))); cbn;
     rewrite Hmr, Hro, Hrc; repeat split).
Qed.

(** X17. Abort of a motion.  When the base class is busy and the lock
    switch is off after the status refresh, [Abort] clears both motion flags
    and sets [MotionRequest] to -1.  The next tick of a connected driver
    that still finds the base class busy then asks for [DOME_IDLE], once; it
    reports no arrival even if a limit switch is on, records no timeout, and
    leaves [MotionRequest] at -1. *)
Theorem abort_stops_motion pi fw fw' s :
  DomeMotionSP_s fw = IPS_BUSY ->
  roofLockedSwitch (refreshed pi fw s) = ISS_OFF ->
  isConnected fw' = true ->
  DomeMotionSP_s fw' = IPS_BUSY ->
  let s1 := snd (Abort pi fw s) in
  let s2 := snd (TimerHit pi fw' s1) in
  fst (Abort pi fw s) = true
  /\ MotionRequest s1 = -1 /\ roofOpening s1 = false /\ roofClosing s1 = false
  /\ filter isSetIdle (trace s2)
     = EvDome (setDomeState DOME_IDLE) :: filter isSetIdle (trace s1)
  /\ filter isSetParked (trace s2) = filter isSetParked (trace s1)
  /\ roofTimedOut s2 = roofTimedOut s1
  /\ MotionRequest s2 = -1.
Proof.
  intros Hbusy Hlock Hconn' Hbusy'. cbv zeta.
  destruct (Abort_busy pi fw s Hbusy Hlock) as (Hmr & Hro & Hrc).
  assert (Hneg : MotionRequest (snd (Abort pi fw s)) < 0) by (rewrite Hmr; lia).
  destruct (TimerHit_aborted pi fw' _ Hconn' Hbusy' Hneg) as (Hidle & Hparked & Hto).
  destruct (TimerHit_shape pi fw' (snd (Abort pi fw s)) Hconn')
    as (mid & Hs2 & _ & Hmid).
  split; [apply Abort_true |].
  repeat (split; [assumption |]).
  unfold beforeRearm in Hs2. cbv zeta in Hs2. rewrite Hs2.
  destruct mid; cbn in *. congruence.
Qed.

(** The roof is opening and has reached the OPENED switch on pin 5 when the
    abort comes. *)
Lemma abort_stops_motion_witness :
  let pi := host (high [5]) 0 (mkTimeval 100 0) in
  let fw := baseClass IPS_BUSY ISS_ON ISS_OFF in
  let s := set_MotionRequest 15 (connectedDriver exampleDefs true false) in
  let s1 := snd (Abort pi fw s) in
  let s2 := snd (TimerHit pi fw s1) in
  MotionRequest s1 = -1
  /\ filter isSetIdle (trace s2) = [EvDome (setDomeState DOME_IDLE)]
  /\ filter isSetParked (trace s2) = [].
Proof.
  intros pi fw s s1 s2.
  destruct (abort_stops_motion pi fw fw s eq_refl eq_refl eq_refl eq_refl)
    as (_ & Hmr & _ & _ & Hidle & Hparked & _).
  split; [exact Hmr |]. split; [exact Hidle | exact Hparked].
Defined.

Lemma status_event_not_actuation (e : Event) :
  status_event e = true -> isActuation e = false.
Proof.
  destruct e as [| | | | | | | | | c]; try reflexivity; discriminate.
Qed.

(** X18. Abort without a motion.  When the lock switch is on after the
    status refresh, or the base class is not busy, [Abort] answers true and
    beyond the refresh only adds to the log and, possibly, resets the park
    switch: it actuates no relay and leaves the motion flags and
    [MotionRequest] as the refresh left them.  The park switch is reset
    exactly when the lock is off and both limit switches are off. *)
Theorem abort_without_motion pi fw s :
  roofLockedSwitch (refreshed pi fw s) = ISS_ON
  \/ DomeMotionSP_s fw <> IPS_BUSY ->
  let p := refreshed pi fw s in
  let s' := snd (Abort pi fw s) in
  fst (Abort pi fw s) = true
  /\ (exists evs, s' = set_trace (evs ++ trace p) p
                  /\ forallb (fun e => isWarning e || isParkReset e) evs = true)
  /\ filter isActuation (trace s') = filter isActuation (trace s)
  /\ MotionRequest s' = MotionRequest s
  /\ filter isParkReset (trace s')
     = ((if negb (isOn (roofLockedSwitch p))
           && negb (isOn (fullyOpenedLimitSwitch p))
           && negb (isOn (fullyClosedLimitSwitch p))
        then [EvDome ParkSP_reset_idle] else [])
       ++ filter isParkReset (trace p))%list.
Proof.
  intros Hcase. cbv zeta. split; [apply Abort_true |].
  pose proof (updateRoofStatus_step pi fw s) as Hstep.
  pose proof (status_step_filter isActuation _ _ Hstep status_event_not_actuation)
    as Hact.
  apply status_step_frame in Hstep.
  destruct Hstep as (_ & _ & _ & _ & Hmr & _).
  unfold Abort, refreshed in *. rewrite bind_eq.
  set (p := snd (updateRoofStatus pi fw s)) in *. clearbody p.
  rewrite <- Hact, <- Hmr. clear Hact Hmr. run.
  assert (Hb : roofLockedSwitch p = ISS_OFF ->
               IPState_eqb (DomeMotionSP_s fw) IPS_BUSY = false).
  { intros Hoff. destruct Hcase as [Hon | Hidle]; [congruence |].
    destruct (DomeMotionSP_s fw); try reflexivity; congruence. }
  clear Hcase.
  destruct p as [mr ms ce ro rc L LP lk ax fo fc rl ra tn rt so sc er lm d id t].
  cbn [roofLockedSwitch fullyOpenedLimitSwitch fullyClosedLimitSwitch] in *.
  destruct rl; [rewrite (Hb eq_refl) |]; destruct fo, fc; cbn;
    (split; [first [eexists [_]; split; reflexivity
                   | eexists [_; _]; split; reflexivity] |]);
    repeat split.
Qed.

(** The roof stands half open, nothing moves: the abort resets the park
    switch and writes to no pin. *)
Lemma abort_without_motion_witness :
  let pi := host (high []) 0 (mkTimeval 100 0) in
  let fw := baseClass IPS_IDLE ISS_OFF ISS_OFF in
  let s := connectedDriver exampleDefs false false in
  filter isActuation (trace (snd (Abort pi fw s))) = []
  /\ filter isParkReset (trace (snd (Abort pi fw s))) = [EvDome ParkSP_reset_idle].
Proof.
  intros pi fw s.
  assert (Hidle : DomeMotionSP_s fw <> IPS_BUSY) by discriminate.
  destruct (abort_without_motion pi fw s (or_intror Hidle))
    as (_ & _ & Hact & _ & Hpark).
  split; [exact Hact | exact Hpark].
Defined.

(** ** Move *)

Lemma io_step_MotionStart (s s' : RollOffIno) :
  io_step s s' -> MotionStart s' = MotionStart s.
Proof. intros (evs & o & c & l & a & ->). destruct s; reflexivity. Qed.

Lemma actuate_io pi fw dir : keeps io_step (actuate pi fw dir).
Proof. destruct dir; [apply roofOpen_io | apply roofClose_io]. Qed.

Lemma actuate_adds pi fw dir : keeps (adds noReport) (actuate pi fw dir).
Proof.
  unfold actuate. destruct dir; unfold_driver; adds_steps noReport.
Qed.

Lemma Move_status_adds pi fw : keeps (adds refreshEvent) (Move_status pi fw).
Proof. unfold_driver. adds_steps refreshEvent. Qed.

Lemma Move_status_timeout pi fw s :
  let p := snd (Move_status pi fw s) in
  MotionRequest p = MotionRequest s /\ MotionStart p = MotionStart s
  /\ roofTimedOut p = roofTimedOut s /\ RoofTimeoutN p = RoofTimeoutN s.
Proof.
  cbv zeta. rewrite Move_status_eq.
  pose proof (updateRoofStatus_step pi fw
    (set_trace (EvLog DBG_DEBUG "Roof received dome motion directive." [] :: trace s) s))
    as H.
  apply status_step_frame in H.
  destruct H as (_ & _ & _ & Hto & Hmr & Hms & Htn & _).
  rewrite Hto, Hmr, Hms, Htn. destruct s; repeat split.
Qed.

(** [Move] from the state that its status refresh left. *)
Lemma Move_eq pi fw dir operation s :
  Move pi fw dir operation s
  = (let p := snd (Move_status pi fw s) in
     match operation with
     | MOTION_STOP => (IPS_ALERT, p)
     | MOTION_START =>
         if isOn (roofLockedSwitch p) then
           (IPS_ALERT,
            set_trace (EvLog DBG_WARNING
                         "Roof is externally locked, no movement possible" []
                       :: trace p) p)
         else if roofOpening p then
           (IPS_OK,
            set_trace (EvLog DBG_DEBUG
                         "Roof is in process of opening, wait for completion." []
                       :: trace p) p)
         else if roofClosing p then
           (IPS_OK,
            set_trace (EvLog DBG_DEBUG
                         "Roof is in process of closing, wait for completion." []
                       :: trace p) p)
         else if isOn (limitSwitch dir p) then
           (IPS_ALERT,
            match dir with
            | DOME_CW =>
                set_trace
                  (EvDome (SetParked false)
                   :: EvLog DBG_WARNING
                        "DOME_CW directive received but roof is already fully opened" []
                   :: trace p) p
            | DOME_CCW =>
                set_trace
                  (EvLog DBG_WARNING
                     "DOME_CCW directive received but roof is already fully closed" []
                   :: EvDome (SetParked true) :: trace p) p
            end)
         else if match dir with DOME_CW => false | DOME_CCW => isLocked fw end then
           (IPS_ALERT,
            set_trace
              (EvLog DBG_WARNING
                 "Cannot close dome when mount is locking. See: Telescope parkng policy, in options tab"
                 [] :: trace p) p)
         else
           let q := snd (actuate pi fw dir p) in
           if fst (actuate pi fw dir p) then
             let q1 :=
               set_trace
                 (EvLog DBG_SESSION
                    match dir with
                    | DOME_CW => "Roof is opening..."
                    | DOME_CCW => "Roof is closing..."
                    end [] :: trace q)
                 (set_roofClosing match dir with DOME_CW => false | DOME_CCW => true end
                    (set_roofOpening match dir with DOME_CW => true | DOME_CCW => false end
                       q)) in
             let now :=
               gettimeofday pi
                 (EvLog DBG_DEBUG "Roof motion timeout setting: %d"
                    [ArgN (RoofTimeoutN q)] :: trace q1) in
             (IPS_BUSY,
              set_trace
                (EvDome (SetTimer INACTIVE_TIMING) :: EvGettimeofday now
                 :: EvLog DBG_DEBUG "Roof motion timeout setting: %d"
                      [ArgN (RoofTimeoutN q)] :: trace q1)
                (set_MotionStart now
                   (set_MotionRequest (RoofTimeoutN q)
                      (set_roofTimedOut EXPIRED_CLEAR q1))))
           else
             (IPS_ALERT,
              set_trace
                (EvLog DBG_WARNING
                   match dir with
                   | DOME_CW => "Failed to operate controller to open roof"
                   | DOME_CCW => "Failed to operate controller to close roof"
                   end [] :: trace q) q)
     end).
Proof.
  unfold Move. rewrite bind_eq. cbv zeta.
  set (p := snd (Move_status pi fw s)). clearbody p.
  destruct operation; [| reflexivity].
  unfold call_gettimeofday. run.
  destruct (isOn (roofLockedSwitch p)); [reflexivity |].
  destruct (roofOpening p); [reflexivity |].
  destruct (roofClosing p); [reflexivity |].
  destruct dir; cbn [limitSwitch actuate].
  - destruct (isOn (fullyOpenedLimitSwitch p)); [destruct p; reflexivity |].
    destruct (roofOpen pi fw p) as [ok q]. destruct ok; destruct q; reflexivity.
  - destruct (isOn (fullyClosedLimitSwitch p)); [destruct p; reflexivity |].
    destruct (isLocked fw); [reflexivity |].
    destruct (roofClose pi fw p) as [ok q]. destruct ok; destruct q; reflexivity.
Qed.

Lemma Move_busy_actuated pi fw dir operation s :
  fst (Move pi fw dir operation s) = IPS_BUSY ->
  fst (actuate pi fw dir (snd (Move_status pi fw s))) = true.
Proof.
  rewrite Move_eq. cbv zeta.
  set (p := snd (Move_status pi fw s)). clearbody p.
  destruct operation; [| discriminate].
  destruct (isOn (roofLockedSwitch p)); [discriminate |].
  destruct (roofOpening p); [discriminate |].
  destruct (roofClosing p); [discriminate |].
  destruct (isOn (limitSwitch dir p)); [discriminate |].
  destruct (match dir with DOME_CW => false | DOME_CCW => isLocked fw end);
    [discriminate |].
  destruct (fst (actuate pi fw dir p)); [reflexivity | discriminate].
Qed.

(** X19. When a move is accepted.  [Move] answers [IPS_BUSY] exactly when
    it is asked to start, finds after its status refresh the lock switch
    off, no motion flag set and the limit switch of the direction off, is
    not asked to close while the mount is locking, and the call of the
    relay ([roofOpen] or [roofClose]) succeeds. *)
Theorem move_accepted_iff pi fw dir operation s :
  let p := snd (Move_status pi fw s) in
  fst (Move pi fw dir operation s) = IPS_BUSY
  <-> moveAllowed fw dir operation p = true /\ fst (actuate pi fw dir p) = true.
Proof.
  cbv zeta. rewrite Move_eq. cbv zeta. unfold moveAllowed.
  set (p := snd (Move_status pi fw s)). clearbody p.
  destruct operation; [| cbn; split; [discriminate | intros [H _]; discriminate]].
  destruct (isOn (roofLockedSwitch p));
    [cbn; split; [discriminate | intros [H _]; discriminate] |].
  destruct (roofOpening p);
    [cbn; split; [discriminate | intros [H _]; discriminate] |].
  destruct (roofClosing p);
    [cbn; split; [discriminate | intros [H _]; discriminate] |].
  destruct (isOn (limitSwitch dir p));
    [cbn; split; [discriminate | intros [H _]; discriminate] |].
  cbn [negb andb].
  destruct dir.
  - destruct (fst (actuate pi fw DOME_CW p)); cbn; split; auto; try discriminate.
    intros [_ H]; discriminate.
  - destruct (isLocked fw);
      [cbn; split; [discriminate | intros [H _]; discriminate] |].
    destruct (fst (actuate pi fw DOME_CCW p)); cbn; split; auto; try discriminate.
    intros [_ H]; discriminate.
Qed.


(** A closed, unlocked roof is asked to open and every write succeeds. *)
Lemma move_accepted_iff_witness :
  let pi := host (high [6]) 0 (mkTimeval 100 0) in
  let fw := baseClass IPS_IDLE ISS_OFF ISS_OFF in
  let s := connectedDriver exampleDefs false false in
  fst (Move pi fw DOME_CW MOTION_START s) = IPS_BUSY.
Proof.
  intros pi fw s.
  apply (proj2 (move_accepted_iff pi fw DOME_CW MOTION_START s)).
  split; reflexivity.
Defined.

(** X20. The timeout is armed by an accepted move and by nothing else in
    [Move].  A move that is answered [IPS_BUSY] clears the recorded
    timeout, copies the configured timeout into [MotionRequest], reads the
    clock into [MotionStart] and asks for a tick after [INACTIVE_TIMING], in
    this order at the very end.  A move with any other answer leaves
    [MotionRequest], [MotionStart] and the recorded timeout alone and asks
    for no tick. *)
Theorem move_arms_timeout pi fw dir operation s :
  let s' := snd (Move pi fw dir operation s) in
  (fst (Move pi fw dir operation s) = IPS_BUSY ->
   roofTimedOut s' = EXPIRED_CLEAR
   /\ MotionRequest s' = RoofTimeoutN s
   /\ exists now rest,
        trace s' = EvDome (SetTimer INACTIVE_TIMING) :: EvGettimeofday now :: rest
        /\ now = gettimeofday pi rest
        /\ MotionStart s' = now)
  /\ (fst (Move pi fw dir operation s) <> IPS_BUSY -> notArmed s s').
Proof.
  cbv zeta.
  destruct (Move_status_timeout pi fw s) as (Hmr & Hms & Hto & Htn).
  pose proof (adds_filter _ isSetTimer _ _ (Move_status_adds pi fw s)) as Hst.
  rewrite Move_eq. cbv zeta.
  set (p := snd (Move_status pi fw s)) in *. clearbody p.
  assert (Ht : filter isSetTimer (trace p) = filter isSetTimer (trace s)).
  { apply Hst. intros e He. unfold refreshEvent, noReport in He.
    destruct (isSetTimer e); [discriminate | reflexivity]. }
  clear Hst.
  pose proof (actuate_io pi fw dir p) as Hio.
  pose proof (io_step_MotionStart _ _ Hio) as Hqms.
  pose proof (io_step_props _ _ Hio) as (_ & Hqtn & _).
  apply io_step_frame in Hio. destruct Hio as (_ & _ & _ & Hqto & Hqmr & _).
  pose proof (adds_filter _ isSetTimer _ _ (actuate_adds pi fw dir p)) as Hqt.
  assert (Hqt' : filter isSetTimer (trace (snd (actuate pi fw dir p)))
                 = filter isSetTimer (trace p)).
  { apply Hqt. intros e He. unfold noReport in He.
    destruct (isSetTimer e); [discriminate | reflexivity]. }
  clear Hqt.
  set (q := snd (actuate pi fw dir p)) in *. clearbody q.
  assert (Hkeep : forall x y,
            filter isSetTimer (trace x) = filter isSetTimer (trace y) ->
            MotionRequest x = MotionRequest y -> MotionStart x = MotionStart y ->
            roofTimedOut x = roofTimedOut y ->
            notArmed s y -> notArmed s x).
  { unfold notArmed. intros x y -> -> -> -> H. exact H. }
  assert (Hp : notArmed s p) by (unfold notArmed; auto).
  assert (Hq : notArmed s q).
  { apply (Hkeep q p); assumption. }
  clear Hmr Hms Hto Ht Hqto Hqmr Hqms Hqt'.
  destruct operation;
    [| cbn [fst snd]; split; [discriminate | intros _; exact Hp]].
  destruct (isOn (roofLockedSwitch p));
    [split; [discriminate | intros _; apply (Hkeep _ p); try reflexivity; exact Hp] |].
  destruct (roofOpening p);
    [split; [discriminate | intros _; apply (Hkeep _ p); try reflexivity; exact Hp] |].
  destruct (roofClosing p);
    [split; [discriminate | intros _; apply (Hkeep _ p); try reflexivity; exact Hp] |].
  destruct (isOn (limitSwitch dir p));
    [split; [discriminate
            | intros _; destruct dir; apply (Hkeep _ p); try reflexivity; exact Hp] |].
  destruct (match dir with DOME_CW => false | DOME_CCW => isLocked fw end);
    [split; [discriminate | intros _; apply (Hkeep _ p); try reflexivity; exact Hp] |].
  destruct (fst (actuate pi fw dir p)).
  - split; [intros _ | intros H; exfalso; apply H; reflexivity].
    cbn [fst snd]. split; [reflexivity |].
    split; [rewrite <- Htn, <- Hqtn; reflexivity |].
    eexists _, _. split; [reflexivity |]. split; reflexivity.
  - split; [discriminate | intros _].
    apply (Hkeep _ q); try reflexivity; exact Hq.
Qed.

(** The same request twice: the first is accepted, the second finds the
    opening in progress and arms nothing. *)
Lemma move_arms_timeout_witness :
  let pi := host (high [6]) 0 (mkTimeval 100 0) in
  let fw := baseClass IPS_IDLE ISS_OFF ISS_OFF in
  let s := set_gpioDefs exampleDefs
             (set_contactEstablished true (set_RoofTimeoutN 40 newDriver)) in
  let s1 := snd (Move pi fw DOME_CW MOTION_START s) in
  let s2 := snd (Move (host (high []) 0 (mkTimeval 130 0)) fw DOME_CW MOTION_START s1) in
  (MotionRequest s1 = 40 /\ MotionStart s1 = mkTimeval 100 0)
  /\ notArmed s1 s2.
Proof.
  intros pi fw s s1 s2.
  destruct (move_arms_timeout pi fw DOME_CW MOTION_START s) as (Hacc & _).
  destruct (Hacc eq_refl) as (_ & Hmr & now & rest & Ht & Hnow & Hms).
  destruct (move_arms_timeout (host (high []) 0 (mkTimeval 130 0)) fw
              DOME_CW MOTION_START s1) as (_ & Hrej).
  split; [split; [exact Hmr | reflexivity] |].
  apply Hrej. intros H. vm_compute in H. discriminate H.
Defined.

Lemma refreshEvent_not_actuation (e : Event) :
  refreshEvent e = true -> isActuation e = false.
Proof.
  unfold refreshEvent. intros H. apply andb_prop in H. destruct H as [_ H].
  apply negb_true_iff, H.
Qed.

Lemma refreshEvent_not_parked (e : Event) :
  refreshEvent e = true -> isSetParked e = false.
Proof.
  unfold refreshEvent, noReport. intros H.
  destruct (isSetParked e); [| reflexivity].
  rewrite andb_false_r in H. discriminate.
Qed.

(** X21. A move that is stopped by a test.  When one of the tests of
    [Move] that come before the relay fails (a stop request, the lock, a
    motion in progress, the limit switch of the direction already on, a
    close while the mount is locking), no relay is actuated and the motion
    flags stay as the status refresh left them.  When the test that fails is
    the limit switch, the answer is [IPS_ALERT] and the base class is told
    once that the roof is unparked (asked to open) or parked (asked to
    close); in the other cases it is told nothing about parking. *)
Theorem move_refused_before_relay pi fw dir operation s :
  let p := snd (Move_status pi fw s) in
  let s' := snd (Move pi fw dir operation s) in
  moveAllowed fw dir operation p = false ->
  fst (Move pi fw dir operation s) <> IPS_BUSY
  /\ filter isActuation (trace s') = filter isActuation (trace s)
  /\ roofOpening s' = roofOpening p /\ roofClosing s' = roofClosing p
  /\ filter isSetParked (trace s')
     = ((if alreadyThere dir operation p
         then [EvDome (SetParked match dir with DOME_CW => false | DOME_CCW => true end)]
         else []) ++ filter isSetParked (trace s))%list
  /\ (alreadyThere dir operation p = true ->
      fst (Move pi fw dir operation s) = IPS_ALERT).
Proof.
  cbv zeta.
  pose proof (adds_filter _ isActuation _ _ (Move_status_adds pi fw s)
                refreshEvent_not_actuation) as Hact.
  pose proof (adds_filter _ isSetParked _ _ (Move_status_adds pi fw s)
                refreshEvent_not_parked) as Hpark.
  rewrite Move_eq. cbv zeta. unfold moveAllowed, alreadyThere.
  set (p := snd (Move_status pi fw s)) in *. clearbody p.
  rewrite <- Hact, <- Hpark. clear Hact Hpark.
  destruct operation;
    [| intros _; cbn [fst snd app negb andb trace set_trace filter isActuation isSetParked]; repeat split; solve [discriminate | assumption]].
  destruct (isOn (roofLockedSwitch p));
    [intros _; cbn [fst snd app negb andb trace set_trace filter isActuation isSetParked]; repeat split; solve [discriminate | assumption] |].
  destruct (roofOpening p) eqn:Hro;
    [intros _; cbn [fst snd app negb andb trace set_trace filter isActuation isSetParked]; repeat split; solve [discriminate | assumption] |].
  destruct (roofClosing p) eqn:Hrc;
    [intros _; cbn [fst snd app negb andb trace set_trace filter isActuation isSetParked]; repeat split; solve [discriminate | assumption] |].
  destruct (isOn (limitSwitch dir p));
    [intros _; destruct dir; cbn [fst snd app negb andb trace set_trace filter isActuation isSetParked]; repeat split;
     solve [discriminate | assumption] |].
  cbn [negb andb].
  destruct dir; [discriminate |].
  destruct (isLocked fw); [| discriminate].
  intros _. cbn [fst snd app negb andb trace set_trace filter isActuation isSetParked]. repeat split; solve [discriminate | assumption].
Qed.

(** The roof is closed (the CLOSED switch on pin 6 reads active) and is
    asked to close. *)
Lemma move_refused_before_relay_witness :
  let pi := host (high [6]) 0 (mkTimeval 100 0) in
  let fw := baseClass IPS_IDLE ISS_OFF ISS_OFF in
  let s := connectedDriver exampleDefs false false in
  let s' := snd (Move pi fw DOME_CCW MOTION_START s) in
  fst (Move pi fw DOME_CCW MOTION_START s) = IPS_ALERT
  /\ filter isActuation (trace s') = []
  /\ filter isSetParked (trace s') = [EvDome (SetParked true)].
Proof.
  intros pi fw s s'.
  destruct (move_refused_before_relay pi fw DOME_CCW MOTION_START s eq_refl)
    as (_ & Hact & _ & _ & Hpark & Halert).
  split; [exact (Halert eq_refl) |]. split; [exact Hact | exact Hpark].
Defined.

(** ** The status lights *)

Lemma roofStatusLights_table (o c l a : bool) (s : RollOffIno) :
  let s' := snd (roofStatusLights o c l a s) in
  light s' ROOF_STATUS_LOCKED = (if l then IPS_ALERT else IPS_IDLE)
  /\ light s' ROOF_STATUS_AUXSTATE = (if a then IPS_OK else IPS_IDLE)
  /\ light s' ROOF_STATUS_MOVING
     = (if negb o && negb c && (roofOpening s || roofClosing s)
        then if l then IPS_ALERT else IPS_BUSY
        else IPS_IDLE)
  /\ RoofStatusLP_s s' = summaryFor o c l (roofOpening s) (roofClosing s)
  /\ roofOpening s' = roofOpening s && negb (negb l && o && negb c)
  /\ roofClosing s' = roofClosing s && negb (negb l && c && negb o)
  /\ filter isSetLight (trace s')
     = EvDome IDSetLight_RoofStatusLP :: filter isSetLight (trace s).
Proof.
  destruct s as [mr ms ce ro rc L LP lk ax fo fc rl ra tn rt so sc er lm d id t].
  unfold roofStatusLights, summaryFor. run.
  cbn [roofOpening roofClosing].
  destruct o, c, l, a, ro, rc; cbn;
    repeat (match goal with
            | |- context [if ?b then _ else _] => destruct b
            end; cbn);
    repeat split.
Qed.

Lemma sensor_step_filter (P : Event -> bool) (s s' : RollOffIno) :
  sensor_step s s' ->
  (forall e, sensor_event e = true -> P e = false) ->
  filter P (trace s') = filter P (trace s).
Proof.
  intros (evs & o & c & l & a & -> & H) HP.
  destruct s; cbn. apply (filter_events_app _ sensor_event); assumption.
Qed.

(** X22. The status lights as a table.  One status derivation, with the
    four sensor values it read: the LOCKED light is in alert exactly when
    the lock reads active and the auxiliary light is ok exactly when the
    auxiliary sensor reads active, in every branch; the MOVING light is lit
    only when neither limit switch reads set and a motion flag is set, busy
    without the lock and in alert with it; the summary is [summaryFor]; a
    motion flag is cleared exactly when the lock is off and the limit switch
    of its direction reads set and the other one does not; and the lights
    are sent to the client once. *)
Theorem status_derivation pi fw s o c l a :
  fst (readSensors pi fw s) = (o, c, l, a) ->
  let s' := snd (updateRoofStatus pi fw s) in
  light s' ROOF_STATUS_LOCKED = (if l then IPS_ALERT else IPS_IDLE)
  /\ light s' ROOF_STATUS_AUXSTATE = (if a then IPS_OK else IPS_IDLE)
  /\ light s' ROOF_STATUS_MOVING
     = (if negb o && negb c && (roofOpening s || roofClosing s)
        then if l then IPS_ALERT else IPS_BUSY
        else IPS_IDLE)
  /\ RoofStatusLP_s s' = summaryFor o c l (roofOpening s) (roofClosing s)
  /\ roofOpening s' = roofOpening s && negb (negb l && o && negb c)
  /\ roofClosing s' = roofClosing s && negb (negb l && c && negb o)
  /\ filter isSetLight (trace s')
     = EvDome IDSetLight_RoofStatusLP :: filter isSetLight (trace s).
Proof.
  intros Hread. cbv zeta. rewrite updateRoofStatus_eq, Hread.
  pose proof (readSensors_step pi fw s) as Hstep.
  assert (Hf : filter isSetLight (trace (snd (readSensors pi fw s)))
               = filter isSetLight (trace s)).
  { apply (sensor_step_filter _ _ _ Hstep).
    intros e He. destruct e as [| | | | | | | | | k]; try reflexivity.
    discriminate. }
  apply sensor_step_io, io_step_frame in Hstep.
  destruct Hstep as (_ & _ & _ & _ & _ & Hro & Hrc & _).
  rewrite <- Hro, <- Hrc, <- Hf.
  apply roofStatusLights_table.
Qed.

(** The roof is opening and the lock on pin 13 reads active. *)
Lemma status_derivation_witness :
  let pi := host (high [13]) 0 (mkTimeval 100 0) in
  let fw := baseClass IPS_BUSY ISS_ON ISS_OFF in
  let s := connectedDriver exampleDefs true false in
  let s' := snd (updateRoofStatus pi fw s) in
  light s' ROOF_STATUS_LOCKED = IPS_ALERT
  /\ light s' ROOF_STATUS_MOVING = IPS_ALERT
  /\ RoofStatusLP_s s' = IPS_ALERT
  /\ roofOpening s' = true.
Proof.
  intros pi fw s s'.
  destruct (status_derivation pi fw s false false true false eq_refl)
    as (Hl & _ & Hm & Hs & Ho & _).
  split; [exact Hl |]. split; [exact Hm |]. split; [exact Hs | exact Ho].
Defined.

(** ** A driver without GPIO definitions *)

Lemma unconfigured_refl (s : RollOffIno) : unconfigured s s.
Proof. intros H. split; [exact H | apply adds_refl]. Qed.

Lemma unconfigured_trans (s1 s2 s3 : RollOffIno) :
  unconfigured s1 s2 -> unconfigured s2 s3 -> unconfigured s1 s3.
Proof.
  intros H12 H23 H1. destruct (H12 H1) as [H2 A12].
  destruct (H23 H2) as [H3 A23].
  split; [exact H3 | eapply adds_trans; eassumption].
Qed.

Lemma unconfigured_gets {A : Type} (k : GpioDefs -> M A) :
  keeps unconfigured (k initialGpioDefs) ->
  keeps unconfigured (bind (gets gpioDefs) k).
Proof.
  intros Hk s Hd. unfold bind, gets. rewrite Hd. apply Hk, Hd.
Qed.

Lemma initial_unmapped (name : string) :
  inpDefinitionFor name initialGpioDefs = None
  /\ outDefinitionFor name initialGpioDefs = None.
Proof.
  unfold inpDefinitionFor, outDefinitionFor, first_index. cbn.
  rewrite !andb_false_r. split; reflexivity.
Qed.

Lemma pinSetEvent_initial (e : Event) :
  pinSetEvent initialGpioDefs e = true -> offline e = true.
Proof.
  destruct e as [lvl fmt args | g r | g level r | g m r | g pud r | | | | |];
    try reflexivity; try discriminate.
  all: intros H; exfalso;
    try match goal with
      | x : PiMode |- _ => destruct x
      | x : PiPud |- _ => destruct x
      end;
    cbn in H; rewrite ?andb_false_r in H; cbn in H; discriminate.
Qed.

Lemma gpioPinSet_unconfigured pi : keeps unconfigured (gpioPinSet pi).
Proof.
  intros s Hd.
  destruct (gpioPinSet_events pi initialGpioDefs s Hd) as (evs & -> & F).
  split; [destruct s; exact Hd |].
  exists evs. split; [destruct s; reflexivity |].
  rewrite forallb_forall in *. intros e He. apply pinSetEvent_initial, F, He.
Qed.

Ltac unconfigured_leaf :=
  first
    [ apply gpioPinSet_unconfigured
    | apply unconfigured_gets; cbv beta;
      rewrite ?(proj1 (initial_unmapped _)), ?(proj2 (initial_unmapped _))
    | apply keeps_modify; intros ? ?H; split; [solve [assumption | reflexivity] |];
      first [ apply adds_same; reflexivity
            | eapply adds_emit; [reflexivity | reflexivity] ]
    | intros ? ?H; cbv zeta; cbn [snd];
      split; [solve [assumption | reflexivity] |];
      first [ apply adds_same; reflexivity
            | eapply adds_emit; [reflexivity | reflexivity] ] ].

Ltac unconfigured_steps :=
  repeat first
    [ unconfigured_leaf | keeps_step unconfigured_refl unconfigured_trans ].

Lemma actuate_unconfigured pi fw dir s :
  isSimulation fw = false ->
  gpioDefs s = initialGpioDefs ->
  fst (actuate pi fw dir s) = false.
Proof.
  intros Hsim Hd.
  unfold actuate, roofOpen, roofClose, pushRoofButton, getRoofLockedSwitch,
    readRoofSwitch.
  destruct s as [mr ms ce ro rc L LP lk ax fo fc rl ra tn rt so sc er lm d id t].
  cbn [gpioDefs] in Hd. subst d.
  destruct dir; rewrite Hsim; run; destruct ce; reflexivity.
Qed.

Lemma Move_status_unconfigured pi fw : keeps unconfigured (Move_status pi fw).
Proof. unfold_driver. unconfigured_steps. Qed.

(** X23. A driver without definitions is inert.  [initProperties] leaves
    every function of every GPIO definition off.  As long as the definitions
    are in that state, [Connect], a move request, an abort, a timer tick, a
    status refresh and a request to set the lock or the auxiliary relay call
    no function on any pin and hold no relay, and outside simulation a move
    request is never answered [IPS_BUSY]. *)
Theorem unconfigured_driver_is_inert pi fw dir operation switchOn s :
  gpioDefs s = initialGpioDefs ->
  inert s (snd (Connect pi s))
  /\ inert s (snd (Move pi fw dir operation s))
  /\ inert s (snd (Abort pi fw s))
  /\ inert s (snd (TimerHit pi fw s))
  /\ inert s (snd (updateRoofStatus pi fw s))
  /\ inert s (snd (setRoofLock pi fw switchOn s))
  /\ inert s (snd (setRoofAux pi fw switchOn s))
  /\ (isSimulation fw = false -> fst (Move pi fw dir operation s) <> IPS_BUSY)
  /\ forall s0, gpioDefs (snd (initProperties s0)) = initialGpioDefs.
Proof.
  intros Hd.
  repeat match goal with |- _ /\ _ => split end.
  1-7: revert s Hd;
    match goal with
    | |- forall s, _ -> inert s (snd (?m s)) => change (keeps unconfigured m)
    end; unfold Connect; unfold_driver; unconfigured_steps.
  - intros Hsim Hbusy. apply Move_busy_actuated in Hbusy. rename Hbusy into Hact.
    destruct (Move_status_unconfigured pi fw s Hd) as [Hp _].
    rewrite (actuate_unconfigured pi fw dir _ Hsim Hp) in Hact. discriminate.
  - intros s0. destruct s0; reflexivity.
Qed.

(** The tick that finds too many errors has run [initProperties]: the
    definitions of the example are gone and a request to open fails without
    a write. *)
Lemma unconfigured_driver_is_inert_witness :
  let pi := host (high [6]) 0 (mkTimeval 100 0) in
  let fw := baseClass IPS_IDLE ISS_OFF ISS_OFF in
  let s := snd (TimerHit pi fw
                  (set_communicationErrors 11 (connectedDriver exampleDefs false false))) in
  inert s (snd (Move pi fw DOME_CW MOTION_START s))
  /\ fst (Move pi fw DOME_CW MOTION_START s) <> IPS_BUSY.
Proof.
  intros pi fw s.
  destruct (unconfigured_driver_is_inert pi fw DOME_CW MOTION_START true s eq_refl)
    as (_ & Hmove & _ & _ & _ & _ & _ & Hbusy & _).
  split; [exact Hmove | exact (Hbusy eq_refl)].
Defined.

(** ** Time left, simulated arrival, read-only calls *)

(** X24. The time left of a motion is at or below zero exactly when the
    whole milliseconds on the clock since [MotionStart] have reached a
    thousand times [MotionRequest]; fractions of a millisecond are dropped
    on both clock readings.  After an abort, with [MotionRequest] at -1,
    that is the case as soon as the clock is not more than a second behind
    [MotionStart]. *)
Theorem time_left_expired pi s :
  Qle_bool (timeleftAt pi s) 0 = (1000 * MotionRequest s <=? elapsedMillis pi s)
  /\ (MotionRequest s = -1 -> -1000 <= elapsedMillis pi s ->
      Qle_bool (timeleftAt pi s) 0 = true).
Proof.
  assert (H : Qle_bool (timeleftAt pi s) 0
              = (1000 * MotionRequest s <=? elapsedMillis pi s)).
  { unfold timeleftAt, CalcTimeLeft, call_gettimeofday, elapsedMillis. run.
    change (MotionRequest (set_trace _ s)) with (MotionRequest s).
    set (e := millis (gettimeofday pi (trace s)) - millis (MotionStart s)).
    set (r := MotionRequest s). clearbody e r.
    unfold Qle_bool, Qminus, Qplus, Qopp, Qdiv, Qmult, Qinv, inject_Z.
    cbn [Qnum Qden Pos.mul].
    match goal with
    | |- (?a <=? ?b) = _ => destruct (Z.leb_spec a b)
    end; destruct (Z.leb_spec (1000 * r) e); try reflexivity; lia. }
  split; [exact H |].
  intros Hr He. rewrite H, Hr. apply Z.leb_le. lia.
Qed.

(** Fifteen seconds were allowed at 85.0004s; at 100.0000s they are over. *)
Lemma time_left_expired_witness :
  let pi := host (high []) 0 (mkTimeval 100 0) in
  let s := set_MotionStart (mkTimeval 85 400)
             (set_MotionRequest 15 (connectedDriver exampleDefs true false)) in
  elapsedMillis pi s = 15000 /\ Qle_bool (timeleftAt pi s) 0 = true.
Proof.
  intros pi s. split; [reflexivity |].
  rewrite (proj1 (time_left_expired pi s)). reflexivity.
Defined.

Lemma roofStatusLights_switches (o c l a : bool) (s : RollOffIno) :
  let s' := snd (roofStatusLights o c l a s) in
  fullyOpenedLimitSwitch s' = fullyOpenedLimitSwitch s
  /\ fullyClosedLimitSwitch s' = fullyClosedLimitSwitch s
  /\ roofLockedSwitch s' = roofLockedSwitch s
  /\ simRoofOpen s' = simRoofOpen s /\ simRoofClosed s' = simRoofClosed s.
Proof.
  cbv zeta.
  set (I := fun y : RollOffIno =>
              fullyOpenedLimitSwitch y = fullyOpenedLimitSwitch s
              /\ fullyClosedLimitSwitch y = fullyClosedLimitSwitch s
              /\ roofLockedSwitch y = roofLockedSwitch s
              /\ simRoofOpen y = simRoofOpen s /\ simRoofClosed y = simRoofClosed s).
  assert (H : keeps (preserves I) (roofStatusLights o c l a)).
  { unfold roofStatusLights. unfold_calls. same_steps I. }
  apply (H s). unfold I. repeat split.
Qed.

Lemma updateRoofStatus_simulated pi fw s :
  isSimulation fw = true ->
  let s' := snd (updateRoofStatus pi fw s) in
  fullyOpenedLimitSwitch s' = (if simRoofOpen s then ISS_ON else ISS_OFF)
  /\ fullyClosedLimitSwitch s' = (if simRoofClosed s then ISS_ON else ISS_OFF)
  /\ roofLockedSwitch s' = ISS_OFF
  /\ simRoofOpen s' = simRoofOpen s /\ simRoofClosed s' = simRoofClosed s.
Proof.
  intros Hsim. cbv zeta. rewrite updateRoofStatus_eq.
  assert (Hr : let r := snd (readSensors pi fw s) in
               fullyOpenedLimitSwitch r = (if simRoofOpen s then ISS_ON else ISS_OFF)
               /\ fullyClosedLimitSwitch r = (if simRoofClosed s then ISS_ON else ISS_OFF)
               /\ roofLockedSwitch r = ISS_OFF
               /\ simRoofOpen r = simRoofOpen s /\ simRoofClosed r = simRoofClosed s).
  { unfold readSensors, getFullOpenedLimitSwitch, getFullClosedLimitSwitch,
      getRoofLockedSwitch, getRoofAuxSwitch.
    rewrite Hsim. run.
    destruct s as [mr ms ce ro rc L LP lk ax fo fc rl ra tn rt so sc er lm d id t].
    cbn. destruct so, sc; cbn;
      repeat (match goal with
              | |- context [if ?b then _ else _] => destruct b
              end; cbn);
      repeat split. }
  cbv zeta in Hr.
  destruct (readSensors pi fw s) as [[[[o c] l] a] r]. cbn [fst snd] in *.
  destruct (roofStatusLights_switches o c l a r) as (H1 & H2 & H3 & H4 & H5).
  destruct Hr as (R1 & R2 & R3 & R4 & R5).
  rewrite H1, H2, H3, H4, H5. repeat split; assumption.
Qed.

(** X25. The simulated roof arrives.  In simulation, a tick of a connected
    driver that finds the base class busy with a motion in direction [dir],
    not aborted, and at most five seconds left, sets the simulated limit
    switch of that direction and clears the other one; the status refresh
    of the same tick takes the limit switch states from them, and the tick
    reports the roof unparked (opening) or parked (closing). *)
Theorem simulated_arrival pi fw dir s :
  isSimulation fw = true ->
  isConnected fw = true ->
  DomeMotionSP_s fw = IPS_BUSY ->
  0 <= MotionRequest s ->
  motionTowards fw dir ->
  Qle_bool (timeleftAt pi s - inject_Z 5) 0 = true ->
  let p := polled pi fw s in
  limitSwitch dir p = ISS_ON /\ limitSwitch (otherWay dir) p = ISS_OFF
  /\ simRoofOpen p = match dir with DOME_CW => true | DOME_CCW => false end
  /\ simRoofClosed p = match dir with DOME_CW => false | DOME_CCW => true end
  /\ filter isSetParked (trace (snd (TimerHit pi fw s)))
     = EvDome (SetParked match dir with DOME_CW => false | DOME_CCW => true end)
       :: filter isSetParked (trace s).
Proof.
  intros Hsim Hconn Hbusy Hreq Hdir Hleft. cbv zeta.
  assert (Hp : limitSwitch dir (polled pi fw s) = ISS_ON
               /\ limitSwitch (otherWay dir) (polled pi fw s) = ISS_OFF
               /\ simRoofOpen (polled pi fw s)
                  = match dir with DOME_CW => true | DOME_CCW => false end
               /\ simRoofClosed (polled pi fw s)
                  = match dir with DOME_CW => false | DOME_CCW => true end).
  { unfold polled, TimerHit_poll. rewrite Hsim, Hleft. cbn [andb when].
    rewrite bind_eq.
    match goal with
    | |- context [updateRoofStatus pi fw ?x] =>
        destruct (updateRoofStatus_simulated pi fw x Hsim)
          as (H1 & H2 & _ & H4 & H5)
    end.
    unfold motionTowards, DomeMotionS in *.
    destruct dir; cbn [limitSwitch otherWay].
    - rewrite Hdir in *. cbn [isOn] in *.
      rewrite H1, H2, H4, H5. repeat split.
    - destruct Hdir as [Hcw Hccw]. rewrite Hcw, Hccw in *. cbn [isOn when] in *.
      rewrite H1, H2, H4, H5. repeat split. }
  destruct Hp as (Hon & Hoff & Hso & Hsc).
  repeat (split; [assumption |]).
  apply (TimerHit_arrival pi fw dir s Hconn Hbusy Hreq Hdir Hon).
Qed.

(** A simulated opening with 15s allowed, 12s after it began. *)
Lemma simulated_arrival_witness :
  let pi := host (high []) 0 (mkTimeval 112 0) in
  let fw := mkDomeBase true true IPS_BUSY ISS_ON ISS_OFF false in
  let s := set_MotionStart (mkTimeval 100 0)
             (set_MotionRequest 15 (connectedDriver exampleDefs true false)) in
  fullyOpenedLimitSwitch (polled pi fw s) = ISS_ON
  /\ filter isSetParked (trace (snd (TimerHit pi fw s))) = [EvDome (SetParked false)].
Proof.
  intros pi fw s.
  assert (Hreq : 0 <= MotionRequest s) by (vm_compute; discriminate).
  destruct (simulated_arrival pi fw DOME_CW s eq_refl eq_refl eq_refl Hreq
              eq_refl eq_refl) as (Hon & _ & _ & _ & Hpark).
  split; [exact Hon | exact Hpark].
Defined.

(** X26. Looking does not touch.  A status refresh and a timer tick write
    to no pin, configure no pin, hold no relay and neither open nor close
    the pigpiod session, whatever the sensors read and whatever the base
    class reports. *)
Theorem refresh_and_tick_are_read_only pi fw :
  keeps (adds readOnly) (updateRoofStatus pi fw)
  /\ keeps (adds readOnly) (TimerHit pi fw).
Proof.
  split; unfold_driver; adds_steps readOnly.
Qed.
